(** * A shallow embedding of the NMODL importer of pype9

    This development models parts of [pype9/neuron/importer/nmodl.py]
    ([NMODLImporter]): the line-level statement flattener
    ([_extract_stmts_block], [_extract_assignment],
    [_extract_conditional_block], [_unwrap_piecewise_stmt],
    [_get_piecewise]), the unit-dimension lookups, the parameter block
    reader, the orchestration of the constructor and the regime
    synthesis of [_create_regimes].

    Conventions.
    - Python strings are Rocq [string]s; the regular expressions of the
      module are written out as scanning functions over them.
    - Python dictionaries are stdpp [gmap]s.  Python 2 dictionaries and
      sets have no specified iteration order; where the code iterates
      over one, the model iterates in the order of [map_to_list] or
      [elements].
    - Python exceptions are the constructors of [exn]; code that may
      raise returns a [res], code that also prints threads the printed
      lines through the monad [M]. *)

From stdpp Require Import base gmap sets list strings pretty sorting.
From Stdlib Require Import Ascii String ZArith.

Open Scope string_scope.

(* ------------------------------------------------------------------ *)
(** ** Exceptions, results and the printing/error monad *)

Inductive exn : Type :=
  | ImportError (msg : string)   (* pype9.exceptions.Pype9ImportError *)
  | AssertionError
  | KeyError
  | ValueError
  | NotImplementedError
  | StopIteration
  | OtherError (name : string).  (* IndexError, NameError, ... *)

Inductive res (A : Type) : Type :=
  | Ok (a : A)
  | Err (e : exn).
Arguments Ok {A} a.
Arguments Err {A} e.

Definition is_import_error (e : exn) : bool :=
  match e with ImportError _ => true | _ => false end.

(** Code that prints diagnostics (Python 2 [print]) and may raise: the
    printed lines are kept when an exception escapes. *)
Definition M (A : Type) : Type := list string -> res A * list string.

Definition mret {A} (a : A) : M A := fun out => (Ok a, out).
Definition mraise {A} (e : exn) : M A := fun out => (Err e, out).
Definition mprint (s : string) : M unit := fun out => (Ok tt, (out ++ [s])%list).
Definition mbind {A B} (m : M A) (k : A -> M B) : M B :=
  fun out => match m out with
             | (Ok a, out') => k a out'
             | (Err e, out') => (Err e, out')
             end.
Definition mlift {A} (r : res A) : M A :=
  fun out => match r with Ok a => (Ok a, out) | Err e => (Err e, out) end.

Notation "'let*' x := m 'in' k" := (mbind m (fun x => k))
  (at level 200, x name, m at level 100, k at level 200).

(* ------------------------------------------------------------------ *)
(** ** Characters and small string helpers *)

(** Python 2 [re] on byte strings: [\w] is [[a-zA-Z0-9_]], [\d] is [[0-9]]. *)
Definition is_digit (c : ascii) : bool :=
  let n := nat_of_ascii c in (48 <=? n)%nat && (n <=? 57)%nat.
Definition is_alpha (c : ascii) : bool :=
  let n := nat_of_ascii c in
  ((65 <=? n)%nat && (n <=? 90)%nat) || ((97 <=? n)%nat && (n <=? 122)%nat).
Definition is_word (c : ascii) : bool :=
  is_digit c || is_alpha c || (nat_of_ascii c =? 95)%nat.

(** Longest prefix whose characters satisfy [p], and the rest. *)
Fixpoint span (p : ascii -> bool) (s : string) : string * string :=
  match s with
  | EmptyString => (EmptyString, EmptyString)
  | String c s' =>
      if p c then let (a, b) := span p s' in (String c a, b)
      else (EmptyString, s)
  end.

Definition is_empty (s : string) : bool :=
  match s with EmptyString => true | _ => false end.

(** [str.startswith(pre)] *)
Fixpoint starts_with (pre s : string) : bool :=
  match pre, s with
  | EmptyString, _ => true
  | String c pre', String d s' => Ascii.eqb c d && starts_with pre' s'
  | String _ _, EmptyString => false
  end.

(** [c in s] for a character *)
Fixpoint has_char (c : ascii) (s : string) : bool :=
  match s with
  | EmptyString => false
  | String d s' => Ascii.eqb c d || has_char c s'
  end.

(* ------------------------------------------------------------------ *)
(** ** [getitem_re.sub(r'\1__elem\2', line)]

    [getitem_re = re.compile(r'(\w+)\[(\d+)\]')].  At a given position
    the pattern matches iff a run of word characters starts there, is
    followed by ['['], one or more digits and [']'] (the greedy [\w+] and
    [\d+] never need to backtrack, since ['['] and [']'] are not word
    characters).  [re.sub] tries the positions left to right and
    resumes after each match. *)

Definition try_getitem (s : string) : option (string * string * string) :=
  let (w, r1) := span is_word s in
  if is_empty w then None else
  match r1 with
  | String "[" r2 =>
      let (d, r3) := span is_digit r2 in
      if is_empty d then None else
      match r3 with
      | String "]" r4 => Some (w, d, r4)
      | _ => None
      end
  | _ => None
  end.

(** The first character of [s] is a word character. *)
Definition starts_with_word (s : string) : bool :=
  match s with EmptyString => false | String c _ => is_word c end.

Fixpoint getitem_sub_fuel (fuel : nat) (s : string) : string :=
  match fuel with
  | O => s
  | S fuel' =>
      match try_getitem s with
      | Some (w, d, r) => w +:+ "__elem" +:+ d +:+ getitem_sub_fuel fuel' r
      | None =>
          match s with
          | EmptyString => EmptyString
          | String c s' => String c (getitem_sub_fuel fuel' s')
          end
      end
  end.

Definition getitem_sub (line : string) : string :=
  getitem_sub_fuel (String.length line) line.

Example getitem_sub_ex1 : getitem_sub "y = x[3] + z[12]" = "y = x__elem3 + z__elem12".
Proof. reflexivity. Qed.

(* ------------------------------------------------------------------ *)
(** ** More string helpers: [strip], [replace], slicing *)

(** Characters removed by Python's [str.strip()]. *)
Definition is_ws (c : ascii) : bool :=
  let n := nat_of_ascii c in ((n =? 32) || ((9 <=? n) && (n <=? 13)))%nat.

Definition lstrip (s : string) : string := snd (span is_ws s).
Definition strip (s : string) : string :=
  string_of_list_ascii (rev (list_ascii_of_string
    (lstrip (string_of_list_ascii (rev (list_ascii_of_string (lstrip s))))))).

(** [s.replace(pat, by)] for a non-empty [pat]: all non-overlapping
    occurrences, left to right. *)
Fixpoint replace_fuel (fuel : nat) (pat by_ s : string) : string :=
  match fuel with
  | O => s
  | S f =>
      if String.prefix pat s then
        by_ +:+ replace_fuel f pat by_ (String.substring (String.length pat)
                                         (String.length s) s)
      else match s with
           | EmptyString => EmptyString
           | String c s' => String c (replace_fuel f pat by_ s')
           end
  end.
Definition py_replace (s pat by_ : string) : string :=
  if is_empty pat then s else replace_fuel (S (String.length s)) pat by_ s.

(** [s[:-k]] for [k > 0]. *)
Definition drop_last (k : nat) (s : string) : string :=
  String.substring 0 (String.length s - k) s.

(** [sep.join(l)] *)
Fixpoint py_join (sep : string) (l : list string) : string :=
  match l with
  | [] => ""
  | [x] => x
  | x :: l' => x +:+ sep +:+ py_join sep l'
  end.

(** [line.split()[-1]] (the line is never empty here). *)
Definition last_token (line : string) : string :=
  let fix go (cs : list ascii) (cur last : list ascii) : list ascii :=
    match cs with
    | [] => match cur with [] => last | _ => cur end
    | c :: cs' =>
        if is_ws c then go cs' [] (match cur with [] => last | _ => cur end)
        else go cs' (cur ++ [c])%list last
    end in
  string_of_list_ascii (go (list_ascii_of_string line) [] []).

(* ------------------------------------------------------------------ *)
(** ** [assign_re.split(line)]

    [assign_re = re.compile(r"(?<![\>\<]) *= *")]: a run of spaces, an
    ['='] and a run of spaces, where the character before the match is
    not ['<'] or ['>'].  A match never ends in ['<'] or ['>'], so after
    a match the look-behind is satisfied. *)

Definition is_space (c : ascii) : bool := Ascii.eqb c " ".

Definition try_assign (prev : option ascii) (s : string) : option string :=
  match prev with
  | Some "<"%char | Some ">"%char => None
  | _ =>
      match snd (span is_space s) with
      | String "=" r => Some (snd (span is_space r))
      | _ => None
      end
  end.

Fixpoint assign_split_fuel (fuel : nat) (prev : option ascii) (s cur : string)
  : list string :=
  match fuel with
  | O => [cur +:+ s]
  | S f =>
      match try_assign prev s with
      | Some r => cur :: assign_split_fuel f (Some "="%char) r ""
      | None =>
          match s with
          | EmptyString => [cur]
          | String c s' => assign_split_fuel f (Some c) s' (cur +:+ String c "")
          end
      end
  end.

Definition assign_split (line : string) : list string :=
  assign_split_fuel (S (String.length line)) None line "".

Example assign_split_ex1 : assign_split "x = x + 1" = ["x"; "x + 1"].
Proof. reflexivity. Qed.
Example assign_split_ex2 : assign_split "if (a <= b) {" = ["if (a <= b) {"].
Proof. reflexivity. Qed.

(* ------------------------------------------------------------------ *)
(** ** [_subs_variable(old, new, expr)] on a string expression

    [re.sub(r'\b(old)\b', new, expr)], after wrapping [new] in
    parentheses when it contains a non-word character
    ([notword_re.search(new)]).  [\b] holds between two characters of
    which exactly one is a word character (the ends of the string count
    as non-word).  The names substituted by the code are non-empty and
    contain no backslash, so the replacement is taken literally.  The
    update of [self.dimensions] done by the method is not modelled. *)

Definition word_at_head (s : string) : bool :=
  match s with String c _ => is_word c | EmptyString => false end.
Definition word_opt (o : option ascii) : bool :=
  match o with Some c => is_word c | None => false end.
Definition boundary (prev : option ascii) (s : string) : bool :=
  xorb (word_opt prev) (word_at_head s).

Definition last_char (s : string) : option ascii :=
  String.get (String.length s - 1) s.

Fixpoint subs_fuel (fuel : nat) (old new : string) (prev : option ascii)
  (s : string) : string :=
  match fuel with
  | O => s
  | S f =>
      let rest := String.substring (String.length old) (String.length s) s in
      if boundary prev s && String.prefix old s
         && boundary (last_char old) rest
      then new +:+ subs_fuel f old new (last_char old) rest
      else match s with
           | EmptyString => EmptyString
           | String c s' => String c (subs_fuel f old new (Some c) s')
           end
  end.

Definition has_notword (s : string) : bool :=
  existsb (fun c => negb (is_word c)) (list_ascii_of_string s).

Definition subs_variable (old new expr : string) : string :=
  let new' := if has_notword new then "(" +:+ new +:+ ")" else new in
  if is_empty old then expr
  else subs_fuel (S (String.length expr)) old new' None expr.

Example subs_variable_ex1 :
  subs_variable "x" "x__tmp" "x + xx*x" = "x__tmp + xx*x__tmp".
Proof. reflexivity. Qed.

(* ------------------------------------------------------------------ *)
(** ** Procedure calls: the [re.match] of a name, spaces, an opening
    parenthesis, any text and a closing parenthesis (the pattern of
    line 1176 of the source), and [_split_args] *)

(** Position of the last [')'] of a list of characters. *)
Fixpoint last_rparen (cs : list ascii) (i : nat) (found : option nat)
  : option nat :=
  match cs with
  | [] => found
  | c :: cs' => last_rparen cs' (S i) (if Ascii.eqb c ")" then Some i else found)
  end.

(** The name (group 1) and the text between the first ['('] after it
    and the last [')'] of the line (group 2, greedy [.*]). *)
Definition proc_match (line : string) : option (string * string) :=
  let (name, r1) := span is_word line in
  if is_empty name then None else
  match snd (span is_space r1) with
  | String "(" r2 =>
      match last_rparen (list_ascii_of_string r2) 0 None with
      | Some k => Some (name, String.substring 0 k r2)
      | None => None
      end
  | _ => None
  end.

(** [_split_args(arglist)[0]]: split on the commas of depth 1, stopping
    at the [')'] that closes depth 1. *)
Fixpoint split_args_go (cs : list ascii) (depth : nat) (cur : list ascii)
  (acc : list string) : list string :=
  match cs with
  | [] => let a := strip (string_of_list_ascii cur) in
          if is_empty a then acc else (acc ++ [a])%list
  | c :: cs' =>
      if Ascii.eqb c "(" then split_args_go cs' (S depth) (cur ++ [c])%list acc
      else if Ascii.eqb c ")" then
        if (depth =? 1)%nat then
          let a := strip (string_of_list_ascii cur) in
          if is_empty a then acc else (acc ++ [a])%list
        else split_args_go cs' (depth - 1) (cur ++ [c])%list acc
      else if Ascii.eqb c "," && (depth =? 1)%nat then
        split_args_go cs' depth [] (acc ++ [strip (string_of_list_ascii cur)])%list
      else split_args_go cs' depth (cur ++ [c])%list acc
  end.

Definition split_args (arglist : string) : list string :=
  split_args_go (list_ascii_of_string arglist) 1 [] [].

Example split_args_ex : split_args "5, f(a, b)" = ["5"; "f(a, b)"].
Proof. reflexivity. Qed.

(* ------------------------------------------------------------------ *)
(** ** Values of the statement map

    [_extract_stmts_block] returns a dict whose values are an expression
    string, a piecewise list of [(expr, test)] tuples (built by the
    conditional blocks), or the argument list of a built-in procedure
    ([net_send], [net_event], [WATCH]), a list of strings. *)

Inductive sval : Type :=
  | SExpr (e : string)
  | SPieces (ps : list (string * string))
  | SArgs (args : list string).

Abbreviation stmts := (gmap string sval).

(** [for expr, test in r] over a Python list: tuples unpack; a string
    unpacks into its characters, which only succeeds for strings of
    length two. *)
Definition unpack_str (s : string) : res (string * string) :=
  match s with
  | String a (String b EmptyString) => Ok (String a "", String b "")
  | _ => Err ValueError
  end.

Fixpoint unpack_args (l : list string) : res (list (string * string)) :=
  match l with
  | [] => Ok []
  | a :: l' =>
      match unpack_str a, unpack_args l' with
      | Ok p, Ok ps => Ok (p :: ps)
      | Err e, _ => Err e
      | _, Err e => Err e
      end
  end.

(** The body of the renaming loop of [_extract_assignment] for one
    previously recorded right-hand side. *)
Definition rename_in_value (old new : string) (r : sval) : res sval :=
  let sub_pair := fun '(e, t) => (subs_variable old new e, subs_variable old new t) in
  match r with
  | SExpr e => Ok (SExpr (subs_variable old new e))
  | SPieces ps => Ok (SPieces (map sub_pair ps))
  | SArgs args =>
      match unpack_args args with
      | Ok ps => Ok (SPieces (map sub_pair ps))
      | Err e => Err e
      end
  end.

(** Rebuilding every value of a dict in a loop whose body may raise. *)
Definition map_traverse (f : string -> sval -> res sval) (st : stmts) : res stmts :=
  map_fold (fun l r acc =>
              match acc, f l r with
              | Ok m, Ok r' => Ok (<[l := r']> m)
              | Err e, _ => Err e
              | _, Err e => Err e
              end) (Ok st) st.

(** [for l, r in statements.iteritems(): statements[l] = ...] *)
Definition rename_all (old new : string) (st : stmts) : res stmts :=
  map_traverse (fun _ r => rename_in_value old new r) st.

(** The temporary name: [lhs__tmp], then [lhs__tmp1], [lhs__tmp2], ...,
    the first one not in the map (found among the first [size st + 1]
    candidates). *)
Definition tmp_candidate (base : string) (count : nat) : string :=
  match count with
  | O => base +:+ "__tmp"
  | _ => base +:+ "__tmp" +:+ pretty count
  end.

Fixpoint fresh_tmp_go (fuel count : nat) (base : string) (st : stmts) : string :=
  match fuel with
  | O => tmp_candidate base count
  | S f =>
      if decide (is_Some (st !! tmp_candidate base count))
      then fresh_tmp_go f (S count) base st
      else tmp_candidate base count
  end.

Definition fresh_tmp (base : string) (st : stmts) : string :=
  fresh_tmp_go (S (size st)) 0 base st.

Example fresh_tmp_ex :
  fresh_tmp "x" (<["x__tmp" := SExpr "1"]> (<["x" := SExpr "2"]> ∅)) = "x__tmp1".
Proof. reflexivity. Qed.

(* ------------------------------------------------------------------ *)
(** ** [_iterate_block(block)] (lines 1676-1681) *)

(** [s.split(':')[0]] *)
Definition before_colon (s : string) : string :=
  fst (span (fun c => negb (Ascii.eqb c ":")) s).

(** [s.replace('\t', ' ')]: a one-character pattern and replacement. *)
Definition tab_to_space (s : string) : string :=
  string_of_list_ascii
    (map (fun c => if Ascii.eqb c "009"%char then " "%char else c) (list_ascii_of_string s)).

Definition iterate_block (block : list string) : list string :=
  List.filter (fun l => negb (is_empty l))
              (map (fun line => tab_to_space (before_colon (strip line))) block).

(* ------------------------------------------------------------------ *)
(** ** Python 2 [repr] of a [str] and [str] of a list of [str]

    [PyString_Repr]: the quote is the single quote unless the string
    contains a single quote and no double quote (character 34); the quote and the backslash are escaped with a backslash, tab,
    newline and carriage return are written [\t], [\n], [\r], and the
    other characters below 32 or from 127 on as [\x] and two lowercase
    hexadecimal digits. *)

Definition nl : string := String "010"%char EmptyString.

Definition hex_digit (n : nat) : ascii :=
  ascii_of_nat (if (n <? 10)%nat then 48 + n else 87 + n).

Definition py_repr_char (q c : ascii) : string :=
  let n := nat_of_ascii c in
  if Ascii.eqb c q || Ascii.eqb c "\"%char then String "\"%char (String c EmptyString)
  else if Ascii.eqb c "009"%char then "\t"
  else if Ascii.eqb c "010"%char then "\n"
  else if Ascii.eqb c "013"%char then "\r"
  else if (n <? 32)%nat || (127 <=? n)%nat then
    String "\"%char (String "x"%char (String (hex_digit (n / 16))
                                       (String (hex_digit (n mod 16)) EmptyString)))
  else String c EmptyString.

Definition py_repr (s : string) : string :=
  let q := if has_char "'" s && negb (has_char "034" s) then "034"%char else "'"%char in
  String q (py_join "" (map (py_repr_char q) (list_ascii_of_string s))
            +:+ String q EmptyString).

(** [str(block)] for a list of [str]: [PyList_Repr]. *)
Definition py_str_list (l : list string) : string :=
  "[" +:+ py_join ", " (map py_repr l) +:+ "]".

(* ------------------------------------------------------------------ *)
(** ** VERBATIM segments in [NMODLImporter.__init__] (lines 127-132) *)

(** [verbatim_re.split(s)], [verbatim_re = (?:VERBATIM|ENDVERBATIM)]: the
    text is scanned from the left, trying [VERBATIM] and then
    [ENDVERBATIM] at each position; [skip] counts the characters of a
    match still to be dropped. *)
Fixpoint verbatim_split_go (skip : nat) (s : string) : list string :=
  match s with
  | EmptyString => [EmptyString]
  | String c r =>
      match skip with
      | S k => verbatim_split_go k r
      | O =>
          if starts_with "VERBATIM" s then EmptyString :: verbatim_split_go 7 r
          else if starts_with "ENDVERBATIM" s then EmptyString :: verbatim_split_go 10 r
          else match verbatim_split_go 0 r with
               | [] => [String c EmptyString]
               | p :: ps => String c p :: ps
               end
      end
  end.

Definition verbatim_split (s : string) : list string := verbatim_split_go 0 s.

(** [l[::2]] *)
Fixpoint py_every_other {A} (l : list A) : list A :=
  match l with
  | [] => []
  | x :: l' => x :: match l' with [] => [] | _ :: l'' => py_every_other l'' end
  end.

(** The diagnostic printed for a file with VERBATIM segments. *)
Definition verbatim_warning (fname : string) : string :=
  "'" +:+ fname +:+ "' contains VERBATIM segments, which have been ignored:".

(** Lines 127-132, on the text [contents] left once the COMMENT segments
    are removed: the new [self.contents]. *)
Definition remove_verbatim (fname contents : string) : M string :=
  let content_parts := verbatim_split contents in
  let* _ := if (1 <? List.length content_parts)%nat
            then mprint (verbatim_warning fname) else mret tt in
  mret (py_join "" (py_every_other content_parts)).

(* ------------------------------------------------------------------ *)
(** ** The statement flattener: [_extract_assignment] and
    [_extract_stmts_block]

    The parts of the flattener that no claim below reads are parameters
    of the section: [is_builtin_symbol] (from nineml), the list
    [self.used_units], the expansion of calls to user FUNCTIONs inside
    an expression ([_extract_function_calls] when a call is present),
    the TABLE-statement pattern, the [if] statements (handled by
    [_extract_conditional_block] / [_extract_transition_block], whose
    piecewise post-processing is modelled further below) and the calls
    of user PROCEDUREs, functions and [state_discontinuity].  The
    theorems hold for every behaviour of these parameters. *)

Section Flattener.

Variable is_builtin_symbol : string -> bool.
Variable used_units : list string.
(** [_extract_function_calls(expr, statements)] on an expression that
    contains a call: the new expression, and the statement map after the
    function bodies have been added. *)
Variable user_function_calls : string -> stmts -> M (string * stmts).
Variable table_complete : string -> bool.
(** an [if] line: [(line, remaining lines, statements, subs)] to the
    line returned by the handler, the remaining lines, statements, subs *)
Variable if_block :
  string -> list string -> stmts -> gmap string string -> string ->
  M (string * list string * stmts * gmap string string).
(** a call of a user procedure, a bare call of a user function or a
    [state_discontinuity] line *)
Variable other_call :
  string -> string -> string -> list string -> stmts -> gmap string string ->
  string -> M (option (string * list string) * stmts * gmap string string).

(** [_extract_function_calls]: the regular expression used there needs
    an opening parenthesis, so an expression without one is returned
    unchanged. *)
Definition extract_function_calls (expr : string) (st : stmts)
  : M (string * stmts) :=
  if has_char "(" expr then user_function_calls expr st else mret (expr, st).

(** [for units in self.used_units: rhs = rhs.replace('({})'.format(units), '')] *)
Definition strip_units (rhs : string) : string :=
  fold_left (fun r u => py_replace r ("(" +:+ u +:+ ")") "") used_units rhs.

(** [_extract_assignment(line, statements, subs, suffix)]: returns the
    updated [statements] and [subs] (both are mutated in place by the
    method). *)
Definition extract_assignment (line : string) (st : stmts)
  (subs : gmap string string) (suffix : string)
  : M (stmts * gmap string string) :=
  match assign_split line with
  | [lhs; rhs0] =>
      let rhs1 := fold_left (fun r '(old, new) => subs_variable old new r)
                            (map_to_list subs) rhs0 in
      let* p := extract_function_calls rhs1 st in
      let '(rhs2, st1) := p in
      let lw0 := lhs +:+ suffix in
      let lw := if is_builtin_symbol lw0 then lw0 +:+ "_" else lw0 in
      let subs1 := if is_empty suffix then subs else <[lhs := lw]> subs in
      let* q :=
        match st1 !! lw with
        | Some prev =>
            let tmp := fresh_tmp lw st1 in
            let st2 := <[tmp := prev]> st1 in
            let rhs3 := subs_variable lw tmp rhs2 in
            let* st3 := mlift (rename_all lw tmp st2) in
            mret (rhs3, st3)
        | None => mret (rhs2, st1)
        end in
      let '(rhs3, st3) := q in
      mret (<[lw := SExpr (strip_units rhs3)]> st3, subs1)
  | _ => mraise ValueError
  end.

(** The statement recorded for a built-in procedure call (lines
    1207-1214): the argument list, extended by the WATCH flag or by the
    trigger condition ['True']. *)
Definition inbuilt_proc (line proc_name arglist : string) : string * sval :=
  let args := (split_args arglist ++
               [if String.eqb proc_name "WATCH" then last_token line else "True"])%list in
  ("__INBUILT_PROC_" +:+ proc_name +:+ "_" +:+ py_join "_" args, SArgs args).

Definition is_inbuilt_proc (name : string) : bool :=
  String.eqb name "net_send" || String.eqb name "net_event" || String.eqb name "WATCH".

(** [line = next(line_iter)] with [StopIteration] turned into ['']. *)
Definition next_or_empty (rest : list string) : string * list string :=
  match rest with
  | [] => ("", [])
  | l :: rest' => (l, rest')
  end.

(** The TABLE statement: lines are joined until the statement is
    complete; running out of lines raises. *)
Fixpoint table_join (line : string) (rest : list string)
  : res (string * list string) :=
  if table_complete line then Ok (line, rest) else
  match rest with
  | [] => Err (ImportError "EOF while parsing table statement")
  | l :: rest' => table_join (line +:+ " " +:+ l) rest'
  end.

(** One pass of the [while line:] loop of [_extract_stmts_block], on
    the current line [line] and the lines [rest] still in the
    iterator.  [fuel] bounds the number of iterations; every iteration
    consumes a line. *)
Fixpoint stmts_loop (block : list string) (fuel : nat) (line : string) (rest : list string)
  (st : stmts) (subs : gmap string string) (suffix : string) : M stmts :=
  match fuel with
  | O => mret st
  | S f =>
  if is_empty line then mret st else
  if starts_with "TABLE" line then
    let* p := mlift (table_join line rest) in
    match snd p with
    | [] => mraise StopIteration
    | l :: rest' => stmts_loop block f l rest' st subs suffix
    end
  else if starts_with "LOCAL" line || String.eqb line "UNITSON"
          || String.eqb line "UNITSOFF" then
    match rest with
    | [] => if starts_with "LOCAL" line
            then mraise (ImportError "LOCAL statements need to appear at the start of the statement block")
            else mret st
    | l :: rest' => stmts_loop block f l rest' st subs suffix
    end
  else if starts_with "VERBATIM" line then
    mraise (ImportError ("Cannot parse VERBATIM block:" +:+ nl +:+ nl +:+ py_str_list block))
  else if starts_with "printf" line then
    let (l, rest') := next_or_empty rest in stmts_loop block f l rest' st subs suffix
  else
    let line1 := getitem_sub line in
    let parts := assign_split line1 in
    if ((List.length parts =? 1)%nat || has_char "{" line1) then
      match proc_match line1 with
      | None => mraise (ImportError ("Unrecognised statement on line '" +:+ line1 +:+ "'"))
      | Some (name, arglist) =>
          if String.eqb name "if" then
            let* r := if_block line1 rest st subs suffix in
            let '(l, rest', st', subs') := r in
            stmts_loop block f l rest' st' subs' suffix
          else if String.eqb name "for" || String.eqb name "while" then
            mraise (ImportError ("Cannot represent '" +:+ name +:+ "' statements in 9ML"))
          else if is_inbuilt_proc name then
            let (k, v) := inbuilt_proc line1 name arglist in
            let subs' := if is_empty suffix then subs
                         else <[drop_last (String.length suffix) k := k]> subs in
            let (l, rest') := next_or_empty rest in
            stmts_loop block f l rest' (<[k := v]> st) subs' suffix
          else
            let* r := other_call line1 name arglist rest st subs suffix in
            let '(jump, st', subs') := r in
            match jump with
            | Some (l, rest') => stmts_loop block f l rest' st' subs' suffix
            | None => let (l, rest') := next_or_empty rest in
                      stmts_loop block f l rest' st' subs' suffix
            end
      end
    else if (List.length parts =? 2)%nat then
      let* r := extract_assignment line1 st subs suffix in
      let (l, rest') := next_or_empty rest in
      stmts_loop block f l rest' (fst r) (snd r) suffix
    else
      mraise (ImportError ("More than one '=' found on line '" +:+ line1 +:+ "'"))
  end.

(** [_extract_stmts_block(block, subs, suffix)]: the loop runs on the
    lines produced by [_iterate_block(block)]. *)
Definition extract_stmts_block (block : list string)
  (subs : gmap string string) (suffix : string) : M stmts :=
  let lines := iterate_block block in
  match lines with
  | [] => mret ∅
  | l :: rest => stmts_loop block (S (List.length lines)) l rest ∅ subs suffix
  end.

End Flattener.

(* ------------------------------------------------------------------ *)
(** ** Conditional blocks: [_unwrap_piecewise_stmt], the piecewise
    post-processing of [_extract_conditional_block] and [_get_piecewise]

    [_extract_conditional_block] first reads the sub-blocks of an
    [if / else if / else] statement into [conditional_stmts], the list of
    [(test, stmts)] pairs (the test of an [else] branch is ['True']), and
    then (lines 1372-1482) merges them into the enclosing statement map.
    [finish_conditional] models that second part, from
    [conditional_stmts]. *)

(** [s[:-k]] in Python, also for [k = 0] (where it is the empty string). *)
Definition py_upto_neg (k : nat) (s : string) : string :=
  match k with O => "" | _ => drop_last k s end.

(** [_unwrap_piecewise_stmt(stmt, test, pieces)]: the pieces appended. *)
Definition unwrap_piecewise_stmt (stmt : sval) (test : string)
  : res (list (string * string)) :=
  let comb := fun '(s, t) =>
    (s, if String.eqb t "True" then test else "(" +:+ test +:+ ") & (" +:+ t +:+ ")") in
  match stmt with
  | SExpr e => Ok [(e, test)]
  | SPieces ps => Ok (map comb ps)
  | SArgs args =>
      match unpack_args args with
      | Ok ps => Ok (map comb ps)
      | Err e => Err e
      end
  end.

(** The test of lines 1396 and 1410: [lhs.startswith('__INBUILT_PROC_')]. *)
Definition is_inbuilt_key (k : string) : bool := starts_with "__INBUILT_PROC_" k.

(** The test of line 1424, without the final underscore:
    [lhs.startswith('__INBUILT_PROC')]. *)
Definition is_inbuilt_common_key (k : string) : bool := starts_with "__INBUILT_PROC" k.

(** [stmts[sa] = statements.pop(sa, sa)] for the state assignments a
    branch misses. *)
Definition fill_state_assigns (sas : list string) (sti st : stmts) : stmts * stmts :=
  fold_left (fun '(sti, st) sa =>
               match sti !! sa with
               | Some _ => (sti, st)
               | None => (<[sa := default (SExpr sa) (st !! sa)]> sti, delete sa st)
               end) sas (sti, st).

(** [stmts[lhs][-1] = (rhs[-1] + ' & ' + test) if rhs else test] for the
    built-in procedure calls of a branch. *)
Definition tag_inbuilt (test : string) (sti : stmts) : res stmts :=
  map_traverse (fun lhs rhs =>
    if is_inbuilt_key lhs then
      match rhs with
      | SArgs args =>
          match rev args with
          | [] => Err (OtherError "IndexError")
          | a :: ra => Ok (SArgs (rev ((a +:+ " & " +:+ test) :: ra)))
          end
      | _ => Err (OtherError "TypeError")
      end
    else Ok rhs) sti.

(** The new name of a statement local to branch [i]. *)
Definition branch_name (suffix lhs : string) (i : nat) : string :=
  (if is_empty suffix then lhs else drop_last (String.length suffix) lhs)
    +:+ "__branch" +:+ pretty i +:+ suffix.

(** Substituting [old] by [new] in the branch and moving the entry. *)
Definition apply_branch_sub (sti : stmts) (on : string * string) : res stmts :=
  let (old, new) := on in
  let sti1 := map_imap (fun lhs rhs =>
                 Some (if is_inbuilt_key lhs then rhs else
                       match rhs with
                       | SExpr e => SExpr (subs_variable old new e)
                       | _ => rhs
                       end)) sti in
  match sti1 !! old with
  | Some v => Ok (<[new := v]> (delete old sti1))
  | None => Err KeyError
  end.

(** One iteration of the loop of lines 1386-1420 on branch [i]: the
    processed branch and the enclosing statement map. *)
Definition process_branch (common sas : list string) (suffix : string) (i : nat)
  (test : string) (sti st : stmts) : res (stmts * stmts) :=
  let '(sti1, st1) := fill_state_assigns sas sti st in
  match tag_inbuilt test sti1 with
  | Err e => Err e
  | Ok sti2 =>
      let bsubs : gmap string string :=
        list_to_map (map (fun lhs => (lhs, branch_name suffix lhs i))
                         (filter (fun lhs => lhs ∉ common) (map fst (map_to_list sti2)))) in
      let fix go (l : list (string * string)) (sti : stmts) : res stmts :=
        match l with
        | [] => Ok sti
        | on :: l' => match apply_branch_sub sti on with
                      | Ok sti' => go l' sti'
                      | Err e => Err e
                      end
        end in
      match go (map_to_list bsubs) sti2 with
      | Err e => Err e
      | Ok sti3 =>
          let st2 := fold_left (fun st new =>
                        match sti3 !! new with
                        | Some v => <[new := v]> st
                        | None => st
                        end) (map snd (map_to_list bsubs)) st1 in
          Ok (sti3, st2)
      end
  end.

Fixpoint process_branches (common sas : list string) (suffix : string) (i : nat)
  (cs : list (string * stmts)) (st : stmts) : res (list (string * stmts) * stmts) :=
  match cs with
  | [] => Ok ([], st)
  | (test, sti) :: cs' =>
      match process_branch common sas suffix i test sti st with
      | Err e => Err e
      | Ok (sti', st1) =>
          match process_branches common sas suffix (S i) cs' st1 with
          | Err e => Err e
          | Ok (cs'', st2) => Ok ((test, sti') :: cs'', st2)
          end
      end
  end.

(** The pieces contributed by all branches for [lhs] (line 1434). *)
Fixpoint branch_pieces (lhs : string) (cs : list (string * stmts))
  : res (list (string * string)) :=
  match cs with
  | [] => Ok []
  | (test, sti) :: cs' =>
      match sti !! lhs with
      | None => Err KeyError
      | Some v =>
          match unwrap_piecewise_stmt v test, branch_pieces lhs cs' with
          | Ok p, Ok ps => Ok (p ++ ps)%list
          | Err e, _ => Err e
          | _, Err e => Err e
          end
      end
  end.

(** The copies of a built-in procedure call, one per branch (line 1430). *)
Fixpoint inbuilt_copies (lhs : string) (i : nat) (cs : list (string * stmts))
  (st : stmts) : res stmts :=
  match cs with
  | [] => Ok st
  | (test, sti) :: cs' =>
      match sti !! lhs with
      | Some (SArgs args) =>
          match rev args with
          | [] => Err (OtherError "IndexError")
          | a :: ra =>
              let args' := rev ((a +:+ "(" +:+ a +:+ ") & (" +:+ test +:+ ")") :: ra) in
              inbuilt_copies lhs (S i) cs' (<[lhs +:+ "branch_" +:+ pretty i := SArgs args']> st)
          end
      | Some _ => Err (OtherError "TypeError")
      | None => Err KeyError
      end
  end.

(** The loop of lines 1423-1477 over the common left-hand sides.
    [no_otherwise] is [test != 'True'] for the last branch, [ncs] the
    number of branches and [last_sti] the statements of the last branch
    (the variable [stmts] left over from the preceding loop). *)
Fixpoint common_loop (no_otherwise : bool) (ncs : nat) (last_sti : stmts)
  (props dims : gset string) (suffix : string) (cs : list (string * stmts))
  (lhss : list string) (st : stmts) (subs : gmap string string)
  (svars : gset string) : M (stmts * gmap string string * gset string) :=
  match lhss with
  | [] => mret (st, subs, svars)
  | lhs :: lhss' =>
      let continue := common_loop no_otherwise ncs last_sti props dims suffix cs lhss' in
      if is_inbuilt_common_key lhs then
        let* st' := mlift (inbuilt_copies lhs 0 cs st) in continue st' subs svars
      else
        let* pieces := mlift (branch_pieces lhs cs) in
        if no_otherwise then
          match st !! lhs with
          | Some r =>
              let* p := mlift (unwrap_piecewise_stmt r "True") in
              continue (<[lhs := SPieces (pieces ++ p)%list]> st) subs svars
          | None =>
              if decide (lhs ∈ props) then
                let new_lhs := lhs +:+ "_constrained" in
                continue (<[new_lhs := SPieces (pieces ++ [(lhs, "True")])%list]> st)
                         (<[lhs := new_lhs]> subs) svars
              else if decide (lhs ∈ svars) then
                continue (<[lhs := SPieces (pieces ++ [(lhs, "True")])%list]> st) subs svars
              else
                match subs !! (py_upto_neg (String.length suffix) lhs +:+ "_arg_") with
                | Some v =>
                    continue (<[lhs := SPieces (pieces ++ [(v, "True")])%list]> st) subs svars
                | None =>
                    let msg := "Could not find previous definition of '" +:+ lhs +:+
                               "' to form otherwise condition of conditional block" in
                    let* _ := mprint ("WARNING! " +:+ msg +:+ ", assuming it is state variable") in
                    if decide (lhs ∈ dims) then
                      continue (<[lhs := SPieces (pieces ++ [(lhs, "True")])%list]> st)
                               subs ({[lhs]} ∪ svars)
                    else if (ncs =? 1)%nat then
                      let* _ := mprint ("WARNING! " +:+ msg +:+
                                  ", assuming it is not required outside of the current branch") in
                      match last_sti !! lhs with
                      | Some v => continue (<[lhs := v]> st) subs svars
                      | None => mraise KeyError
                      end
                    else mraise (ImportError msg)
                end
          end
        else
          if decide (is_Some (st !! lhs)) then mraise AssertionError
          else continue (<[lhs := SPieces pieces]> st) subs svars
  end.

(** Lines 1372-1482 of [_extract_conditional_block]: from
    [conditional_stmts], the enclosing statement map [st], [subs],
    the state variables [svars], the names of [self.properties] and of
    [self.dimensions], to the new statement map, [subs] and state
    variables. *)
Definition finish_conditional (cs : list (string * stmts)) (st : stmts)
  (subs : gmap string string) (svars props dims : gset string) (suffix : string)
  : M (stmts * gmap string string * gset string) :=
  match cs with
  | [] => mraise (OtherError "NameError")
  | (_, sti0) :: cs_tail =>
      let last_test := fst (List.last cs ("", ∅)) in
      let no_otherwise := negb (String.eqb last_test "True") in
      let common0 : gset string :=
        fold_left (fun acc '(_, sti) => acc ∩ dom sti) cs_tail (dom sti0) in
      let all_lhss : gset string :=
        fold_left (fun acc '(_, sti) => acc ∪ dom sti) cs ∅ in
      let sas : gset string := filter (fun v => v ∈ svars) all_lhss in
      let common := common0 ∪ sas in
      let* r := mlift (process_branches (elements common) (elements sas) suffix 0 cs st) in
      let '(cs', st1) := r in
      let last_sti := snd (List.last cs' ("", ∅)) in
      let* q := common_loop no_otherwise (List.length cs) last_sti props dims suffix cs'
                  (elements common) st1 subs svars in
      let '(st2, subs2, svars2) := q in
      let subs3 := if is_empty suffix then subs2 else
                   fold_left (fun sb lhs =>
                                <[py_upto_neg (String.length suffix) lhs := lhs]> sb)
                             (elements common) subs2 in
      mret (st2, subs3, svars2)
  end.

(** [_get_piecewise(lhs, rhs)]: the arguments given to [Piecewise].
    The guard of the otherwise piece is [sympify(True)]; the other
    expressions and tests go through nineml's parser, which is not
    modelled (they are kept as strings). *)
Inductive guard : Type :=
  | GTrue
  | GCond (test : string).

(** [_substitute_functions]: [fabs] is renamed [abs] where it is not
    preceded or followed by a word character. *)
Definition substitute_functions (s : string) : string :=
  subs_variable "fabs" "abs" s.

Fixpoint get_piecewise_go (rhs : list (string * string))
  (pieces : list (string * guard)) (otherwise : option (string * guard))
  : res (list (string * guard) * option (string * guard)) :=
  match rhs with
  | [] => Ok (pieces, otherwise)
  | (expr, test) :: rhs' =>
      let expr' := substitute_functions expr in
      if String.eqb test "True" then
        match otherwise with
        | Some _ => Err AssertionError   (* "Multiple otherwise statements" *)
        | None => get_piecewise_go rhs' pieces (Some (expr', GTrue))
        end
      else get_piecewise_go rhs' (pieces ++ [(expr', GCond (substitute_functions test))])%list
                            otherwise
  end.

Definition get_piecewise (lhs : string) (rhs : list (string * string))
  : res (string * list (string * guard)) :=
  match get_piecewise_go rhs [] None with
  | Err e => Err e
  | Ok (_, None) => Err AssertionError     (* "No otherwise statement found" *)
  | Ok (pieces, Some o) => Ok (lhs, pieces ++ [o])%list
  end.

(** A guard holds under [env], which gives the truth value of each test
    expression; the otherwise guard always holds. *)
Definition guard_holds (env : string -> bool) (g : guard) : bool :=
  match g with GTrue => true | GCond t => env t end.

(** The sub-blocks of [if (t1) {a = v1} else if ... else {a = vn}]: the
    branch [(t, v)] gives the entry [(t, {a: v})] of [conditional_stmts]
    (the test of the [else] branch is ['True']). *)
Definition single_branch (a : string) (b : string * string) : string * stmts :=
  (fst b, {[a := SExpr (snd b)]}).

(** The piece [(v, t)] contributed by the branch [(t, v)]. *)
Definition piece_of_branch (b : string * string) : string * string := (snd b, fst b).

(* ------------------------------------------------------------------ *)
(** ** A concrete choice of the flattener's parameters

    No symbol is built in and no units are declared; function calls are
    left as they are, every TABLE statement is complete, and [if] lines
    and user procedure calls are refused. *)

Definition ex_is_builtin_symbol (s : string) : bool := false.
Definition ex_used_units : list string := [].
Definition ex_function_calls (e : string) (st : stmts) : M (string * stmts) :=
  mret (e, st).
Definition ex_table_complete (s : string) : bool := true.
Definition ex_if_block (line : string) (rest : list string) (st : stmts)
  (subs : gmap string string) (suffix : string)
  : M (string * list string * stmts * gmap string string) :=
  mraise (ImportError "if").
Definition ex_other_call (line name args : string) (rest : list string)
  (st : stmts) (subs : gmap string string) (suffix : string)
  : M (option (string * list string) * stmts * gmap string string) :=
  mraise (ImportError ("Unrecognised procedure '" +:+ name +:+ "'")).

Definition ex_stmts_block (block : list string) : M stmts :=
  extract_stmts_block ex_is_builtin_symbol ex_used_units ex_function_calls
    ex_table_complete ex_if_block ex_other_call block ∅ "".

(* ------------------------------------------------------------------ *)
(** ** The constructor [NMODLImporter.__init__]

    [_read_blocks] leaves the top-level blocks in [self.blocks], keyed by
    block name.  Each extractor pops the keys of its block(s); a key popped
    without a default ([NEURON], [PARAMETER]) raises [KeyError] when it is
    absent ([pop] of a [defaultdict] does not use the default factory).
    What the extractors do with the popped blocks is a parameter: [work]
    for the ordinary stages; for BREAKPOINT and NET_RECEIVE the parsing
    part ([phase1]: the SOLVE lines and [_extract_stmts_block], which touch
    only members other than the aliases and the transitions) and the part
    that records the results are kept apart, since their import errors are
    caught.  The [print] of the warnings is not modelled. *)

Section Importer.

Context {B V A T R : Type}.

(** The members of the importer the claims are about, and the others. *)
Record members := mk_members {
  aliases : gmap string A;
  breakpoint_aliases : gmap string A;
  net_receives : gmap Z T;
  other : R
}.

Record importer := mk_importer {
  blocks : gmap string B;
  mems : members;
  warnings : list string;
  incomplete_import : bool
}.

(** The result of running code on a part [Y] of the object: the value it
    returns and the new [Y], or the exception it raised and [Y] as it was
    left at that point. *)
Inductive outcome (X Y : Type) : Type :=
  | Done (x : X) (y : Y)
  | Raised (e : exn) (y : Y).
Arguments Done {X Y}.
Arguments Raised {X Y}.

Context (work : string -> list (option B) -> members -> outcome unit members).
Context (phase1 : string -> option B -> R -> outcome (list (string * V)) R).
Context (get_alias : string -> V -> res A).
Context (nr_record : list (string * V) -> members -> outcome unit members).

Inductive stage : Type :=
  | Plain (name : string) (keys : list (string * bool))
  | Breakpoint
  | NetReceive.

(** [self.blocks.pop(k)] (required) or [self.blocks.pop(k, default)]. *)
Fixpoint pop_keys (keys : list (string * bool)) (bs : gmap string B)
  : res (list (option B) * gmap string B) :=
  match keys with
  | [] => Ok ([], bs)
  | (k, required) :: keys' =>
      if required && negb (bool_decide (is_Some (bs !! k))) then Err KeyError
      else match pop_keys keys' (delete k bs) with
           | Ok (vs, bs') => Ok (bs !! k :: vs, bs')
           | Err e => Err e
           end
  end.

Definition with_other (m : members) (r : R) : members :=
  mk_members (aliases m) (breakpoint_aliases m) (net_receives m) r.

(** [for lhs, rhs in stmts.iteritems(): alias = self._get_alias(lhs, rhs);
    self._breakpoint_aliases[lhs] = alias; self.aliases[lhs] = alias] *)
Fixpoint record_aliases (stmts : list (string * V)) (m : members)
  : outcome unit members :=
  match stmts with
  | [] => Done tt m
  | (lhs, rhs) :: stmts' =>
      match get_alias lhs rhs with
      | Err e => Raised e m
      | Ok a => record_aliases stmts'
                  (mk_members (<[lhs := a]> (aliases m))
                              (<[lhs := a]> (breakpoint_aliases m))
                              (net_receives m) (other m))
      end
  end.

Definition bp_warning (msg : string) : string :=
  "Could not import BREAKPOINT block (aliases will be omitted) set due to: " +:+ msg.
Definition nr_warning (msg : string) : string :=
  "Could not import NET_RECEIVE block (transitions will be omitted) due to: " +:+ msg.

(** [try: ... except Pype9ImportError, e: self.incomplete_import = True;
    self.warnings.append(warning)] around a stage whose pops are done. *)
Definition catch_import (warn : string -> string) (bs : gmap string B)
  (s : importer) (o : outcome unit members) : res importer :=
  match o with
  | Done _ m => Ok (mk_importer bs m (warnings s) (incomplete_import s))
  | Raised (ImportError msg) m =>
      Ok (mk_importer bs m (warnings s ++ [warn msg])%list true)
  | Raised e _ => Err e
  end.

Definition then_record (o : outcome (list (string * V)) R) (m : members)
  (k : list (string * V) -> members -> outcome unit members)
  : outcome unit members :=
  match o with
  | Done stmts r => k stmts (with_other m r)
  | Raised e r => Raised e (with_other m r)
  end.

Definition run_stage (st : stage) (s : importer) : res importer :=
  match st with
  | Plain name keys =>
      match pop_keys keys (blocks s) with
      | Err e => Err e
      | Ok (vs, bs) =>
          match work name vs (mems s) with
          | Done _ m => Ok (mk_importer bs m (warnings s) (incomplete_import s))
          | Raised e _ => Err e
          end
      end
  | Breakpoint =>
      let bs := delete "BREAKPOINT" (blocks s) in
      catch_import bp_warning bs s
        (then_record (phase1 "breakpoint" (blocks s !! "BREAKPOINT") (other (mems s)))
                     (mems s) record_aliases)
  | NetReceive =>
      let bs := delete "NET_RECEIVE" (blocks s) in
      match blocks s !! "NET_RECEIVE" with
      | None => Ok (mk_importer bs (mems s) (warnings s) (incomplete_import s))
      | Some b =>
          catch_import nr_warning bs s
            (then_record (phase1 "netreceive" (Some b) (other (mems s)))
                         (mems s) nr_record)
      end
  end.

Fixpoint run_stages (sts : list stage) (s : importer) : res importer :=
  match sts with
  | [] => Ok s
  | st :: sts' => match run_stage st s with
                  | Ok s' => run_stages sts' s'
                  | Err e => Err e
                  end
  end.

(** Lines 172-199: the extractors, in the order of the constructor. *)
Definition extraction_stages : list stage :=
  [Plain "defines" [];
   Plain "neuron" [("NEURON", true)];
   Plain "units" [("UNITS", false)];
   Plain "assigned" [("ASSIGNED", false)];
   Plain "procedure_and_function" [("FUNCTION", false); ("PROCEDURE", false)];
   Plain "parameter_and_constant" [("PARAMETER", true); ("CONSTANT", false)];
   Plain "initial" [("INITIAL", false)];
   Plain "state" [("STATE", false)];
   Plain "create_state_variables" [];
   Plain "linear" [("LINEAR", false)];
   Plain "kinetic" [("KINETIC", false)];
   Plain "derivative" [("DERIVATIVE", false)];
   Breakpoint;
   NetReceive;
   Plain "independent" [("INDEPENDENT", false)]].

(** Lines 203-216 ([_clean_init_parameters] decides itself whether it
    runs). *)
Definition creation_stages : list stage :=
  [Plain "create_parameters_and_analog_ports" [];
   Plain "create_regimes" [];
   Plain "add_reserved_variables" [];
   Plain "clean_init_parameters" []].

(** [assert not self.blocks] *)
Definition check_blocks (s : importer) : res importer :=
  if decide (blocks s = ∅) then Ok s else Err AssertionError.

Definition nmodl_init (bs : gmap string B) (m0 : members) : res importer :=
  match run_stages extraction_stages (mk_importer bs m0 [] false) with
  | Err e => Err e
  | Ok s => match check_blocks s with
            | Err e => Err e
            | Ok s' => run_stages creation_stages s'
            end
  end.

(** The block names some extractor pops. *)
Definition stage_keys (st : stage) : list string :=
  match st with
  | Plain _ keys => map fst keys
  | Breakpoint => ["BREAKPOINT"]
  | NetReceive => ["NET_RECEIVE"]
  end.

Definition popped_keys : list string := List.concat (map stage_keys extraction_stages).

End Importer.

Arguments Done {X Y} x y.
Arguments Raised {X Y} e y.

(* ------------------------------------------------------------------ *)
(** ** Transitions and regimes: the end of [_extract_netreceive_block]
    and [_create_regimes] *)

(** [NetReceive(target, delay, args, assignments, aliases, output_events)];
    the state assignments are kept as a map from the variable to its
    right-hand side, the aliases by name. *)
Record receive := mk_receive {
  nr_target : Z;
  nr_delay : option string;
  nr_args : list string;
  nr_assignments : gmap string string;
  nr_aliases : list string;
  nr_events : list string
}.

(** Lines 985-995 of [_extract_netreceive_block], for one flag: a
    handler that schedules an event ([target != -1]) also sets
    [last_transition] to [t], and the state variable [last_transition]
    (of dimension time) is created if it does not exist.  State variables
    are kept as a map from the name to the dimension name. *)
Definition finish_receive (target : Z) (delay : option string) (args : list string)
  (assignments : gmap string string) (aliases events : list string)
  (svars : gmap string string) : receive * gmap string string :=
  if bool_decide (target = (-1)%Z) then
    (mk_receive target delay args assignments aliases events, svars)
  else
    (mk_receive target delay args (<["last_transition" := "t"]> assignments)
                aliases events,
     if bool_decide (is_Some (svars !! "last_transition")) then svars
     else <["last_transition" := "time"]> svars).

(** [not l] for a list *)
Definition is_nil {X : Type} (l : list X) : bool :=
  match l with [] => true | _ => false end.

Inductive trigger : Type :=
  | OnCond (test : string)
  | OnEv (port : string).

Record transition := mk_transition {
  tr_trigger : trigger;
  tr_assignments : list (string * string);
  tr_events : list string;
  tr_target : string
}.

Section Regimes.

Context {TD : Type}.
(** Lines 449-467: the state assignments made from the aliases of a
    handler that are used in the BREAKPOINT aliases (with the errors of
    that part: [KeyError] on a missing dimension, [AssertionError] on an
    alias defined twice). *)
Context (alias_assignments : Z -> receive -> res (list (string * string))).

Record regime := mk_regime {
  rg_name : string;
  rg_time_derivatives : list TD;
  rg_transitions : list transition
}.

(** [dict((f, i) for i, f in enumerate(sorted(regime_flags)))][f] *)
Fixpoint index_of (x : Z) (l : list Z) : nat :=
  match l with
  | [] => O
  | y :: l' => if Z.eqb x y then O else S (index_of x l')
  end.

Definition regime_name (flags : list Z) (f : Z) : string :=
  "regime_" +:+ pretty (index_of f (merge_sort Z.le flags)).

(** [regime_flags]: the default regime [-1] and every flag whose
    handler schedules an event with a delay. *)
Definition regime_flags (nr : gmap Z receive) : list Z :=
  (-1)%Z :: map fst (List.filter (fun fr => bool_decide (is_Some (nr_delay (snd fr))))
                             (map_to_list nr)).

(** [self.origins[target]]: the flags whose handler schedules [target],
    with their delay. *)
Definition origins (nr : gmap Z receive) (target : Z) : list (Z * option string) :=
  map (fun fr => (fst fr, nr_delay (snd fr)))
      (List.filter (fun fr => Z.eqb (nr_target (snd fr)) target) (map_to_list nr)).

(** [str(delay)] *)
Definition delay_str (d : option string) : string :=
  match d with Some s => s | None => "None" end.

(** [if receive.delay:] *)
Definition delay_truthy (d : option string) : bool :=
  match d with Some s => negb (is_empty s) | None => false end.

Definition timed_trigger (d : option string) : string :=
  "t > (last_transition + " +:+ delay_str d +:+ ")".

(** [regime_transitions[k].append(x)]; a missing [k] raises [KeyError]. *)
Definition add_transition (k : Z) (x : transition) (rt : gmap Z (list transition))
  : res (gmap Z (list transition)) :=
  match rt !! k with
  | Some l => Ok (<[k := (l ++ [x])%list]> rt)
  | None => Err KeyError
  end.

Fixpoint add_transitions (kxs : list (Z * transition)) (rt : gmap Z (list transition))
  : res (gmap Z (list transition)) :=
  match kxs with
  | [] => Ok rt
  | (k, x) :: kxs' => match add_transition k x rt with
                      | Ok rt' => add_transitions kxs' rt'
                      | Err e => Err e
                      end
  end.

(** The transitions made for the handler of [flag] (lines 443-500), with
    the regime each one is added to, in the order of the source. *)
Definition flag_transitions (nr : gmap Z receive) (triggers : gmap Z (list string))
  (flag : Z) (r : receive) : res (list (Z * transition)) :=
  match alias_assignments flag r with
  | Err e => Err e
  | Ok extra =>
      let sas := (map_to_list (nr_assignments r) ++ extra)%list in
      let outs := nr_events r in
      let target_regime := if delay_truthy (nr_delay r)
                           then regime_name (regime_flags nr) flag else "regime_0" in
      Ok (map (fun fd => (fst fd, mk_transition (OnCond (timed_trigger (snd fd)))
                                               sas outs target_regime))
              (origins nr flag) ++
          map (fun test => ((-1)%Z, mk_transition (OnCond test) sas outs target_regime))
              (default [] (triggers !! flag)) ++
          (if Z.eqb flag 0%Z
           then [((-1)%Z, mk_transition (OnEv "incoming_spike") sas outs target_regime)]
           else []))%list
  end.

Fixpoint all_transitions (nr : gmap Z receive) (triggers : gmap Z (list string))
  (frs : list (Z * receive)) (rt : gmap Z (list transition))
  : res (gmap Z (list transition)) :=
  match frs with
  | [] => Ok rt
  | (flag, r) :: frs' =>
      match flag_transitions nr triggers flag r with
      | Err e => Err e
      | Ok kxs => match add_transitions kxs rt with
                  | Ok rt' => all_transitions nr triggers frs' rt'
                  | Err e => Err e
                  end
      end
  end.

(** The initial-flag check of lines 418-432: the handler of the flag
    used by a [net_send] in the INITIAL block is removed (its statements
    go to the initial statements, not modelled). *)
Definition pop_initial (initial_flag : option Z) (has_warnings : bool)
  (nr : gmap Z receive) : res (gmap Z receive) :=
  match initial_flag with
  | None => Ok nr
  | Some f =>
      match nr !! f with
      | Some r =>
          if bool_decide (nr_target r = (-1)%Z) && negb (bool_decide (is_Some (nr_delay r)))
             && is_nil (nr_events r) && is_nil (nr_args r)
          then Ok (delete f nr) else Err AssertionError
      | None => if has_warnings then Ok nr else Err KeyError
      end
  end.

(** [_create_regimes] *)
Definition create_regimes (regime_parts : list (string * list TD))
  (initial_flag : option Z) (triggers : gmap Z (list string)) (has_warnings : bool)
  (nr0 : gmap Z receive) : res (gmap string regime) :=
  if (1 <? List.length regime_parts)%nat then Err NotImplementedError else
  let tds := match regime_parts with (_, t) :: _ => t | [] => [] end in
  if match initial_flag with
     | Some f => bool_decide (is_Some (triggers !! f))
     | None => false
     end then Err AssertionError else
  match pop_initial initial_flag has_warnings nr0 with
  | Err e => Err e
  | Ok nr =>
      let flags := regime_flags nr in
      let rt0 : gmap Z (list transition) := list_to_map (map (fun f => (f, [])) flags) in
      match all_transitions nr triggers (map_to_list nr) rt0 with
      | Err e => Err e
      | Ok rt =>
          Ok (list_to_map (map (fun ft => (regime_name flags (fst ft),
                                           mk_regime (regime_name flags (fst ft)) tds (snd ft)))
                               (map_to_list rt)))
      end
  end.

End Regimes.

(** The example of a NET_RECEIVE block with [net_send(5, 1)] under flag 0
    and a flag-1 handler setting [x = x + 1]. *)
Definition ex_r0 := fst (finish_receive 1 (Some "5") [] ∅ [] [] ∅).
Definition ex_r1 := fst (finish_receive (-1) None [] {["x" := "x + 1"]} [] [] ∅).
Definition ex_nr : gmap Z receive := <[0%Z := ex_r0]> {[1%Z := ex_r1]}.

(** Its regimes: [regime_1] is the regime of flag 0. *)
Definition ex_regimes : gmap string (regime (TD := string)) :=
  <["regime_0" := mk_regime "regime_0" []
      [mk_transition (OnEv "incoming_spike") [("last_transition", "t")] [] "regime_1"]]>
  {["regime_1" := mk_regime "regime_1" []
      [mk_transition (OnCond "t > (last_transition + 5)") [("x", "x + 1")] [] "regime_0"]]}.

(** The regimes of a result with their time derivatives replaced by [tds]. *)
Definition set_time_derivatives {TD : Type} (tds : list TD)
  (r : res (gmap string (regime (TD := TD)))) : res (gmap string (regime (TD := TD))) :=
  match r with
  | Ok regs => Ok ((fun rg => mk_regime (rg_name rg) tds (rg_transitions rg)) <$> regs)
  | Err e => Err e
  end.

(* ------------------------------------------------------------------ *)
(** ** Units: [_units2SI], [_units2nineml_units] and [_units2dimension] *)

(** [_SI_to_dimension] (lines 51-74): the SI dimensionality string to
    the nineml dimension, written here as the expression of the source;
    the key [None] is the dimensionality of a dimensionless unit. *)
Definition SI_to_dimension : list (option string * string) :=
  [(Some "m/s", "conductance");
   (Some "s**2", "time ** 2");
   (Some "kg*m**2/(s**3*A)", "voltage");
   (Some "kg*m**2/(s**4*A)", "voltage / time");
   (Some "s**4*A**2/(kg*m**2)", "current * time / voltage");
   (Some "mol/m**3", "concentration");
   (Some "A/m**2", "currentDensity");
   (Some "s", "time");
   (Some "K", "temperature");
   (Some "kg/(m**3*s)", "flux");
   (Some "1/(s*A)", "mass_per_charge");
   (Some "m", "length");
   (Some "s**3*A**2/(kg*m**4)", "conductanceDensity");
   (Some "A", "current");
   (Some "A/s", "current_per_time");
   (Some "s**3*A**2/(kg*m**2)", "conductance");
   (Some "1/s", "per_time");
   (Some "s*A/m**3", "charge_density");
   (Some "m**3/(s*mol)", "per_time_per_concentration");
   (Some "mol/m**2", "substance_per_area");
   (Some "s*A", "charge");
   (Some "s**3*A/(kg*m**2)", "per_voltage");
   (Some "kg*m**2/(s**2*K)", "energy_per_temperature");
   (None, "dimensionless")].

(** [_SI_to_dimension[dim_str]], [None] for a missing key. *)
Fixpoint assoc_lookup (k : option string) (l : list (option string * string)) : option string :=
  match l with
  | [] => None
  | (k', v) :: l' => if decide (k = k') then Some v else assoc_lookup k l'
  end.

Definition lookup_dimension (dim_str : option string) : option string :=
  assoc_lookup dim_str SI_to_dimension.

(** [str(x)] of an optional string *)
Definition py_str_opt (d : option string) : string :=
  match d with Some s => s | None => "None" end.

Section Units.

Context {U : Type}.
(** [pq.Quantity(1, units).simplified] and the power of ten taken from
    it (lines 1638-1641): the quantities library, which raises for a
    unit it does not know. *)
Context (simplify : string -> res (string * Z)).
(** [_sanitize_units] *)
Context (sanitize_units : string -> string).
(** [_SI_to_nineml_units[(dim, power)]], [None] for a missing key. *)
Context (SI_to_nineml_units : string -> Z -> option U).

(** [_units2SI(units)] for a unit string *)
Definition units2SI (units : string) : res (option string * Z) :=
  let units := strip units in
  if String.eqb units "1" || String.eqb units "dimensionless" then Ok (None, 0%Z) else
  let units := if starts_with "/" units then "1.0" +:+ units else units in
  match simplify (sanitize_units units) with
  | Err e => Err e
  | Ok (d, power) => Ok (Some d, power)
  end.

(** [_units2nineml_units(units)] *)
Definition units2nineml_units (units : string) : res U :=
  match units2SI units with
  | Err e => Err e
  | Ok (dim_str, power) =>
      match lookup_dimension dim_str with
      | None => Err (ImportError ("Unrecognised dimension from units '" +:+ units
                                  +:+ "'('" +:+ py_str_opt dim_str +:+ "')"))
      | Some dim => match SI_to_nineml_units dim power with
                    | Some u => Ok u
                    | None => Err KeyError
                    end
      end
  end.

(** [_units2dimension(units)] *)
Definition units2dimension (units : string) : res string :=
  match units2SI units with
  | Err e => Err e
  | Ok (dim_str, _) =>
      match lookup_dimension dim_str with
      | Some dim => Ok dim
      | None => Err KeyError
      end
  end.

End Units.

(** The quantities library on two unit strings: [kg] is reduced to the
    dimensionality [kg] with power 0, and a name it does not know raises
    [LookupError]. *)
Definition ex_simplify (u : string) : res (string * Z) :=
  if String.eqb u "kg" then Ok ("kg", 0%Z) else Err (OtherError "LookupError").

Definition ex_SI_to_nineml_units (dim : string) (power : Z) : option string :=
  Some dim.

(* ------------------------------------------------------------------ *)
(** ** A PARAMETER or CONSTANT line without a default value
    (lines 750-760 of [_extract_parameter_and_constant_block]) *)

(** The characters of [[\w\/\*\^]] *)
Definition is_unit_char (c : ascii) : bool :=
  is_word c || Ascii.eqb c "/" || Ascii.eqb c "*" || Ascii.eqb c "^".

(** [re.match(r'(\w+) +\(([\w\/\*\^]+)\)', line)]: the groups, [None]
    when the line does not match.  Neither group can give back a
    character on backtracking, since the character after each is outside
    its class. *)
Definition match_param_decl (line : string) : option (string * string) :=
  let (name, r1) := span is_word line in
  let (sp, r2) := span is_space r1 in
  match r2 with
  | String "(" r3 =>
      let (units, r4) := span is_unit_char r3 in
      match r4 with
      | String ")" _ =>
          if is_empty name || is_empty sp || is_empty units then None
          else Some (name, units)
      | _ => None
      end
  | _ => None
  end.

(** The value of a property: [float('nan')] or a number as written. *)
Inductive pvalue : Type :=
  | NaN
  | Value (v : string).

Section ParameterLine.

(** [_sanitize_units] *)
Context (sanitize_units : string -> string).
(** The branch of a line [name = rest] (lines 764-796), not modelled. *)
Context (with_default : string -> string -> gmap string (pvalue * string)
                        -> res (gmap string (pvalue * string))).

(** One line of the loop over the block, updating [self.properties].
    [match.group(1)] on a failed match raises [AttributeError]. *)
Definition extract_parameter_line (line : string) (props : gmap string (pvalue * string))
  : res (gmap string (pvalue * string)) :=
  match assign_split line with
  | [_] =>
      match match_param_decl line with
      | None => Err (OtherError "AttributeError")
      | Some (name, units) =>
          let units := if is_empty units then "dimensionless" else units in
          let units := sanitize_units units in
          if bool_decide (name ∈ ["celsius"; "v"]) then Ok props
          else Ok (<[name := (NaN, units)]> props)
      end
  | [name; rest] => with_default name rest props
  | _ => Err (ImportError ("More than one '=' found on parameter block line '"
                           +:+ line +:+ "'"))
  end.

End ParameterLine.

(* ================================================================== *)
(** * Further helpers of the importer *)

(** [s[n:]] *)
Fixpoint py_drop (n : nat) (s : string) : string :=
  match n, s with
  | O, _ => s
  | S _, EmptyString => EmptyString
  | S n', String _ s' => py_drop n' s'
  end.

(** Number of occurrences of a character. *)
Definition count_char (c : ascii) (cs : list ascii) : nat :=
  List.length (List.filter (Ascii.eqb c) cs).

(* ------------------------------------------------------------------ *)
(** ** [_matching_parentheses(string)] (lines 1722-1735): the prefix up
    to the [')'] at which the depth, counted from 0, comes back to 0. *)

Fixpoint matching_parentheses_go (cs : list ascii) (depth : Z) (acc : list ascii)
  : option (list ascii) :=
  match cs with
  | [] => None
  | c :: cs' =>
      if Ascii.eqb c "(" then matching_parentheses_go cs' (depth + 1) (acc ++ [c])%list
      else if Ascii.eqb c ")" then
        if Z.eqb (depth - 1) 0 then Some (acc ++ [c])%list
        else matching_parentheses_go cs' (depth - 1) (acc ++ [c])%list
      else matching_parentheses_go cs' depth (acc ++ [c])%list
  end.

Definition matching_parentheses (s : string) : res string :=
  match matching_parentheses_go (list_ascii_of_string s) 0 [] with
  | Some out => Ok (string_of_list_ascii out)
  | None => Err (ImportError ("No matching ')' found for opening '(' in string '"
                              +:+ s +:+ "'"))
  end.

(** The depth reached after a list of characters. *)
Definition paren_depth (cs : list ascii) : Z :=
  (Z.of_nat (count_char "(" cs) - Z.of_nat (count_char ")" cs))%Z.

(* ------------------------------------------------------------------ *)
(** ** Transition flags: the prefix added by [_extract_transition_block]
    (line 1508), [_transition_flag] (lines 1752-1754) and the removal of
    the prefix in [_extract_netreceive_block] (lines 958-959) *)

(** ['__TRANSITION_{}_'.format(flag) + lhs] *)
Definition transition_prefix (flag : nat) (lhs : string) : string :=
  "__TRANSITION_" +:+ pretty flag +:+ "_" +:+ lhs.

(** [re.match(r'__TRANSITION_(\d+)_', lhs)]: group 1 or [None]; the
    greedy [\d+] never gives a digit back, since the next character must
    be ['_']. *)
Definition transition_flag (lhs : string) : option string :=
  if starts_with "__TRANSITION_" lhs then
    let (ds, r) := span is_digit (py_drop 13 lhs) in
    if is_empty ds then None else
    match r with
    | String "_" _ => Some ds
    | _ => None
    end
  else None.

(** [if lhs.startswith('__TRANSITION_'):
       lhs = lhs[len('__TRANSITION__') + len(str(flag)):]] *)
Definition strip_transition_prefix (flag lhs : string) : string :=
  if starts_with "__TRANSITION_" lhs
  then py_drop (String.length "__TRANSITION__" + String.length flag) lhs
  else lhs.

(* ------------------------------------------------------------------ *)
(** ** SOLVE lines of the INITIAL (lines 804-815) and BREAKPOINT (lines
    911-920) blocks *)

(** [re.match(r'SOLVE (\w+) METHOD (\w+)', line)] *)
Definition match_solve_method (line : string) : option (string * string) :=
  if starts_with "SOLVE " line then
    let (n, r) := span is_word (py_drop 6 line) in
    if is_empty n then None else
    if starts_with " METHOD " r then
      let (m, _) := span is_word (py_drop 8 r) in
      if is_empty m then None else Some (n, m)
    else None
  else None.

(** [re.match(r'SOLVE (\w+) *(?:STEADYSTATE (\w+))?', line)]: the
    optional group is [None] unless the spaces after the name are
    followed by [STEADYSTATE ] and a word character. *)
Definition match_solve_steadystate (line : string) : option (string * option string) :=
  if starts_with "SOLVE " line then
    let (n, r) := span is_word (py_drop 6 line) in
    if is_empty n then None else
    let r' := snd (span is_space r) in
    if starts_with "STEADYSTATE " r' then
      let (m, _) := span is_word (py_drop 12 r') in
      Some (n, if is_empty m then None else Some m)
    else Some (n, None)
  else None.

Section SolveLines.

Context {X : Type} (parse : string -> option (string * X)).

(** The loop over the lines of the block: a [SOLVE] line records its
    method under the name of the block solved, or raises; the other lines
    are kept, in order, for [_extract_stmts_block]. *)
Fixpoint reduce_solves (lines : list string) (methods : gmap string X)
  : res (list string * gmap string X) :=
  match lines with
  | [] => Ok ([], methods)
  | line :: rest =>
      if starts_with "SOLVE" line then
        match parse line with
        | None => Err (ImportError ("Could not read solve statement '" +:+ line +:+ "'"))
        | Some (n, m) => reduce_solves rest (<[n := m]> methods)
        end
      else
        match reduce_solves rest methods with
        | Ok (reduced, ms) => Ok (line :: reduced, ms)
        | Err e => Err e
        end
  end.

End SolveLines.

Definition breakpoint_solves (block : list string) (methods : gmap string string)
  : res (list string * gmap string string) :=
  reduce_solves match_solve_method (iterate_block block) methods.

Definition initial_solves (block : list string) (methods : gmap string (option string))
  : res (list string * gmap string (option string)) :=
  reduce_solves match_solve_steadystate (iterate_block block) methods.

(* ------------------------------------------------------------------ *)
(** ** Splitting on a set of characters: [re.split] with a one-character
    class and [str.split] with a one-character separator *)

Fixpoint split_on_go (p : ascii -> bool) (cs cur : list ascii) : list string :=
  match cs with
  | [] => [string_of_list_ascii cur]
  | c :: cs' => if p c then string_of_list_ascii cur :: split_on_go p cs' []
                else split_on_go p cs' (cur ++ [c])%list
  end.

Definition split_on (p : ascii -> bool) (s : string) : list string :=
  split_on_go p (list_ascii_of_string s) [].

(* ------------------------------------------------------------------ *)
(** ** The left-hand side of an alias in [_get_alias] (lines 1559-1562) *)

(** The characters of [square_brackets_re = r'(?:\[|\])'] *)
Definition is_bracket (c : ascii) : bool := Ascii.eqb c "[" || Ascii.eqb c "]".

Definition alias_lhs (lhs : string) : res string :=
  if has_char "[" lhs then
    match split_on is_bracket lhs with
    | [a; i; EmptyString] => Ok (a +:+ "__index_" +:+ i +:+ "__")
    | _ => Err AssertionError
    end
  else Ok lhs.

(* ------------------------------------------------------------------ *)
(** ** [_args_suffix(arg_vals)] (lines 1737-1750) *)

(** [re.sub(r' *X *', rep, s)] for a character [X] other than a space: a
    match starts at the first space of a run of spaces followed by [X]
    and takes the spaces after [X]; [pending] holds the spaces read but
    not yet known to be part of a match, [skip] is set after a match. *)
Fixpoint sub_op_go (op : ascii) (rep s pending : string) (skip : bool) : string :=
  match s with
  | EmptyString => if skip then EmptyString else pending
  | String c s' =>
      if Ascii.eqb c " " then
        if skip then sub_op_go op rep s' EmptyString true
        else sub_op_go op rep s' (pending +:+ " ") false
      else if Ascii.eqb c op then rep +:+ sub_op_go op rep s' EmptyString true
      else pending +:+ String c (sub_op_go op rep s' EmptyString false)
  end.

Definition sub_op (op : ascii) (rep s : string) : string := sub_op_go op rep s "" false.

(** Position of the last occurrence of a character. *)
Fixpoint last_index (c : ascii) (cs : list ascii) (i : nat) (found : option nat)
  : option nat :=
  match cs with
  | [] => found
  | d :: cs' => last_index c cs' (S i) (if Ascii.eqb c d then Some i else found)
  end.

(** [re.sub(r'(?=\w)\[(.* )\]', '__elem\1', a)] (without the space): the replacement is the
    non-raw string ['__elem\1'], whose [\1] is the character 1; at a
    position the pattern needs a word character and ['['] at once.  The
    greedy [.*] stops at a newline. *)
Fixpoint elem_sub_fuel (fuel : nat) (s : string) : string :=
  match fuel with
  | O => s
  | S f =>
      match s with
      | EmptyString => EmptyString
      | String c s' =>
          if is_word c && Ascii.eqb c "[" then
            match last_index "]" (list_ascii_of_string
                    (fst (span (fun d => negb (Ascii.eqb d "010"%char)) s'))) 0 None with
            | Some k => "__elem" +:+ String (ascii_of_nat 1) EmptyString
                          +:+ elem_sub_fuel f (py_drop (S k) s')
            | None => String c (elem_sub_fuel f s')
            end
          else String c (elem_sub_fuel f s')
      end
  end.

Definition elem_sub (s : string) : string := elem_sub_fuel (S (String.length s)) s.

(** [re.sub(r'[\. ]', '_', a)] *)
Definition dot_space_to_underscore (s : string) : string :=
  string_of_list_ascii
    (map (fun c => if Ascii.eqb c "." || Ascii.eqb c " " then "_"%char else c)
         (list_ascii_of_string s)).

Definition arg_suffix (a : string) : string :=
  dot_space_to_underscore (elem_sub
    (sub_op ")" "__c__" (sub_op "(" "__o__" (sub_op "/" "__d__"
      (sub_op "*" "__x__" (sub_op "-" "__m__" (sub_op "+" "__p__" a))))))).

Definition args_suffix (arg_vals : list string) : string :=
  fold_left (fun suffix a => suffix +:+ "_" +:+ arg_suffix a) arg_vals "".

(* ------------------------------------------------------------------ *)
(** ** [_sanitize_units(units)] (lines 1660-1673), for a unit string *)

Definition is_digit_or_dot (c : ascii) : bool := is_digit c || Ascii.eqb c ".".

(** [re.sub(r'([a-zA-Z])([0-9\.]+)', r'\1^\2', units)]; [in_digits] is
    set inside the digits of a match. *)
Fixpoint caret_go (s : string) (in_digits : bool) : string :=
  match s with
  | EmptyString => EmptyString
  | String c s' =>
      if in_digits && is_digit_or_dot c then String c (caret_go s' true)
      else if is_alpha c && (match s' with String d _ => is_digit_or_dot d
                                          | EmptyString => false end)
      then String c (String "^" (caret_go s' true))
      else String c (caret_go s' false)
  end.

(** [re.sub(r'(?<=\d) +(?=\w)', r'*', units)]: [pending] holds a run of
    spaces that follows a digit. *)
Fixpoint star_go (s : string) (prev_digit : bool) (pending : option string) : string :=
  match s with
  | EmptyString => match pending with Some p => p | None => EmptyString end
  | String c s' =>
      if Ascii.eqb c " " then
        match pending with
        | Some p => star_go s' false (Some (p +:+ " "))
        | None => if prev_digit then star_go s' false (Some " ")
                  else String c (star_go s' false None)
        end
      else
        (match pending with
         | Some p => if is_word c then "*" else p
         | None => EmptyString
         end) +:+ String c (star_go s' (is_digit c) None)
  end.

Definition sanitize_units (units : string) : res string :=
  if String.eqb units "1" then Ok "dimensionless" else
  let units := if String.eqb units "mv" then "mV" else units in
  let units := strip units in
  let units := if starts_with "/" units then "1" +:+ units else units in
  let units := caret_go units false in
  match (if has_char "-" units then
           match split_on (Ascii.eqb "-") units with
           | [b; e] => Ok ("(" +:+ b +:+ ")/" +:+ e)
           | _ => Err ValueError     (* [begin, end = units.split('-')] *)
           end
         else Ok units) with
  | Err e => Err e
  | Ok units => Ok (star_go units false None)
  end.

(* ------------------------------------------------------------------ *)
(** ** [_expand_kinetics] and [_expand_kinetics_term] (lines 598-631)

    A state of a reaction is [(name, stoichiometry)], the stoichiometry
    being [None] when not written ([logstate_re] group 1).  The time
    derivatives are returned as a map from the state to the right-hand
    side (the source builds them from a dict, in its iteration order). *)

Definition kin_state : Type := string * option string.

(** [p] is truthy *)
Definition coef_truthy (p : option string) : bool :=
  match p with Some q => negb (is_empty q) | None => false end.

Definition coef_str (p : option string) : string :=
  match p with Some q => if coef_truthy p then q +:+ "*" else "" | None => "" end.

Definition expand_kinetics_term (states : list kin_state) : string :=
  py_join "*" (map (fun sp => match snd sp with
                              | Some q => if coef_truthy (snd sp) then fst sp +:+ "^" +:+ q
                                          else fst sp
                              | None => fst sp
                              end) states).

(** [equations[s] += t] on a [defaultdict(str)] *)
Definition add_eq (s t : string) (eqs : gmap string string) : gmap string string :=
  <[s := default "" (eqs !! s) +:+ t]> eqs.

Definition reaction :Type := list kin_state * list kin_state * string * string.

Definition reaction_eqs (eqs : gmap string string) (r : reaction) : gmap string string :=
  let '(lhs_states, rhs_states, f_rate, b_rate) := r in
  let lhs_term := f_rate +:+ "*" +:+ expand_kinetics_term lhs_states in
  let rhs_term := b_rate +:+ "*" +:+ expand_kinetics_term rhs_states in
  let eqs := fold_left (fun eqs sp =>
               add_eq (fst sp) (" + " +:+ coef_str (snd sp) +:+ rhs_term)
                 (add_eq (fst sp) (" - " +:+ coef_str (snd sp) +:+ lhs_term) eqs))
               lhs_states eqs in
  fold_left (fun eqs sp =>
      add_eq (fst sp) (" + " +:+ coef_str (snd sp) +:+ lhs_term)
        (add_eq (fst sp) (" - " +:+ coef_str (snd sp) +:+ rhs_term) eqs))
    rhs_states eqs.

Definition flux_terms (sign state : string) (fluxes : list (string * string)) : string :=
  String.concat "" (map (fun sr => sign +:+ snd sr)
                        (List.filter (fun sr => String.eqb (fst sr) state) fluxes)).

Definition expand_kinetics (bidirectional : list reaction)
  (incoming outgoing : list (string * string)) : gmap string string :=
  map_imap (fun state rhs =>
    let rhs := rhs +:+ flux_terms " + " state incoming in
    let rhs := rhs +:+ flux_terms " - " state outgoing in
    Some (if starts_with " + " rhs then py_drop 2 rhs else rhs))
    (fold_left reaction_eqs bidirectional ∅).

(* ------------------------------------------------------------------ *)
(** ** The elements of a USEION line (lines 866-876 of
    [_extract_neuron_block]): the dimension recorded for each element
    read or written *)

Definition ends_with_char (c : ascii) (s : string) : bool :=
  match last_char s with Some d => Ascii.eqb c d | None => false end.

Definition ion_error (c : string) : exn :=
  ImportError ("Amiguous usion element '" +:+ c +:+ "' (elements "
               +:+ "starting with 'i' are assumed to be currents "
               +:+ "and elements ending with 'i' or 'o' are "
               +:+ "assumed to be concentrations)").

Definition ion_element (dims : gmap string string) (c : string)
  : res (gmap string string) :=
  if starts_with "i" c then
    if ends_with_char "i" c || ends_with_char "o" c then Err (ion_error c)
    else Ok (<[c := "membrane_current"]> dims)
  else if ends_with_char "i" c || ends_with_char "o" c then
    Ok (<[c := "concentration"]> dims)
  else Ok dims.

Fixpoint ion_elements (dims : gmap string string) (cs : list string)
  : res (gmap string string) :=
  match cs with
  | [] => Ok dims
  | c :: cs' => match ion_element dims c with
                | Ok dims' => ion_elements dims' cs'
                | Err e => Err e
                end
  end.

(** The dimension an element is given, [None] for an element that is
    left alone. *)
Definition ion_dimension (c : string) : option string :=
  if starts_with "i" c then Some "membrane_current"
  else if ends_with_char "i" c || ends_with_char "o" c then Some "concentration"
  else None.

Definition ion_ambiguous (c : string) : bool :=
  starts_with "i" c && (ends_with_char "i" c || ends_with_char "o" c).

(* ------------------------------------------------------------------ *)
(** ** [_clean_init_parameters] (lines 579-585): a parameter that no
    right-hand side uses is removed, with its property, and becomes a
    constant of the initial statements.  The keys are visited in the
    order of [map_to_list]. *)

Section CleanInit.

Context {P V U C : Type}.
(** [un.Quantity.parse(pq.Quantity(1.0, unit_str)).units], which raises
    for a unit string the quantities library does not know. *)
Context (parse_units : string -> res U).
(** [Constant(name, value, units)] *)
Context (Constant : string -> V -> U -> C).

Fixpoint clean_init_go (names : list string) (all_rhs_symbols : gset string)
  (parameters : gmap string P) (properties : gmap string (V * string))
  (init_statements : gmap string C)
  : res (gmap string P * gmap string (V * string) * gmap string C) :=
  match names with
  | [] => Ok (parameters, properties, init_statements)
  | name :: rest =>
      if bool_decide (name ∈ all_rhs_symbols) then
        clean_init_go rest all_rhs_symbols parameters properties init_statements
      else
        let parameters := delete name parameters in
        match properties !! name with
        | None => Err KeyError
        | Some (value, unit_str) =>
            let properties := delete name properties in
            match parse_units unit_str with
            | Err e => Err e
            | Ok units =>
                clean_init_go rest all_rhs_symbols parameters properties
                  (<[name := Constant name value units]> init_statements)
            end
        end
  end.

Definition clean_init_parameters (all_rhs_symbols : gset string)
  (parameters : gmap string P) (properties : gmap string (V * string))
  (init_statements : gmap string C)
  : res (gmap string P * gmap string (V * string) * gmap string C) :=
  clean_init_go (map_to_list parameters).*1 all_rhs_symbols
    parameters properties init_statements.

End CleanInit.

(* ------------------------------------------------------------------ *)
(** ** Auxiliary predicates used in the lemmas below *)

(** Change of the parenthesis depth at one character. *)
Definition paren_step (c : ascii) : Z :=
  if Ascii.eqb c "(" then 1 else if Ascii.eqb c ")" then -1 else 0.

(** [p] closes an opening parenthesis at depth [d] for the first time:
    it ends in ')' where the depth returns to 0, and no shorter prefix
    ending in ')' does. *)
Definition min_close (d : Z) (p : list ascii) : Prop :=
  last p = Some ")"%char /\ (d + paren_depth p = 0)%Z /\
  forall p' q', (p = p' ++ q')%list -> q' <> [] -> last p' = Some ")"%char ->
                (d + paren_depth p' <> 0)%Z.

(** Every character of the string satisfies [p]. *)
Fixpoint str_forall (p : ascii -> bool) (s : string) : bool :=
  match s with
  | EmptyString => true
  | String c s' => p c && str_forall p s'
  end.

(** Every equation collected so far starts with " - ". *)
Definition eqs_minus (eqs : gmap string string) : Prop :=
  forall k v, eqs !! k = Some v -> starts_with " - " v = true.

(** The string is empty or its first character fails [p]
    (the end of a [\w+] match). *)
Definition head_not (p : ascii -> bool) (r : string) : bool :=
  match r with String c _ => negb (p c) | EmptyString => true end.

(* ================================================================== *)
(** * Lemmas about the string functions *)

Definition all_chars (p : ascii -> bool) (s : string) : bool :=
  forallb p (list_ascii_of_string s).

Lemma str_app_cons x (a b : string) : String x a +:+ b = String x (a +:+ b).
Proof. reflexivity. Qed.

Lemma str_app_assoc (a b c : string) : a +:+ (b +:+ c) = (a +:+ b) +:+ c.
Proof. induction a as [|x a IH]; [done|]. rewrite !str_app_cons. by rewrite IH. Qed.

Lemma str_app_nil_r (a : string) : a +:+ "" = a.
Proof. induction a as [|x a IH]; [done|]. rewrite !str_app_cons. by rewrite IH. Qed.

Lemma span_app (p : ascii -> bool) (w : string) (c : ascii) (r : string) :
  all_chars p w = true -> p c = false ->
  span p (w +:+ String c r) = (w, String c r).
Proof.
  induction w as [|c' w IH]; simpl; intros Hw Hc.
  - by rewrite Hc.
  - apply andb_prop in Hw as [Hc' Hw]. rewrite Hc', (IH Hw Hc). done.
Qed.

Lemma span_length (p : ascii -> bool) (s : string) :
  String.length (snd (span p s)) <= String.length s.
Proof.
  induction s as [|c s IH]; simpl; [lia|].
  destruct (p c); simpl; [|lia]. destruct (span p s) eqn:E. simpl in *. lia.
Qed.

Lemma span_nonempty_shorter (p : ascii -> bool) (s w r : string) :
  span p s = (w, r) -> is_empty w = false -> String.length r < String.length s.
Proof.
  destruct s as [|c s]; simpl; [intros [= <- <-]; done|].
  destruct (p c); [|intros [= <- <-]; done].
  destruct (span p s) as [a b] eqn:E. intros [= <- <-] _.
  pose proof (span_length p s) as H. rewrite E in H. simpl in H. lia.
Qed.

Lemma try_getitem_shorter (s w d r : string) :
  try_getitem s = Some (w, d, r) -> String.length r < String.length s.
Proof.
  unfold try_getitem. destruct (span is_word s) as [w1 r1] eqn:E1.
  destruct (is_empty w1) eqn:Ew; [done|].
  pose proof (span_nonempty_shorter _ _ _ _ E1 Ew) as H1.
  destruct r1 as [|c r2]; [done|].
  destruct (Ascii.eqb c "[") eqn:Ec; [apply Ascii.eqb_eq in Ec; subst c|
    destruct c as [[] [] [] [] [] [] [] []]; done].
  destruct (span is_digit r2) as [d1 r3] eqn:E3.
  destruct (is_empty d1); [done|].
  pose proof (span_length is_digit r2) as H3. rewrite E3 in H3. simpl in H3.
  destruct r3 as [|c3 r4]; [done|].
  destruct (Ascii.eqb c3 "]") eqn:Ec3; [apply Ascii.eqb_eq in Ec3; subst c3|
    destruct c3 as [[] [] [] [] [] [] [] []]; done].
  intros [= <- <- <-]. simpl in *. lia.
Qed.

Lemma getitem_sub_fuel_zero (m : nat) : getitem_sub_fuel m "" = "".
Proof. destruct m; reflexivity. Qed.

Lemma getitem_sub_fuel_enough (n m : nat) (s : string) :
  String.length s <= n -> String.length s <= m ->
  getitem_sub_fuel n s = getitem_sub_fuel m s.
Proof.
  revert m s. induction n as [|n IH]; intros m s Hn Hm.
  - destruct s; [|simpl in Hn; lia]. by rewrite !getitem_sub_fuel_zero.
  - destruct m as [|m].
    + destruct s; [|simpl in Hm; lia]. by rewrite !getitem_sub_fuel_zero.
    + simpl. destruct (try_getitem s) as [[[w d] r]|] eqn:E.
      * pose proof (try_getitem_shorter _ _ _ _ E). do 3 f_equal. apply IH; lia.
      * destruct s as [|c s]; [done|]. simpl in *. f_equal. apply IH; lia.
Qed.

Lemma getitem_sub_unfold (s : string) :
  getitem_sub s =
  match try_getitem s with
  | Some (w, d, r) => w +:+ "__elem" +:+ d +:+ getitem_sub r
  | None => match s with
            | EmptyString => EmptyString
            | String c s' => String c (getitem_sub s')
            end
  end.
Proof.
  unfold getitem_sub. destruct s as [|c s']; [done|].
  cbn [String.length getitem_sub_fuel].
  destruct (try_getitem (String c s')) as [[[w d] r]|] eqn:E; [|done].
  pose proof (try_getitem_shorter _ _ _ _ E) as H. simpl in H.
  do 3 f_equal. apply getitem_sub_fuel_enough; lia.
Qed.

Lemma try_getitem_nonword (c : ascii) (s : string) :
  is_word c = false -> try_getitem (String c s) = None.
Proof. intros Hc. unfold try_getitem. simpl. by rewrite Hc. Qed.

Lemma try_getitem_elem (w d rest : string) :
  all_chars is_word w = true -> is_empty w = false ->
  all_chars is_digit d = true -> is_empty d = false ->
  try_getitem (w +:+ "[" +:+ d +:+ "]" +:+ rest) = Some (w, d, rest).
Proof.
  intros Hw Hw0 Hd Hd0. unfold try_getitem.
  replace ("[" +:+ (d +:+ ("]" +:+ rest))) with (String "[" (d +:+ String "]" rest)) by reflexivity.
  rewrite (span_app is_word w "[" (d +:+ String "]" rest) Hw eq_refl), Hw0.
  rewrite (span_app is_digit d "]" rest Hd eq_refl), Hd0. done.
Qed.

Lemma span_concat (p : ascii -> bool) (s : string) :
  s = fst (span p s) +:+ snd (span p s) /\ all_chars p (fst (span p s)) = true /\
  (forall c r, snd (span p s) = String c r -> p c = false).
Proof.
  induction s as [|c s (IH1 & IH2 & IH3)]; [done|]. cbn [span].
  destruct (p c) eqn:E.
  - destruct (span p s) as [a b]. cbn [fst snd] in *.
    split; [rewrite str_app_cons; by f_equal|].
    split; [unfold all_chars in *; cbn; by rewrite E, IH2|exact IH3].
  - simpl. split; [done|]. split; [done|]. by intros c' r [= <- _].
Qed.

Lemma try_getitem_some (s w d r : string) :
  try_getitem s = Some (w, d, r) ->
  s = w +:+ "[" +:+ d +:+ "]" +:+ r /\ all_chars is_word w = true /\
  is_empty w = false /\ all_chars is_digit d = true /\ is_empty d = false.
Proof.
  unfold try_getitem. destruct (span_concat is_word s) as (Hs & Hw & _).
  destruct (span is_word s) as [w1 r1]. simpl in Hs, Hw.
  destruct (is_empty w1) eqn:Ew; [done|].
  destruct r1 as [|c1 r2]; [done|].
  destruct (Ascii.eqb c1 "[") eqn:Ec1; [apply Ascii.eqb_eq in Ec1; subst c1|
    destruct c1 as [[] [] [] [] [] [] [] []]; done].
  destruct (span_concat is_digit r2) as (Hr2 & Hd & _).
  destruct (span is_digit r2) as [d1 r3]. simpl in Hr2, Hd.
  destruct (is_empty d1) eqn:Ed; [done|].
  destruct r3 as [|c3 r4]; [done|].
  destruct (Ascii.eqb c3 "]") eqn:Ec3; [apply Ascii.eqb_eq in Ec3; subst c3|
    destruct c3 as [[] [] [] [] [] [] [] []]; done].
  intros [= <- <- <-]. subst. done.
Qed.

Lemma word_split_unique (u v x y : string) :
  all_chars is_word u = true -> all_chars is_word v = true ->
  starts_with_word x = false -> starts_with_word y = false ->
  u +:+ x = v +:+ y -> u = v /\ x = y.
Proof.
  revert v. induction u as [|a u IH]; intros v Hu Hv Hx Hy H; destruct v as [|b v].
  - done.
  - change (EmptyString +:+ x) with x in H. rewrite str_app_cons in H. subst x.
    unfold all_chars in Hv. cbn [starts_with_word] in Hx.
    cbn [list_ascii_of_string forallb] in Hv. by rewrite Hx in Hv.
  - change (EmptyString +:+ y) with y in H. rewrite str_app_cons in H. subst y.
    unfold all_chars in Hu. cbn [starts_with_word] in Hy.
    cbn [list_ascii_of_string forallb] in Hu. by rewrite Hy in Hu.
  - rewrite !str_app_cons in H. injection H as -> H.
    unfold all_chars in Hu, Hv. cbn [list_ascii_of_string forallb] in Hu, Hv.
    apply andb_prop in Hu as [_ Hu]. apply andb_prop in Hv as [_ Hv].
    destruct (IH v Hu Hv Hx Hy H) as [-> ->]. done.
Qed.

Lemma getitem_sub_word_run (w rest : string) :
  all_chars is_word w = true -> starts_with_word rest = false ->
  (forall d r, all_chars is_digit d = true -> is_empty d = false ->
     rest <> "[" +:+ d +:+ "]" +:+ r) ->
  getitem_sub (w +:+ rest) = w +:+ getitem_sub rest.
Proof.
  intros Hw Hr Hno. induction w as [|c w IH]; [done|].
  unfold all_chars in Hw. cbn [list_ascii_of_string forallb] in Hw.
  apply andb_prop in Hw as [Hc Hw].
  change (String c w +:+ rest) with (String c (w +:+ rest)).
  rewrite getitem_sub_unfold.
  destruct (try_getitem (String c (w +:+ rest))) as [[[w0 d] r]|] eqn:E.
  - exfalso. apply try_getitem_some in E as (Hs & Hw0 & _ & Hd & Hd0).
    change (String c (w +:+ rest)) with (String c w +:+ rest) in Hs.
    apply word_split_unique in Hs as [_ Hs]; [|unfold all_chars; cbn [list_ascii_of_string forallb]; by rewrite Hc, Hw|done|done|reflexivity].
    exact (Hno d r Hd Hd0 Hs).
  - rewrite (IH Hw). reflexivity.
Qed.

(** C9 (counterexample): the mangled name has no underscore between
    [__elem] and the index, and of a chained index [x[1][2]] only the first
    bracket is rewritten, so an indexing construct survives. *)
Lemma C9_counterexample :
  getitem_sub "y = x[3]" <> "y = x__elem_3" /\
  getitem_sub "y = x[1][2]" = "y = x__elem1[2]".
Proof. split; [discriminate | reflexivity]. Qed.

(** C9 (amended): [getitem_re.sub(r'\1__elem\2', line)] scans the line
    from the left.  The empty line stays empty; a non-word character is
    kept and the scan moves on; a maximal run of word characters [w]
    directly followed by [[d]], with [d] a non-empty run of digits, is
    replaced by [w__elemd] and the scan resumes after the closing
    bracket; a maximal run of word characters not followed by such an
    index is kept as it is and the scan resumes after it.  Every line falls
    under exactly one of these cases (the last conjunct), so they fix the
    result on every line. *)
Theorem getitem_sub_rewrites_elem :
  getitem_sub EmptyString = EmptyString /\
  (forall c s, is_word c = false -> getitem_sub (String c s) = String c (getitem_sub s)) /\
  (forall w d rest,
     all_chars is_word w = true -> is_empty w = false ->
     all_chars is_digit d = true -> is_empty d = false ->
     getitem_sub (w +:+ "[" +:+ d +:+ "]" +:+ rest) =
       w +:+ "__elem" +:+ d +:+ getitem_sub rest) /\
  (forall w rest,
     all_chars is_word w = true -> starts_with_word rest = false ->
     (forall d r, all_chars is_digit d = true -> is_empty d = false ->
        rest <> "[" +:+ d +:+ "]" +:+ r) ->
     getitem_sub (w +:+ rest) = w +:+ getitem_sub rest) /\
  (forall s, s = EmptyString \/
     (exists c s', s = String c s' /\ is_word c = false) \/
     (exists w rest, s = w +:+ rest /\ all_chars is_word w = true /\
        is_empty w = false /\ starts_with_word rest = false)).
Proof.
  split; [reflexivity|]. split; [|split; [|split]].
  - intros c s Hc. rewrite getitem_sub_unfold, try_getitem_nonword; done.
  - intros w d rest Hw Hw0 Hd Hd0. rewrite getitem_sub_unfold, try_getitem_elem; done.
  - exact getitem_sub_word_run.
  - intros s. destruct s as [|c s']; [by left|right].
    destruct (is_word c) eqn:Ec; [right|left; by exists c, s'].
    destruct (span_concat is_word (String c s')) as (Hs & Hw & Hr).
    exists (fst (span is_word (String c s'))), (snd (span is_word (String c s'))).
    split; [exact Hs|]. split; [exact Hw|]. split.
    + cbn [span]. rewrite Ec. by destruct (span is_word s').
    + destruct (snd (span is_word (String c s'))) as [|c' r] eqn:E; [done|].
      exact (Hr c' r eq_refl).
Qed.

(** The line [y = foo(x[3])] is rewritten, case by case, to
    [y = foo(x__elem3)]. *)
Lemma getitem_sub_rewrites_elem_witness :
  getitem_sub ("y" +:+ " = foo(x[3])") = "y" +:+ getitem_sub " = foo(x[3])" /\
  getitem_sub (String " " "= foo(x[3])") = String " " (getitem_sub "= foo(x[3])") /\
  getitem_sub ("foo" +:+ "(x[3])") = "foo" +:+ getitem_sub "(x[3])" /\
  getitem_sub ("x" +:+ "[" +:+ "3" +:+ "]" +:+ ")") =
    "x" +:+ "__elem" +:+ "3" +:+ getitem_sub ")" /\
  getitem_sub "y = foo(x[3])" = "y = foo(x__elem3)".
Proof.
  destruct getitem_sub_rewrites_elem as (_ & H2 & H3 & H4 & _).
  split; [|split; [|split; [|split]]].
  - apply H4; [reflexivity|reflexivity|]. intros d r _ _. discriminate.
  - apply H2. reflexivity.
  - apply H4; [reflexivity|reflexivity|]. intros d r _ _. discriminate.
  - apply H3; reflexivity.
  - vm_compute. reflexivity.
Defined.

Lemma replace_fuel_noparen (n : nat) (p b s : string) :
  has_char "(" s = false -> replace_fuel n (String "(" p) b s = s.
Proof.
  revert s. induction n as [|n IH]; intros s Hs; [done|]. cbn [replace_fuel].
  destruct s as [|c s]; [done|].
  simpl in Hs. apply orb_false_iff in Hs as [Hc Hs].
  assert (Hp : String.prefix (String "(" p) (String c s) = false).
  { cbn [String.prefix]. destruct (ascii_dec "(" c) as [<-|]; [discriminate Hc|done]. }
  rewrite Hp. f_equal. by apply IH.
Qed.

(* ------------------------------------------------------------------ *)
(** ** Facts about the flattener, for every behaviour of its parameters *)

Section FlattenerFacts.

Context (is_builtin_symbol : string -> bool) (used_units : list string)
  (user_function_calls : string -> stmts -> M (string * stmts))
  (table_complete : string -> bool)
  (if_block : string -> list string -> stmts -> gmap string string -> string ->
              M (string * list string * stmts * gmap string string))
  (other_call : string -> string -> string -> list string -> stmts ->
                gmap string string -> string ->
                M (option (string * list string) * stmts * gmap string string)).

Local Abbreviation loop := (stmts_loop is_builtin_symbol used_units
  user_function_calls table_complete if_block other_call).
Local Abbreviation assignment := (extract_assignment is_builtin_symbol used_units
  user_function_calls).
Local Abbreviation lwx := (if is_builtin_symbol "x" then "x_" else "x").

Lemma strip_units_noparen (s : string) :
  has_char "(" s = false -> strip_units used_units s = s.
Proof.
  intros Hs. unfold strip_units. generalize used_units as us. intros us.
  induction us as [|u us IH]; [done|]. simpl.
  unfold py_replace at 2. change ("(" +:+ u +:+ ")") with (String "(" (u +:+ ")")).
  simpl is_empty. cbv iota. rewrite replace_fuel_noparen; done.
Qed.

Lemma loop_net_send (block : list string) (f : nat) (rest : list string) (st : stmts)
  (subs : gmap string string) :
  loop block (S f) "net_send(5, 1)" rest st subs "" =
  let (l, rest') := next_or_empty rest in
  loop block f l rest' (<["__INBUILT_PROC_net_send_5_1_True" :=
                    SArgs ["5"; "1"; "True"]]> st) subs "".
Proof. reflexivity. Qed.

Lemma loop_assign_x1 (block : list string) (f : nat) (rest : list string) (st : stmts)
  (subs : gmap string string) :
  loop block (S f) "x = 1" rest st subs "" =
  (let* r := assignment "x = 1" st subs "" in
   let (l, rest') := next_or_empty rest in loop block f l rest' (fst r) (snd r) "").
Proof. reflexivity. Qed.

Lemma loop_assign_x2 (block : list string) (f : nat) (rest : list string) (st : stmts)
  (subs : gmap string string) :
  loop block (S f) "x = x + 1" rest st subs "" =
  (let* r := assignment "x = x + 1" st subs "" in
   let (l, rest') := next_or_empty rest in loop block f l rest' (fst r) (snd r) "").
Proof. reflexivity. Qed.

Lemma assignment_x1 (st : stmts) (out : list string) :
  st !! lwx = None ->
  assignment "x = 1" st ∅ "" out = (Ok (<[lwx := SExpr "1"]> st, ∅), out).
Proof.
  unfold extract_assignment.
  change (assign_split "x = 1") with ["x"; "1"]. cbv beta iota zeta.
  change (fold_left _ (map_to_list ∅) "1") with "1".
  change ("x" +:+ "") with "x".
  unfold extract_function_calls. change (has_char "(" "1") with false.
  cbv beta iota. unfold mbind at 1, mret at 1.
  destruct (is_builtin_symbol "x"); change ("x" +:+ "_") with "x_"; intros ->;
    cbv beta iota; unfold mbind, mret; rewrite strip_units_noparen; done.
Qed.

Lemma assignment_x2 (out : list string) :
  assignment "x = x + 1"
    (<[lwx := SExpr "1"]> (<["__INBUILT_PROC_net_send_5_1_True" :=
                              SArgs ["5"; "1"; "True"]]> ∅)) ∅ "" out =
  (Err ValueError, out).
Proof.
  unfold extract_assignment.
  change (assign_split "x = x + 1") with ["x"; "x + 1"]. cbv beta iota zeta.
  change (fold_left _ (map_to_list ∅) "x + 1") with "x + 1".
  change ("x" +:+ "") with "x".
  unfold extract_function_calls. change (has_char "(" "x + 1") with false.
  cbv beta iota. unfold mbind at 1, mret at 1.
  destruct (is_builtin_symbol "x"); change ("x" +:+ "_") with "x_";
    vm_compute; reflexivity.
Qed.

(** C2 (code bug): the renaming of the previous definitions unpacks every
    list-valued statement as a list of [(expr, test)] pairs, also the
    argument lists recorded for [net_send], [net_event] and [WATCH]; with
    the argument list [['5', '1', 'True']] in the map, re-assigning [x]
    raises [ValueError] instead of renaming. *)
Theorem extract_stmts_block_reassign_after_net_send (out : list string) :
  fst (extract_stmts_block is_builtin_symbol used_units user_function_calls
         table_complete if_block other_call
         ["net_send(5, 1)"; "x = 1"; "x = x + 1"] ∅ "" out) = Err ValueError.
Proof.
  unfold extract_stmts_block.
  change (iterate_block ["net_send(5, 1)"; "x = 1"; "x = x + 1"])
    with ["net_send(5, 1)"; "x = 1"; "x = x + 1"].
  cbv beta iota zeta. cbn [List.length].
  rewrite loop_net_send. cbv [next_or_empty]. cbv beta iota.
  rewrite loop_assign_x1. unfold mbind at 1.
  rewrite assignment_x1 by (destruct (is_builtin_symbol "x"); reflexivity).
  cbv [next_or_empty fst snd]. cbv beta iota.
  rewrite loop_assign_x2. unfold mbind at 1.
  rewrite assignment_x2. reflexivity.
Qed.

Lemma starts_with_app (pre s : string) :
  starts_with pre s = true -> exists q, s = pre +:+ q.
Proof.
  revert s. induction pre as [|c pre IH]; intros s H; [by exists s|].
  destruct s as [|d s]; [done|]. simpl in H.
  apply andb_prop in H as [Hc H]. apply Ascii.eqb_eq in Hc as <-.
  destruct (IH s H) as [q ->]. by exists q.
Qed.

Lemma loop_verbatim (block : list string) (f : nat) (q : string) (rest : list string)
  (st : stmts) (subs : gmap string string) (suffix : string) :
  loop block (S f) ("VERBATIM" +:+ q) rest st subs suffix =
  mraise (ImportError ("Cannot parse VERBATIM block:" +:+ nl +:+ nl +:+ py_str_list block)).
Proof. reflexivity. Qed.

Lemma loop_printf (block : list string) (f : nat) (q : string) (rest : list string)
  (st : stmts) (subs : gmap string string) (suffix : string) :
  loop block (S f) ("printf" +:+ q) rest st subs suffix =
  (let (l, rest') := next_or_empty rest in loop block f l rest' st subs suffix).
Proof. reflexivity. Qed.

End FlattenerFacts.

(** No match of [verbatim_re] starts inside [a] in the text [a +:+ s]. *)
Fixpoint verbatim_free (a s : string) : bool :=
  match a with
  | EmptyString => true
  | String c a' =>
      negb (starts_with "VERBATIM" (a +:+ s)) && negb (starts_with "ENDVERBATIM" (a +:+ s))
      && verbatim_free a' s
  end.

Lemma verbatim_split_go_cons (k : nat) (s : string) :
  exists p ps, verbatim_split_go k s = p :: ps.
Proof.
  revert k. induction s as [|c s IH]; intros k; [by eexists _, _|].
  destruct k as [|k]; cbn [verbatim_split_go]; [|apply IH].
  destruct (starts_with "VERBATIM" _); [by eexists _, _|].
  destruct (starts_with "ENDVERBATIM" _); [by eexists _, _|].
  destruct (IH 0) as (p & ps & ->). by eexists _, _.
Qed.

Lemma verbatim_split_free (a s p : string) (ps : list string) :
  verbatim_free a s = true -> verbatim_split s = p :: ps ->
  verbatim_split (a +:+ s) = (a +:+ p) :: ps.
Proof.
  unfold verbatim_split. intros H Hs. induction a as [|c a IH]; [done|].
  cbn [verbatim_free] in H. apply andb_prop in H as [H H3].
  apply andb_prop in H as [H1 H2]. apply negb_true_iff in H1, H2.
  change (String c a +:+ s) with (String c (a +:+ s)) in H1, H2 |- *.
  cbn [verbatim_split_go]. rewrite H1, H2, (IH H3). reflexivity.
Qed.

Lemma verbatim_split_segment (b c : string) :
  verbatim_free b ("ENDVERBATIM" +:+ c) = true ->
  verbatim_split ("VERBATIM" +:+ b +:+ "ENDVERBATIM" +:+ c) =
  EmptyString :: b :: verbatim_split c.
Proof.
  intros Hb.
  change (verbatim_split ("VERBATIM" +:+ b +:+ "ENDVERBATIM" +:+ c))
    with (EmptyString :: verbatim_split (b +:+ "ENDVERBATIM" +:+ c)).
  rewrite (verbatim_split_free b _ EmptyString (verbatim_split c) Hb); [|reflexivity].
  by rewrite str_app_nil_r.
Qed.

Section VerbatimPrintf.

Context (is_builtin_symbol : string -> bool) (used_units : list string)
  (user_function_calls : string -> stmts -> M (string * stmts))
  (table_complete : string -> bool)
  (if_block : string -> list string -> stmts -> gmap string string -> string ->
              M (string * list string * stmts * gmap string string))
  (other_call : string -> string -> string -> list string -> stmts ->
                gmap string string -> string ->
                M (option (string * list string) * stmts * gmap string string)).

Local Abbreviation loop := (stmts_loop is_builtin_symbol used_units
  user_function_calls table_complete if_block other_call).

(** C8 (amended).  The constructor leaves a text with no VERBATIM or
    ENDVERBATIM unchanged and prints nothing; it removes a segment from
    [VERBATIM] to [ENDVERBATIM] (both included), treats the text after it
    as it would on its own, and prints the diagnostic
    ['<file>' contains VERBATIM segments, which have been ignored:] once.
    In a statement block a line starting with [printf] is skipped with
    nothing printed: the loop goes on with the next line (or stops on the
    empty line when there is none), with the statement map and the
    substitutions unchanged.  A line starting with [VERBATIM] that reaches
    the flattener is not skipped: it raises the import error
    ["Cannot parse VERBATIM block:\n\n" + str(block)]. *)
Theorem verbatim_printf_handling :
  (forall fname contents out, verbatim_free contents EmptyString = true ->
     remove_verbatim fname contents out = (Ok contents, out)) /\
  (forall fname a b c c' outc out,
     verbatim_free a ("VERBATIM" +:+ b +:+ "ENDVERBATIM" +:+ c) = true ->
     verbatim_free b ("ENDVERBATIM" +:+ c) = true ->
     remove_verbatim fname c [] = (Ok c', outc) ->
     remove_verbatim fname (a +:+ "VERBATIM" +:+ b +:+ "ENDVERBATIM" +:+ c) out =
     (Ok (a +:+ c'), (out ++ [verbatim_warning fname])%list)) /\
  (forall block f line rest st subs suffix out,
     starts_with "printf" line = true ->
     loop block (S f) line rest st subs suffix out =
     (let (l, rest') := next_or_empty rest in loop block f l rest' st subs suffix) out) /\
  (forall block f line rest st subs suffix out,
     starts_with "VERBATIM" line = true ->
     loop block (S f) line rest st subs suffix out =
     (Err (ImportError ("Cannot parse VERBATIM block:" +:+ nl +:+ nl +:+ py_str_list block)),
      out)).
Proof.
  split; [|split; [|split]].
  - intros fname contents out H. unfold remove_verbatim.
    pose proof (verbatim_split_free contents EmptyString EmptyString [] H eq_refl) as Hs.
    rewrite str_app_nil_r in Hs. rewrite Hs. reflexivity.
  - intros fname a b c c' outc out Ha Hb Hc. unfold remove_verbatim in Hc |- *.
    rewrite (verbatim_split_free a _ EmptyString (b :: verbatim_split c) Ha)
      by exact (verbatim_split_segment b c Hb).
    rewrite str_app_nil_r.
    unfold verbatim_split in Hc |- *.
    destruct (verbatim_split_go_cons 0 c) as (p & ps & Hs). rewrite Hs in Hc |- *.
    destruct ps as [|p' ps]; cbn in Hc |- *; injection Hc as <- _;
      reflexivity.
  - intros block f line rest st subs suffix out H.
    apply starts_with_app in H as [q ->]. reflexivity.
  - intros block f line rest st subs suffix out H.
    apply starts_with_app in H as [q ->]. reflexivity.
Qed.

End VerbatimPrintf.

(** C8 (counterexample): a printf line is skipped without any output. *)
Lemma C8_counterexample :
  ex_stmts_block ["printf(x)"; "x = 1"] [] = (Ok (<["x" := SExpr "1"]> ∅), []).
Proof. reflexivity. Qed.

Lemma verbatim_printf_handling_witness :
  remove_verbatim "cell.mod"
    (("A" +:+ nl) +:+ "VERBATIM" +:+ (nl +:+ "x" +:+ nl) +:+ "ENDVERBATIM" +:+ (nl +:+ "B")) []
    = (Ok (("A" +:+ nl) +:+ nl +:+ "B"), [verbatim_warning "cell.mod"]) /\
  fst (ex_stmts_block ["  VERBATIM"; "x = 1"] []) =
    Err (ImportError ("Cannot parse VERBATIM block:" +:+ nl +:+ nl +:+
                      "['  VERBATIM', 'x = 1']")).
Proof.
  destruct (verbatim_printf_handling ex_is_builtin_symbol ex_used_units ex_function_calls
              ex_table_complete ex_if_block ex_other_call) as (_ & H2 & _ & H4).
  split.
  - apply (H2 "cell.mod" ("A" +:+ nl) (nl +:+ "x" +:+ nl) (nl +:+ "B") (nl +:+ "B") [] []);
      vm_compute; reflexivity.
  - unfold ex_stmts_block, extract_stmts_block.
    change (iterate_block ["  VERBATIM"; "x = 1"]) with ["VERBATIM"; "x = 1"].
    cbv beta iota zeta.
    rewrite (H4 ["  VERBATIM"; "x = 1"] 2 "VERBATIM" ["x = 1"] ∅ ∅ "" []); [|reflexivity].
    vm_compute. reflexivity.
Defined.

(* ------------------------------------------------------------------ *)
(** ** Conditional blocks whose branches all assign one symbol *)

Lemma last_single_branch a (l : list (string * string)) d d' :
  l <> [] -> fst (List.last (map (single_branch a) l) d) = fst (List.last l d').
Proof.
  induction l as [|x l IH]; [done|]. intros _.
  destruct l as [|y l]; [done|]. simpl in *. apply IH. done.
Qed.

Lemma common_single_branch a (l : list (string * string)) :
  fold_left (fun acc '(_, sti) => acc ∩ dom sti) (map (single_branch a) l)
    ({[a]} : gset string) = {[a]}.
Proof.
  induction l as [|x l IH]; [done|]. simpl. rewrite dom_singleton_L.
  replace ({[a]} ∩ {[a]} : gset string) with ({[a]} : gset string) by set_solver.
  exact IH.
Qed.

Lemma all_single_branch a (l : list (string * string)) (X : gset string) :
  fold_left (fun acc '(_, sti) => acc ∪ dom sti) (map (single_branch a) l) X
    ⊆ X ∪ {[a]}.
Proof.
  revert X. induction l as [|x l IH]; intros X; simpl; [set_solver|].
  rewrite dom_singleton_L. etrans; [apply IH|]. set_solver.
Qed.

Lemma fill_state_assigns_present (sas : list string) (sti st : stmts) :
  Forall (fun sa => is_Some (sti !! sa)) sas ->
  fill_state_assigns sas sti st = (sti, st).
Proof.
  unfold fill_state_assigns. intros H. induction H as [|sa sas [v Hv] _ IH]; [done|].
  simpl. rewrite Hv. exact IH.
Qed.

Lemma tag_inbuilt_single a v test :
  is_inbuilt_key a = false -> tag_inbuilt test {[a := SExpr v]} = Ok {[a := SExpr v]}.
Proof.
  intros Ha. unfold tag_inbuilt, map_traverse. rewrite map_fold_singleton, Ha.
  by rewrite insert_singleton_eq.
Qed.

Lemma process_branches_single a sas suffix i (l : list (string * string)) st :
  is_inbuilt_key a = false -> Forall (fun sa => sa = a) sas ->
  process_branches [a] sas suffix i (map (single_branch a) l) st =
  Ok (map (single_branch a) l, st).
Proof.
  intros Ha Hs. revert i. induction l as [|[t v] l IH]; intros i; [done|].
  simpl. unfold process_branch.
  rewrite fill_state_assigns_present.
  2:{ eapply Forall_impl; [exact Hs|]. intros sa ->. by rewrite lookup_singleton_eq. }
  rewrite tag_inbuilt_single by done.
  rewrite map_to_list_singleton. simpl.
  rewrite filter_cons_False by set_solver. simpl. rewrite map_to_list_empty. simpl.
  rewrite IH. done.
Qed.

Lemma branch_pieces_single a (l : list (string * string)) :
  branch_pieces a (map (single_branch a) l) = Ok (map piece_of_branch l).
Proof.
  induction l as [|[t v] l IH]; [done|]. simpl.
  rewrite lookup_singleton_eq, IH. done.
Qed.

Lemma inbuilt_common_key_false a :
  is_inbuilt_common_key a = false -> is_inbuilt_key a = false.
Proof.
  unfold is_inbuilt_common_key, is_inbuilt_key. intros H.
  destruct (starts_with "__INBUILT_PROC_" a) eqn:E; [|done].
  apply starts_with_app in E as [q ->]. rewrite <- H. reflexivity.
Qed.

Lemma common_loop_single_none a n last props dims suffix (l : list (string * string)) st subs svars out :
  is_inbuilt_common_key a = false -> st !! a = None ->
  common_loop false n last props dims suffix (map (single_branch a) l) [a] st subs svars out =
  (Ok (<[a := SPieces (map piece_of_branch l)]> st, subs, svars), out).
Proof.
  intros Ha Hst. simpl. rewrite Ha. unfold mbind, mlift. rewrite branch_pieces_single.
  rewrite Hst. reflexivity.
Qed.

Lemma common_loop_single_some a n last props dims suffix (l : list (string * string)) st subs svars out r :
  is_inbuilt_common_key a = false -> st !! a = Some r ->
  common_loop false n last props dims suffix (map (single_branch a) l) [a] st subs svars out =
  (Err AssertionError, out).
Proof.
  intros Ha Hst. simpl. rewrite Ha. unfold mbind, mlift. rewrite branch_pieces_single.
  rewrite Hst. reflexivity.
Qed.

Lemma finish_single a (branches : list (string * string)) st subs svars props dims suffix out :
  branches <> [] -> fst (List.last branches ("", "")) = "True" -> is_inbuilt_common_key a = false ->
  finish_conditional (map (single_branch a) branches) st subs svars props dims suffix out =
  (let* q := common_loop false (List.length branches) (snd (List.last (map (single_branch a) branches) ("", ∅))) props dims suffix
                  (map (single_branch a) branches) [a] st subs svars in
   let '(st2, subs2, svars2) := q in
   mret (st2, (if is_empty suffix then subs2 else
                   fold_left (fun sb lhs =>
                                <[py_upto_neg (String.length suffix) lhs := lhs]> sb)
                             [a] subs2), svars2)) out.
Proof.
  intros Hne Hlast Ha.
  destruct branches as [|b0 tl]; [done|].
  unfold finish_conditional.
  cbn [map]. unfold single_branch at 1. cbv beta iota zeta.
  change ((b0.1, {[a := SExpr b0.2]}) :: map (single_branch a) tl) with (map (single_branch a) (b0 :: tl)).
  change (single_branch a b0 :: map (single_branch a) tl) with (map (single_branch a) (b0 :: tl)).
  rewrite dom_singleton_L, common_single_branch.
  pose proof (all_single_branch a (b0 :: tl) ∅) as Hall.
  set (ALL := fold_left _ (map (single_branch a) (b0 :: tl)) ∅) in *.
  assert (Hcommon : ({[a]} : gset string) ∪ filter (fun v => v ∈ svars) ALL = {[a]}) by set_solver.
  rewrite Hcommon, elements_singleton.
  rewrite process_branches_single; [|by apply inbuilt_common_key_false|].
  2:{ apply Forall_forall. intros x Hx. apply elem_of_elements in Hx. set_solver. }
  rewrite (last_single_branch a (b0 :: tl) ("", ∅) ("", "")) by done. rewrite Hlast.
  unfold mbind at 1, mlift. cbv beta iota. reflexivity.
Qed.

Lemma get_piecewise_go_inv rhs pieces otherwise ps o :
  get_piecewise_go rhs pieces otherwise = Ok (ps, o) ->
  Forall (fun p => snd p <> GTrue) pieces ->
  (forall x, otherwise = Some x -> snd x = GTrue) ->
  Forall (fun p => snd p <> GTrue) ps /\ (forall x, o = Some x -> snd x = GTrue).
Proof.
  revert pieces otherwise. induction rhs as [|[e t] rhs IH]; intros pieces otherwise H Hp Ho.
  - simpl in H. injection H as <- <-. done.
  - simpl in H. destruct (String.eqb t "True").
    + destruct otherwise; [done|]. eapply IH; [exact H|exact Hp|]. by intros x [= <-].
    + eapply IH; [exact H| |exact Ho]. apply Forall_app; split; [done|]. by constructor.
Qed.

Lemma get_piecewise_one_otherwise lhs rhs l ps :
  get_piecewise lhs rhs = Ok (l, ps) ->
  exists pieces e, ps = (pieces ++ [(e, GTrue)])%list /\ Forall (fun p => snd p <> GTrue) pieces.
Proof.
  unfold get_piecewise. destruct (get_piecewise_go rhs [] None) as [[ps0 [[e g]|]]|] eqn:E; try done.
  intros [= _ <-]. destruct (get_piecewise_go_inv _ _ _ _ _ E) as [H1 H2]; [done|done|].
  specialize (H2 _ eq_refl). simpl in H2. subst g. eauto.
Qed.

(** C1 (counterexample): for [if (c) {a=1} else {a=2}] the piecewise
    statement of [a] has the pieces [(1, c)] and [(2, True)]: the guards
    are the test as written and the literal [True], not complements, and
    when [c] holds both guards hold. *)
Lemma C1_counterexample :
  finish_conditional [("c", {["a" := SExpr "1"]}); ("True", {["a" := SExpr "2"]})]
    ∅ ∅ ∅ ∅ ∅ "" [] =
    (Ok ({["a" := SPieces [("1", "c"); ("2", "True")]]}, ∅, ∅), []) /\
  get_piecewise "a" [("1", "c"); ("2", "True")] =
    Ok ("a", [("1", GCond "c"); ("2", GTrue)]) /\
  List.length (List.filter (guard_holds (fun _ => true)) [GCond "c"; GTrue]) = 2%nat.
Proof. split; [|split]; reflexivity. Qed.

(** C1 (amended): when the body of every branch [(t_i, v_i)] of a
    conditional block is the single plain assignment [a = v_i] of the
    same symbol [a] (no nested conditional, no other statement), the last
    branch is an [else] (test ['True']), [a] does not start with
    [__INBUILT_PROC] and has no previous definition, the flattener
    records for [a] the single piecewise statement
    [[(v_1, t_1); ...; (v_n, 'True')]]: each piece carries the test of its
    own branch as written, and the last one the catch-all ['True'].  If [a]
    was defined before, the block fails with [AssertionError].  A piecewise
    alias built by [_get_piecewise] always ends with exactly one
    otherwise ([True]) piece, and no other piece has that guard. *)
Theorem finish_conditional_else_piecewise (a : string)
  (branches : list (string * string)) (st : stmts) (subs : gmap string string)
  (svars props dims : gset string) (suffix : string) (out : list string) :
  branches <> [] -> fst (List.last branches ("", "")) = "True" ->
  is_inbuilt_common_key a = false -> st !! a = None ->
  (exists subs',
     finish_conditional (map (single_branch a) branches) st subs svars props dims
       suffix out =
     (Ok (<[a := SPieces (map piece_of_branch branches)]> st, subs', svars), out)) /\
  (forall r, fst (finish_conditional (map (single_branch a) branches) (<[a := r]> st)
                    subs svars props dims suffix out) = Err AssertionError) /\
  (forall lhs rhs l ps, get_piecewise lhs rhs = Ok (l, ps) ->
     exists pieces e, ps = (pieces ++ [(e, GTrue)])%list /\
                      Forall (fun p => snd p <> GTrue) pieces).
Proof.
  intros Hne Hlast Ha Hst. split; [|split].
  - rewrite finish_single by done. unfold mbind at 1.
    rewrite common_loop_single_none by done. unfold mret. eexists. reflexivity.
  - intros r. rewrite finish_single by done. unfold mbind at 1.
    rewrite (common_loop_single_some _ _ _ _ _ _ _ _ _ _ _ r); [done|done|].
    apply lookup_insert_eq.
  - apply get_piecewise_one_otherwise.
Qed.

Lemma finish_conditional_else_piecewise_witness :
  let branches : list (string * string) := [("c", "1"); ("True", "2")] in
  (exists subs',
     finish_conditional (map (single_branch "a") branches) ∅ ∅ ∅ ∅ ∅ "" [] =
     (Ok (<["a" := SPieces (map piece_of_branch branches)]> ∅, subs', ∅), [])) /\
  (forall r, fst (finish_conditional (map (single_branch "a") branches)
                    (<["a" := r]> ∅) ∅ ∅ ∅ ∅ "" []) = Err AssertionError) /\
  (forall lhs rhs l ps, get_piecewise lhs rhs = Ok (l, ps) ->
     exists pieces e, ps = (pieces ++ [(e, GTrue)])%list /\
                      Forall (fun p => snd p <> GTrue) pieces).
Proof.
  apply (finish_conditional_else_piecewise "a" [("c", "1"); ("True", "2")]
           ∅ ∅ ∅ ∅ ∅ "" []); [discriminate | reflexivity | reflexivity | reflexivity].
Defined.

(* ------------------------------------------------------------------ *)
(** ** Facts about the constructor *)

Section ImporterFacts.

Context {B V A T R : Type}.
Context (work : string -> list (option B) -> @members A T R ->
               outcome unit (@members A T R)).
Context (phase1 : string -> option B -> R -> outcome (list (string * V)) R).
Context (get_alias : string -> V -> res A).
Context (nr_record : list (string * V) -> @members A T R ->
                     outcome unit (@members A T R)).

Local Abbreviation imp := (@importer B A T R).
Local Abbreviation mem := (@members A T R).
Local Abbreviation stage1 := (run_stage work phase1 get_alias nr_record).
Local Abbreviation stages := (run_stages work phase1 get_alias nr_record).
Local Abbreviation init := (nmodl_init work phase1 get_alias nr_record).

Lemma pop_keys_other (keys : list (string * bool)) (bs bs' : gmap string B)
  (vs : list (option B)) (k : string) :
  pop_keys keys bs = Ok (vs, bs') -> k ∉ map fst keys -> bs' !! k = bs !! k.
Proof.
  revert bs vs. induction keys as [|[k' req] keys IH]; intros bs vs H Hk.
  - simpl in H. by injection H as _ <-.
  - simpl in H, Hk. apply not_elem_of_cons in Hk as [Hne Hk].
    destruct (req && _); [done|].
    destruct (pop_keys keys (delete k' bs)) as [[vs' bs'']|] eqn:E; [|done].
    injection H as _ <-. rewrite (IH _ _ E Hk). by apply lookup_delete_ne.
Qed.

Lemma catch_import_blocks (warn : string -> string) (bs : gmap string B)
  (s s' : imp) (o : outcome unit mem) :
  catch_import warn bs s o = Ok s' -> blocks s' = bs.
Proof.
  destruct o as [? m|e m]; simpl; [by intros [= <-]|].
  destruct e; try done. by intros [= <-].
Qed.

Lemma run_stage_other (st : stage) (s s' : imp) (k : string) :
  stage1 st s = Ok s' -> k ∉ stage_keys st -> blocks s' !! k = blocks s !! k.
Proof.
  intros H Hk. destruct st as [name keys| |]; simpl in H, Hk.
  - destruct (pop_keys keys (blocks s)) as [[vs bs]|] eqn:E; [|done].
    destruct (work name vs (mems s)); [|done]. injection H as <-. simpl.
    exact (pop_keys_other _ _ _ _ _ E Hk).
  - apply catch_import_blocks in H. rewrite H. apply lookup_delete_ne. set_solver.
  - destruct (blocks s !! "NET_RECEIVE").
    + apply catch_import_blocks in H. rewrite H. apply lookup_delete_ne. set_solver.
    + injection H as <-. simpl. apply lookup_delete_ne. set_solver.
Qed.

Lemma run_stages_other (sts : list stage) (s s' : imp) (k : string) :
  stages sts s = Ok s' -> k ∉ List.concat (map stage_keys sts) ->
  blocks s' !! k = blocks s !! k.
Proof.
  revert s. induction sts as [|st sts IH]; intros s H Hk; simpl in *.
  - by injection H as <-.
  - destruct (stage1 st s) as [s1|] eqn:E; [|done].
    rewrite elem_of_app in Hk.
    rewrite (IH _ H); [|tauto]. apply (run_stage_other st); [done|tauto].
Qed.

Lemma run_stages_creation (s s' : imp) :
  stages creation_stages s = Ok s' -> blocks s' = blocks s.
Proof.
  intros H. apply map_eq. intros k. apply (run_stages_other _ _ _ _ H).
  simpl. set_solver.
Qed.

Lemma run_stages_app (sts1 sts2 : list stage) (s : imp) :
  stages (sts1 ++ sts2) s =
  match stages sts1 s with Ok s1 => stages sts2 s1 | Err e => Err e end.
Proof.
  revert s. induction sts1 as [|st sts1 IH]; intros s; [done|]. simpl.
  destruct (stage1 st s); [apply IH|done].
Qed.

(** C3: when the constructor returns, no parsed top-level block is left:
    every block name is popped by exactly one extractor, and a block that
    no extractor pops makes the import fail; when the extractors all
    succeed, it fails at the completeness check [assert not self.blocks]. *)
Theorem nmodl_init_consumes_all_blocks (bs : gmap string B) (m0 : mem) :
  (forall s, init bs m0 = Ok s -> blocks s = ∅) /\
  NoDup popped_keys /\
  (forall k b, bs !! k = Some b -> k ∉ popped_keys ->
     (forall s, init bs m0 <> Ok s) /\
     (forall s1, stages extraction_stages (mk_importer bs m0 [] false) = Ok s1 ->
                 init bs m0 = Err AssertionError)).
Proof.
  split; [|split].
  - intros s. unfold nmodl_init.
    destruct (stages extraction_stages _) as [s1|]; [|done].
    unfold check_blocks. destruct (decide (blocks s1 = ∅)) as [He|]; [|done].
    intros H. rewrite (run_stages_creation _ _ H). exact He.
  - apply (bool_decide_unpack _). vm_compute. reflexivity.
  - intros k b Hk Hnot.
    assert (Hs1 : forall s1, stages extraction_stages (mk_importer bs m0 [] false) = Ok s1 ->
                  init bs m0 = Err AssertionError).
    { intros s1 H1. unfold nmodl_init. rewrite H1. unfold check_blocks.
      destruct (decide (blocks s1 = ∅)) as [He|]; [|done].
      pose proof (run_stages_other _ _ _ k H1 Hnot) as Hl.
      rewrite He in Hl. simpl in Hl. rewrite lookup_empty, Hk in Hl. done. }
    split; [|exact Hs1].
    intros s. destruct (stages extraction_stages (mk_importer bs m0 [] false)) as [s1|e] eqn:E.
    + by rewrite (Hs1 s1 eq_refl).
    + unfold nmodl_init. by rewrite E.
Qed.

(** C4: an import error raised while the BREAKPOINT or the NET_RECEIVE
    block is read is caught: the block is consumed, the warning is
    appended to the end of [warnings], [incomplete_import] becomes true,
    the aliases and the transitions ([net_receives]) are left as they
    were, and the construction goes on with the next stage.  Any other
    error there propagates; every other stage of the constructor is an
    ordinary one, and an error raised by one of them ends the
    construction with that error. *)
Theorem nmodl_init_downgrades_breakpoint_netreceive :
  (forall (s : imp) msg r,
     phase1 "breakpoint" (blocks s !! "BREAKPOINT") (other (mems s)) =
       Raised (ImportError msg) r ->
     stage1 Breakpoint s =
       Ok (mk_importer (delete "BREAKPOINT" (blocks s)) (with_other (mems s) r)
                       (warnings s ++ [bp_warning msg])%list true)) /\
  (forall (s : imp) b msg r,
     blocks s !! "NET_RECEIVE" = Some b ->
     phase1 "netreceive" (Some b) (other (mems s)) = Raised (ImportError msg) r ->
     stage1 NetReceive s =
       Ok (mk_importer (delete "NET_RECEIVE" (blocks s)) (with_other (mems s) r)
                       (warnings s ++ [nr_warning msg])%list true)) /\
  (forall (s : imp) e r,
     is_import_error e = false ->
     (phase1 "breakpoint" (blocks s !! "BREAKPOINT") (other (mems s)) = Raised e r ->
      stage1 Breakpoint s = Err e) /\
     (forall b, blocks s !! "NET_RECEIVE" = Some b ->
      phase1 "netreceive" (Some b) (other (mems s)) = Raised e r ->
      stage1 NetReceive s = Err e)) /\
  (forall (s1 s2 : imp) sts, stage1 Breakpoint s1 = Ok s2 ->
     stages (Breakpoint :: sts) s1 = stages sts s2) /\
  List.filter (fun st => match st with Plain _ _ => false | _ => true end)
    (extraction_stages ++ creation_stages)%list = [Breakpoint; NetReceive] /\
  (forall (s : imp) name keys vs bs' e m,
     pop_keys keys (blocks s) = Ok (vs, bs') -> work name vs (mems s) = Raised e m ->
     stage1 (Plain name keys) s = Err e) /\
  (forall bs m0 pre st post s1 e,
     extraction_stages = (pre ++ st :: post)%list ->
     stages pre (mk_importer bs m0 [] false) = Ok s1 -> stage1 st s1 = Err e ->
     init bs m0 = Err e) /\
  (forall bs m0 pre st post s1 s2 e,
     creation_stages = (pre ++ st :: post)%list ->
     stages extraction_stages (mk_importer bs m0 [] false) = Ok s1 ->
     blocks s1 = ∅ ->
     stages pre s1 = Ok s2 -> stage1 st s2 = Err e ->
     init bs m0 = Err e).
Proof.
  split; [|split; [|split; [|split; [|split; [|split; [|split]]]]]].
  - intros s msg r H. simpl. rewrite H. reflexivity.
  - intros s b msg r Hb H. simpl. rewrite Hb, H. reflexivity.
  - intros s e r He. split.
    + intros H. simpl. rewrite H. destruct e; done.
    + intros b Hb H. simpl. rewrite Hb, H. destruct e; done.
  - intros s1 s2 sts H. cbn [run_stages]. rewrite H. reflexivity.
  - reflexivity.
  - intros s name keys vs bs' e m Hp Hw. simpl. rewrite Hp, Hw. reflexivity.
  - intros bs m0 pre st post s1 e Hsplit Hpre Hst. unfold nmodl_init.
    rewrite Hsplit, run_stages_app, Hpre. cbn [run_stages]. rewrite Hst. reflexivity.
  - intros bs m0 pre st post s1 s2 e Hsplit Hx He Hpre Hst. unfold nmodl_init.
    rewrite Hx. unfold check_blocks. rewrite decide_True by done.
    rewrite Hsplit, run_stages_app, Hpre. cbn [run_stages]. rewrite Hst. reflexivity.
Qed.

End ImporterFacts.

(* ------------------------------------------------------------------ *)
(** ** Regimes *)

Section RegimeFacts.
Context {TD : Type} (alias_assignments : Z -> receive -> res (list (string * string))).
Local Abbreviation ftrans := (flag_transitions alias_assignments).
Local Abbreviation alltrans := (all_transitions alias_assignments).

Lemma add_transitions_keep kxs (rt rt' : gmap Z (list transition)) k l :
  add_transitions kxs rt = Ok rt' -> rt !! k = Some l -> exists l', rt' !! k = Some (l ++ l')%list.
Proof.
  revert rt l. induction kxs as [|[k0 x0] kxs IH]; intros rt l H Hk; simpl in H.
  - injection H as <-. exists []. by rewrite app_nil_r.
  - unfold add_transition in H. destruct (rt !! k0) as [l0|] eqn:E0; [|done].
    destruct (decide (k = k0)) as [->|Hne].
    + rewrite Hk in E0. injection E0 as <-.
      destruct (IH _ (l ++ [x0])%list H) as [l' Hl']; [apply lookup_insert_eq|].
      exists ([x0] ++ l')%list. by rewrite app_assoc.
    + apply (IH _ l H). by rewrite lookup_insert_ne.
Qed.

Lemma add_transitions_dom kxs (rt rt' : gmap Z (list transition)) k :
  add_transitions kxs rt = Ok rt' -> is_Some (rt' !! k) -> is_Some (rt !! k).
Proof.
  revert rt. induction kxs as [|[k0 x0] kxs IH]; intros rt H Hk; simpl in H.
  - by injection H as <-.
  - unfold add_transition in H. destruct (rt !! k0) as [l0|] eqn:E0; [|done].
    apply IH in H; [|done]. destruct (decide (k = k0)) as [->|Hne]; [by eexists|].
    by rewrite lookup_insert_ne in H.
Qed.

Lemma add_transitions_in kxs (rt rt' : gmap Z (list transition)) k x :
  add_transitions kxs rt = Ok rt' -> (k, x) ∈ kxs -> exists l, rt' !! k = Some l /\ x ∈ l.
Proof.
  revert rt. induction kxs as [|[k0 x0] kxs IH]; intros rt H Hin; [by apply elem_of_nil in Hin|].
  simpl in H. unfold add_transition in H. destruct (rt !! k0) as [l0|] eqn:E0; [|done].
  apply elem_of_cons in Hin as [[= Hk0 Hx0]|Hin]; [subst k0 x0|].
  - destruct (add_transitions_keep _ _ _ k (l0 ++ [x])%list H) as [l' Hl']; [apply lookup_insert_eq|].
    exists ((l0 ++ [x]) ++ l')%list. split; [done|]. set_solver.
  - exact (IH _ H Hin).
Qed.

Lemma all_transitions_keep nr trig frs (rt rt' : gmap Z (list transition)) k l :
  alltrans nr trig frs rt = Ok rt' -> rt !! k = Some l -> exists l', rt' !! k = Some (l ++ l')%list.
Proof.
  revert rt l. induction frs as [|[f r] frs IH]; intros rt l H Hk; simpl in H.
  - injection H as <-. exists []. by rewrite app_nil_r.
  - destruct (ftrans nr trig f r) as [kxs|]; [|done].
    destruct (add_transitions kxs rt) as [rt1|] eqn:E1; [|done].
    destruct (add_transitions_keep _ _ _ _ _ E1 Hk) as [l1 Hl1].
    destruct (IH _ _ H Hl1) as [l2 Hl2]. exists (l1 ++ l2)%list. by rewrite app_assoc.
Qed.

Lemma all_transitions_dom nr trig frs (rt rt' : gmap Z (list transition)) k :
  alltrans nr trig frs rt = Ok rt' -> is_Some (rt' !! k) -> is_Some (rt !! k).
Proof.
  revert rt. induction frs as [|[f r] frs IH]; intros rt H Hk; simpl in H.
  - by injection H as <-.
  - destruct (ftrans nr trig f r) as [kxs|]; [|done].
    destruct (add_transitions kxs rt) as [rt1|] eqn:E1; [|done].
    exact (add_transitions_dom _ _ _ _ E1 (IH _ H Hk)).
Qed.

Lemma all_transitions_in nr trig frs (rt rt' : gmap Z (list transition)) f r kxs k x :
  alltrans nr trig frs rt = Ok rt' -> (f, r) ∈ frs -> ftrans nr trig f r = Ok kxs ->
  (k, x) ∈ kxs -> exists l, rt' !! k = Some l /\ x ∈ l.
Proof.
  revert rt. induction frs as [|[f0 r0] frs IH]; intros rt H Hin Hf Hk; [by apply elem_of_nil in Hin|].
  simpl in H. destruct (ftrans nr trig f0 r0) as [kxs0|] eqn:Ef0; [|done].
  destruct (add_transitions kxs0 rt) as [rt1|] eqn:E1; [|done].
  apply elem_of_cons in Hin as [[= Hf0 Hr0]|Hin]; [subst f0 r0|].
  - rewrite Hf in Ef0. injection Ef0 as <-.
    destruct (add_transitions_in _ _ _ _ _ E1 Hk) as [l [Hl Hx]].
    destruct (all_transitions_keep _ _ _ _ _ _ _ H Hl) as [l' Hl'].
    exists (l ++ l')%list. split; [done|]. set_solver.
  - exact (IH _ H Hin Hf Hk).
Qed.
End RegimeFacts.

Lemma index_of_nth x l : x ∈ l -> nth_error l (index_of x l) = Some x.
Proof.
  induction l as [|y l IH]; intros Hin; [by apply elem_of_nil in Hin|].
  simpl. destruct (Z.eqb_spec x y) as [->|Hne]; [done|].
  apply elem_of_cons in Hin as [->|Hin]; [done|]. simpl. by apply IH.
Qed.

Lemma index_of_inj x y l : x ∈ l -> y ∈ l -> index_of x l = index_of y l -> x = y.
Proof.
  intros Hx Hy Heq. apply index_of_nth in Hx, Hy. rewrite Heq in Hx. congruence.
Qed.

Lemma regime_name_inj flags x y :
  x ∈ flags -> y ∈ flags -> regime_name flags x = regime_name flags y -> x = y.
Proof.
  unfold regime_name. intros Hx Hy Heq.
  apply (inj (String.app "regime_")) in Heq. apply (inj pretty) in Heq.
  pose proof (merge_sort_Permutation Z.le flags) as Hp.
  apply (index_of_inj x y (merge_sort Z.le flags)); [| |done].
  - by rewrite Hp.
  - by rewrite Hp.
Qed.

Lemma sorted_head_min (h : Z) t : StronglySorted Z.le (h :: t) -> forall z, z ∈ h :: t -> (h <= z)%Z.
Proof.
  intros Hs z Hz. apply StronglySorted_inv in Hs as [_ Hall].
  apply elem_of_cons in Hz as [->|Hz]; [lia|].
  rewrite Forall_forall in Hall. apply Hall. first [exact Hz | by apply list_elem_of_In].
Qed.

Lemma regime_name_default flags :
  (-1)%Z ∈ flags -> (forall z, z ∈ flags -> z = (-1)%Z \/ (0 <= z)%Z) ->
  regime_name flags (-1) = "regime_0".
Proof.
  intros Hin Hge. unfold regime_name.
  pose proof (merge_sort_Permutation Z.le flags) as Hp.
  pose proof (StronglySorted_merge_sort Z.le flags) as Hs.
  destruct (merge_sort Z.le flags) as [|h t] eqn:E.
  - apply Permutation_nil in Hp. subst. by apply elem_of_nil in Hin.
  - assert (h = (-1)%Z) as ->.
    { assert (h ∈ flags) as Hh by (rewrite <- Hp; left).
      assert ((-1)%Z ∈ h :: t) as Hm by (by rewrite Hp).
      pose proof (sorted_head_min h t Hs _ Hm). destruct (Hge h Hh); lia. }
    cbn [index_of]. rewrite Z.eqb_refl. reflexivity.
Qed.

Lemma fmap_as_map {A B} (f : A -> B) (l : list A) : f <$> l = map f l.
Proof. induction l as [|x l IH]; [done|]. cbn. by rewrite <- IH. Qed.

Lemma in_list_filter {A} (p : A -> bool) x l : x ∈ List.filter p l <-> p x = true /\ x ∈ l.
Proof. rewrite !list_elem_of_In, filter_In. tauto. Qed.

Lemma in_list_map {A B} (f : A -> B) y l : y ∈ map f l <-> exists x, y = f x /\ x ∈ l.
Proof.
  rewrite list_elem_of_In, in_map_iff. split.
  - intros [x [<- Hx]]. exists x. split; [done|]. by apply list_elem_of_In.
  - intros [x [-> Hx]]. exists x. split; [done|]. by apply list_elem_of_In.
Qed.

Lemma regime_flags_default nr : (-1)%Z ∈ regime_flags nr.
Proof. left. Qed.

Lemma regime_flags_range (nr : gmap Z receive) :
  (forall f r, nr !! f = Some r -> (0 <= f)%Z) ->
  forall z, z ∈ regime_flags nr -> z = (-1)%Z \/ (0 <= z)%Z.
Proof.
  intros Hnr z Hz. apply elem_of_cons in Hz as [->|Hz]; [by left|right].
  apply in_list_map in Hz as [[f r] [-> Hin]].
  apply in_list_filter in Hin as [_ Hin]. apply elem_of_map_to_list in Hin.
  exact (Hnr _ _ Hin).
Qed.

Lemma regime_flags_delayed (nr : gmap Z receive) f r :
  nr !! f = Some r -> is_Some (nr_delay r) -> f ∈ regime_flags nr.
Proof.
  intros Hf Hd. right. apply in_list_map. exists (f, r). split; [done|].
  apply in_list_filter. split; [by apply bool_decide_eq_true|].
  by apply elem_of_map_to_list.
Qed.

Lemma empty_table_dom (flags : list Z) k l :
  (list_to_map (map (fun f => (f, [])) flags) : gmap Z (list transition)) !! k = Some l -> k ∈ flags.
Proof.
  intros H. apply elem_of_list_to_map_2 in H.
  apply in_list_map in H as [f [[= -> _] Hf]]. done.
Qed.

Lemma regimes_lookup {TD} (flags : list Z) (tds : list TD) (rt : gmap Z (list transition)) k l :
  (forall k' l', rt !! k' = Some l' -> k' ∈ flags) -> rt !! k = Some l ->
  (list_to_map (map (fun ft => (regime_name flags (fst ft),
                                mk_regime (regime_name flags (fst ft)) tds (snd ft)))
                    (map_to_list rt)) : gmap string regime) !! regime_name flags k
  = Some (mk_regime (regime_name flags k) tds l).
Proof.
  intros Hdom Hk. apply elem_of_list_to_map_1.
  - replace ((map _ (map_to_list rt)).*1) with (regime_name flags <$> (map_to_list rt).*1).
    2:{ rewrite !fmap_as_map, !map_map. reflexivity. }
    apply NoDup_fmap_2_strong; [|apply NoDup_fst_map_to_list].
    intros x y Hx Hy Heq. apply (regime_name_inj flags); [| |done].
    + apply list_elem_of_fmap in Hx as [[x' lx] [-> Hx]].
      apply elem_of_map_to_list in Hx. exact (Hdom _ _ Hx).
    + apply list_elem_of_fmap in Hy as [[y' ly] [-> Hy]].
      apply elem_of_map_to_list in Hy. exact (Hdom _ _ Hy).
  - apply in_list_map. exists (k, l). split; [done|]. by apply elem_of_map_to_list.
Qed.

(** C5 (counterexample).  [net_send(5, 1)] under flag 0 with a flag-1
    handler: the non-default regime [regime_1] is the regime of flag 0,
    the origin of the delayed event, and it is entered from [regime_0] by
    the untimed [incoming_spike] event (which sets [last_transition]).  The
    timed transition [t > (last_transition + 5)] leaves [regime_1] and
    leads back to the default [regime_0]: the target flag 1 gets no regime
    of its own and no timed transition enters a non-default regime. *)
Lemma C5_counterexample :
  create_regimes (TD := string) (fun _ _ => Ok []) [] None ∅ false ex_nr =
  Ok (<["regime_0" := mk_regime "regime_0" []
          [mk_transition (OnEv "incoming_spike") [("last_transition", "t")] [] "regime_1"]]>
      {["regime_1" := mk_regime "regime_1" []
          [mk_transition (OnCond "t > (last_transition + 5)") [("x", "x + 1")] [] "regime_0"]]}).
Proof. vm_compute. reflexivity. Qed.

Lemma pop_initial_sub initial_flag has_warnings (nr0 nr : gmap Z receive) :
  pop_initial initial_flag has_warnings nr0 = Ok nr ->
  forall f r, nr !! f = Some r -> nr0 !! f = Some r.
Proof.
  intros Hp f r H. destruct initial_flag as [f0|]; simpl in Hp; [|by injection Hp as <-].
  destruct (nr0 !! f0) as [r0|].
  - destruct (_ && _); [|done]. injection Hp as <-.
    by apply lookup_delete_Some in H as [_ H].
  - destruct has_warnings; [by injection Hp as <-|done].
Qed.

Lemma create_regimes_popped {TD : Type} alias_assignments
  (regime_parts : list (string * list TD)) initial_flag triggers has_warnings
  (nr0 nr : gmap Z receive) regs :
  create_regimes alias_assignments regime_parts initial_flag triggers has_warnings nr0 = Ok regs ->
  pop_initial initial_flag has_warnings nr0 = Ok nr ->
  create_regimes alias_assignments regime_parts None triggers has_warnings nr = Ok regs.
Proof.
  unfold create_regimes. intros Hc Hp. destruct (1 <? _)%nat; [done|].
  destruct initial_flag as [f0|]; [destruct (bool_decide _); [done|]|];
    rewrite Hp in Hc; exact Hc.
Qed.

Section RegimeThm.
Context {TD : Type} (alias_assignments : Z -> receive -> res (list (string * string))).

Lemma flag_transitions_targets nr trig G rG kxs k x :
  flag_transitions alias_assignments nr trig G rG = Ok kxs -> (k, x) ∈ kxs ->
  exists extra, alias_assignments G rG = Ok extra /\
    tr_assignments x = (map_to_list (nr_assignments rG) ++ extra)%list /\
    tr_target x = (if delay_truthy (nr_delay rG) then regime_name (regime_flags nr) G
                   else "regime_0").
Proof.
  unfold flag_transitions. destruct (alias_assignments G rG) as [extra|]; [|done].
  intros [= <-] Hin. exists extra. split; [done|].
  apply elem_of_app in Hin as [Hin|Hin]; [|apply elem_of_app in Hin as [Hin|Hin]].
  - apply in_list_map in Hin as [fd [[= _ ->] _]]. done.
  - apply in_list_map in Hin as [t [[= _ ->] _]]. done.
  - destruct (Z.eqb G 0); [|by apply elem_of_nil in Hin].
    apply list_elem_of_singleton in Hin as [= _ ->]. done.
Qed.

Lemma flag_transitions_timed nr trig G rG extra F rF :
  alias_assignments G rG = Ok extra -> nr !! F = Some rF -> nr_target rF = G ->
  exists kxs, flag_transitions alias_assignments nr trig G rG = Ok kxs /\
    (F, mk_transition (OnCond (timed_trigger (nr_delay rF)))
                      (map_to_list (nr_assignments rG) ++ extra)%list (nr_events rG)
                      (if delay_truthy (nr_delay rG) then regime_name (regime_flags nr) G
                       else "regime_0")) ∈ kxs.
Proof.
  intros Ha HF Ht. unfold flag_transitions. rewrite Ha. eexists. split; [reflexivity|].
  apply elem_of_app. left. apply in_list_map. exists (F, nr_delay rF). split; [done|].
  apply in_list_map. exists (F, rF). split; [done|].
  apply in_list_filter. split; [by apply Z.eqb_eq|]. by apply elem_of_map_to_list.
Qed.

(** C5 (amended).  With the handlers of [nr0] at non-negative flags and
    [nr] the handlers left once the handler of the INITIAL [net_send]
    flag (if any) is removed, for a flag [F] of [nr] whose handler makes a
    delayed [net_send] (non-empty delay):
    the regime named after [F] exists and is not the default [regime_0]
    (the regime of flag -1); it holds the transition guarded by
    [t > (last_transition + delay)] with the assignments and events of the
    target's handler, leading to the target's regime ([regime_0] when the
    target's handler has no delay); every transition that enters [F]'s
    regime is made for [F]'s own handler and carries its state assignments,
    so [last_transition = t] when the handler sets it; and a handler that
    schedules an event sets [last_transition] to [t], the state variable
    [last_transition] being added with dimension time if absent. *)
Theorem create_regimes_delayed_flag (regime_parts : list (string * list TD))
    initial_flag triggers has_warnings (nr0 nr : gmap Z receive) regs F rF :
  create_regimes alias_assignments regime_parts initial_flag triggers has_warnings nr0 = Ok regs ->
  pop_initial initial_flag has_warnings nr0 = Ok nr ->
  (forall f r, nr0 !! f = Some r -> (0 <= f)%Z) ->
  nr !! F = Some rF -> delay_truthy (nr_delay rF) = true ->
  let flags := regime_flags nr in
  (* a distinct non-default regime for the delaying flag [F] *)
  regime_name flags (-1) = "regime_0" /\ regime_name flags F <> "regime_0" /\
  is_Some (regs !! regime_name flags F) /\
  (* the timed transition lives in [F]'s regime and leads to the target's regime *)
  (forall rG extra, nr !! nr_target rF = Some rG ->
     alias_assignments (nr_target rF) rG = Ok extra ->
     exists rg, regs !! regime_name flags F = Some rg /\
       mk_transition (OnCond (timed_trigger (nr_delay rF)))
                     (map_to_list (nr_assignments rG) ++ extra)%list (nr_events rG)
                     (if delay_truthy (nr_delay rG) then regime_name flags (nr_target rF)
                      else "regime_0") ∈ rg_transitions rg) /\
  (* every transition entering [F]'s regime is made for [F]'s handler *)
  (forall G rG kxs k x, nr !! G = Some rG ->
     flag_transitions alias_assignments nr triggers G rG = Ok kxs -> (k, x) ∈ kxs ->
     tr_target x = regime_name flags F ->
     G = F /\ exists extra, alias_assignments F rF = Ok extra /\
       tr_assignments x = (map_to_list (nr_assignments rF) ++ extra)%list /\
       (nr_assignments rF !! "last_transition" = Some "t" ->
        ("last_transition", "t") ∈ tr_assignments x)) /\
  (* a handler that schedules an event sets [last_transition] to [t], and
     the state variable [last_transition] exists afterwards, of dimension
     time unless it was already declared *)
  (forall target delay args assignments aliases events svars,
     target <> (-1)%Z ->
     let p := finish_receive target delay args assignments aliases events svars in
     nr_assignments (fst p) !! "last_transition" = Some "t" /\
     snd p !! "last_transition" = Some (default "time" (svars !! "last_transition"))).
Proof.
  intros Hc Hpop Hnn0 HF Hd flags.
  assert (Hnn : forall f r, nr !! f = Some r -> (0 <= f)%Z)
    by (intros f r H; exact (Hnn0 f r (pop_initial_sub _ _ _ _ Hpop f r H))).
  apply (create_regimes_popped _ _ _ _ _ _ _ _ Hc) in Hpop. clear Hc. rename Hpop into Hc.
  assert (Hdel : is_Some (nr_delay rF)) by (destruct (nr_delay rF); [by eexists|done]).
  assert (HFin : F ∈ flags) by exact (regime_flags_delayed nr F rF HF Hdel).
  assert (Hdef : regime_name flags (-1) = "regime_0")
    by exact (regime_name_default flags (regime_flags_default nr) (regime_flags_range nr Hnn)).
  assert (Hnd : regime_name flags F <> "regime_0").
  { intros Heq. rewrite <- Hdef in Heq.
    apply (regime_name_inj flags) in Heq; [|done|apply regime_flags_default].
    subst F. by pose proof (Hnn _ _ HF). }
  unfold create_regimes in Hc.
  destruct (1 <? List.length regime_parts)%nat; [done|].
  cbv beta iota zeta in Hc. unfold pop_initial in Hc. cbv beta iota zeta in Hc.
  destruct (all_transitions alias_assignments nr triggers (map_to_list nr) _) as [rt|] eqn:Ert;
    [|done].
  injection Hc as <-. fold flags in Ert |- *.
  set (tds := match regime_parts with (_, t) :: _ => t | [] => [] end).
  assert (Hdom : forall k l, rt !! k = Some l -> k ∈ flags).
  { intros k l Hk. destruct (all_transitions_dom _ _ _ _ _ _ k Ert) as [l0 Hl0];
      [by eexists|]. exact (empty_table_dom _ _ _ Hl0). }
  assert (HrtF : is_Some (rt !! F)).
  { destruct ((list_to_map (map (fun f => (f, [])) flags) : gmap Z (list transition)) !! F)
      as [l0|] eqn:E0.
    - destruct (all_transitions_keep _ _ _ _ _ _ _ _ Ert E0) as [l' Hl']. by eexists.
    - exfalso. apply not_elem_of_list_to_map_2 in E0. apply E0.
      rewrite fmap_as_map, map_map. cbn. by rewrite map_id. }
  split; [done|]. split; [done|]. split; [|split; [|split]].
  - destruct HrtF as [l Hl]. rewrite (regimes_lookup flags tds rt F l Hdom Hl). by eexists.
  - intros rG extra HG Ha.
    destruct (flag_transitions_timed nr triggers _ rG extra F rF Ha HF eq_refl)
      as [kxs [Hk Hin]].
    assert (HGin : (nr_target rF, rG) ∈ map_to_list nr) by (by apply elem_of_map_to_list).
    destruct (all_transitions_in _ _ _ _ _ _ _ _ _ _ _ Ert HGin Hk Hin) as [l [Hl Hx]].
    rewrite (regimes_lookup flags tds rt F l Hdom Hl). eexists. split; [done|]. exact Hx.
  - intros G rG kxs k x HG Hk Hin Ht.
    destruct (flag_transitions_targets _ _ _ _ _ _ _ Hk Hin) as [extra [Ha [Has Htg]]].
    fold flags in Htg. rewrite Ht in Htg.
    destruct (delay_truthy (nr_delay rG)) eqn:EG; [|done].
    assert (G = F) as ->.
    { apply (regime_name_inj flags); [| |done].
      - apply (regime_flags_delayed nr G rG HG). destruct (nr_delay rG); [by eexists|done].
      - done. }
    rewrite HF in HG. injection HG as <-. split; [done|]. exists extra.
    split; [done|]. split; [done|]. intros Hlt. rewrite Has.
    apply elem_of_app. left. by apply elem_of_map_to_list.
  - intros target delay args assignments aliases events svars Ht p. subst p.
    unfold finish_receive. rewrite bool_decide_eq_false_2 by done. cbn.
    split; [apply lookup_insert_eq|].
    destruct (svars !! "last_transition") as [d|] eqn:E.
    + rewrite bool_decide_eq_true_2 by (by eexists). exact E.
    + rewrite bool_decide_eq_false_2 by apply is_Some_None. apply lookup_insert_eq.
Qed.
End RegimeThm.

Lemma create_regimes_delayed_flag_witness :
  regime_name (regime_flags ex_nr) 0 = "regime_1" /\
  ex_regimes !! "regime_1" = Some (mk_regime "regime_1" []
      [mk_transition (OnCond "t > (last_transition + 5)") [("x", "x + 1")] [] "regime_0"]) /\
  regime_name (regime_flags ex_nr) 0 <> "regime_0" /\
  is_Some (ex_regimes !! regime_name (regime_flags ex_nr) 0).
Proof.
  destruct (create_regimes_delayed_flag (fun _ _ => Ok []) [] None ∅ false ex_nr ex_nr
              ex_regimes 0 ex_r0) as (_ & H1 & H2 & _).
  - vm_compute. reflexivity.
  - reflexivity.
  - intros f r H. unfold ex_nr in H.
    apply lookup_insert_Some in H as [[<- _]|[_ H]]; [lia|].
    apply lookup_singleton_Some in H as [<- _]. lia.
  - reflexivity.
  - reflexivity.
  - split; [vm_compute; reflexivity|]. split; [vm_compute; reflexivity|]. by split.
Defined.

Section DerivativeBlocks.
Context {TD : Type} (alias_assignments : Z -> receive -> res (list (string * string))).

(** C7.  More than one DERIVATIVE block makes [_create_regimes] raise
    [NotImplementedError].  With zero or one block the result is the
    result for zero blocks with the time derivatives of that block (an
    empty list for none) in every regime, so the block adds no failure of
    its own; every regime created has those time derivatives, and without
    handlers and initial flag the default regime [regime_0] is created. *)
Theorem create_regimes_derivative_blocks (regime_parts : list (string * list TD))
    initial_flag triggers has_warnings nr0 :
  ((1 < List.length regime_parts)%nat ->
   create_regimes alias_assignments regime_parts initial_flag triggers has_warnings nr0
   = Err NotImplementedError) /\
  ((List.length regime_parts <= 1)%nat ->
   let tds := match regime_parts with (_, t) :: _ => t | [] => [] end in
   create_regimes alias_assignments regime_parts initial_flag triggers has_warnings nr0
   = set_time_derivatives tds
       (create_regimes alias_assignments [] initial_flag triggers has_warnings nr0) /\
   (forall regs,
      create_regimes alias_assignments regime_parts initial_flag triggers has_warnings nr0
      = Ok regs -> map_Forall (fun _ rg => rg_time_derivatives rg = tds) regs) /\
   create_regimes alias_assignments regime_parts None triggers has_warnings ∅
   = Ok {["regime_0" := mk_regime "regime_0" tds []]}).
Proof.
  split.
  - intros H. unfold create_regimes. apply Nat.ltb_lt in H. by rewrite H.
  - intros H tds.
    assert (Hlt : (1 <? List.length regime_parts)%nat = false) by (apply Nat.ltb_ge; lia).
    assert (Heq : create_regimes alias_assignments regime_parts initial_flag triggers
                    has_warnings nr0
                  = set_time_derivatives tds
                      (create_regimes alias_assignments [] initial_flag triggers
                         has_warnings nr0)).
    { unfold create_regimes. rewrite Hlt. cbn [List.length Nat.ltb Nat.leb].
      fold tds.
      destruct (match initial_flag with Some f => _ | None => false end); [done|].
      destruct (pop_initial initial_flag has_warnings nr0) as [nr|]; [|done].
      destruct (all_transitions _ _ _ _ _) as [rt|]; [|done]. cbn.
      f_equal.
      rewrite <- (list_to_map_fmap (M := gmap string)).
      f_equal.
      induction (map_to_list rt) as [|[k l] t IH]; [done|]. cbn. by rewrite IH. }
    split; [exact Heq|]. split.
    + intros regs Hr. rewrite Heq in Hr.
      destruct (create_regimes alias_assignments [] _ _ _ _) as [regs0|]; [|done].
      injection Hr as <-. apply map_Forall_lookup. intros i rg Hi.
      apply lookup_fmap_Some in Hi as [rg0 [<- _]]. done.
    + unfold create_regimes. rewrite Hlt. fold tds. vm_compute. reflexivity.
Qed.
End DerivativeBlocks.

Lemma create_regimes_derivative_blocks_witness :
  create_regimes (fun _ _ => Ok []) [("a", ["dx/dt = 1"]); ("b", ["dy/dt = 1"])] None ∅ false ∅
  = Err NotImplementedError /\
  create_regimes (fun _ _ => Ok []) [("a", ["dx/dt = 1"])] None ∅ false ∅
  = Ok {["regime_0" := mk_regime "regime_0" ["dx/dt = 1"] []]}.
Proof.
  split.
  - apply (create_regimes_derivative_blocks (fun _ _ => Ok [])
             [("a", ["dx/dt = 1"]); ("b", ["dy/dt = 1"])] None ∅ false ∅).
    simpl. lia.
  - apply (create_regimes_derivative_blocks (fun _ _ => Ok [])
             [("a", ["dx/dt = 1"])] None ∅ false ∅).
    simpl. lia.
Defined.

(* ------------------------------------------------------------------ *)
(** ** Units and parameter lines *)

(** C6 (code bug, failing input).  The unit [kg] is reduced to the dimensionality
    [kg], which is not in the table: [_units2nineml_units] raises the
    import error, but [_units2dimension] raises a plain [KeyError].  A
    unit name the quantities library does not know, such as [frobnicate],
    fails inside [_units2SI] with the library's [LookupError], before the
    table is consulted. *)
Lemma C6_counterexample :
  units2dimension ex_simplify (fun u => u) "kg" = Err KeyError /\
  units2nineml_units ex_simplify (fun u => u) ex_SI_to_nineml_units "kg"
    = Err (ImportError "Unrecognised dimension from units 'kg'('kg')") /\
  units2nineml_units ex_simplify (fun u => u) ex_SI_to_nineml_units "frobnicate"
    = Err (OtherError "LookupError") /\
  units2dimension ex_simplify (fun u => u) "frobnicate" = Err (OtherError "LookupError").
Proof. vm_compute. repeat split. Qed.

(** C6 (code bug).  When the SI dimensionality of [units] is not in the
    table, [_units2nineml_units] catches the failed lookup and raises the
    import error [Unrecognised dimension from units ...], while
    [_units2dimension] does the same lookup unguarded and lets the
    [KeyError] escape; an error of the SI reduction itself reaches both
    unchanged. *)
Theorem units_unrecognised_dimension {U : Type} simplify sanitize_units
    (SI_to_nineml_units : string -> Z -> option U) (units : string) :
  (forall dim_str power,
     units2SI simplify sanitize_units units = Ok (dim_str, power) ->
     lookup_dimension dim_str = None ->
     units2nineml_units simplify sanitize_units SI_to_nineml_units units
       = Err (ImportError ("Unrecognised dimension from units '" +:+ units
                           +:+ "'('" +:+ py_str_opt dim_str +:+ "')")) /\
     units2dimension simplify sanitize_units units = Err KeyError) /\
  (forall e, units2SI simplify sanitize_units units = Err e ->
     units2nineml_units simplify sanitize_units SI_to_nineml_units units = Err e /\
     units2dimension simplify sanitize_units units = Err e).
Proof.
  unfold units2nineml_units, units2dimension. split.
  - intros dim_str power H Hd. rewrite H, Hd. done.
  - intros e H. rewrite H. done.
Qed.

Lemma units_unrecognised_dimension_witness :
  units2dimension ex_simplify (fun u => u) "kg" = Err KeyError.
Proof.
  apply (proj1 (units_unrecognised_dimension ex_simplify (fun u => u) ex_SI_to_nineml_units
                  "kg") (Some "kg") 0%Z); vm_compute; reflexivity.
Defined.

Lemma match_param_decl_units line name units :
  match_param_decl line = Some (name, units) -> is_empty units = false.
Proof.
  unfold match_param_decl.
  destruct (span is_word line) as [n r1]. destruct (span is_space r1) as [sp r2].
  destruct r2 as [|c r3]; [done|].
  destruct (Ascii.eqb_spec c "("%char) as [->|Hc].
  - destruct (span is_unit_char r3) as [u r4].
    destruct r4 as [|c' r5]; [done|].
    destruct (Ascii.eqb_spec c' ")"%char) as [->|Hc'].
    + destruct (is_empty n || is_empty sp || is_empty u) eqn:E; [done|].
      intros [= <- <-]. apply orb_false_iff in E as [_ E]. exact E.
    + destruct c' as [[] [] [] [] [] [] [] []]; try done; congruence.
  - destruct c as [[] [] [] [] [] [] [] []]; try done; congruence.
Qed.

(** C10 (code bug, failing input).  A default-less line without a blank between
    the name and the units does not match the pattern of the source, and
    the import fails with [AttributeError]; with the blank, the name is
    recorded with value NaN. *)
Lemma C10_counterexample :
  extract_parameter_line (fun u => u) (fun _ _ p => Ok p) "gbar(S/cm2)" ∅
    = Err (OtherError "AttributeError") /\
  extract_parameter_line (fun u => u) (fun _ _ p => Ok p) "gbar (S/cm2)" ∅
    = Ok {["gbar" := (NaN, "S/cm2")]}.
Proof. split; vm_compute; reflexivity. Qed.

(** C10 (code bug).  For a line with no [=] of the form [name (units)]
    (at least one blank before the parenthesis), the names [celsius] and
    [v] leave the properties unchanged and any other name is recorded
    with value NaN and its sanitized units; for a line with no [=] that is
    not of that form the failed [re.match] is not checked, and
    [match.group(1)] on [None] raises [AttributeError] instead of an
    import error. *)
Theorem extract_parameter_line_no_default sanitize_units with_default line props :
  List.length (assign_split line) = 1 ->
  (forall name units, match_param_decl line = Some (name, units) ->
     ((name = "celsius" \/ name = "v") ->
      extract_parameter_line sanitize_units with_default line props = Ok props) /\
     (name <> "celsius" -> name <> "v" ->
      extract_parameter_line sanitize_units with_default line props
      = Ok (<[name := (NaN, sanitize_units units)]> props))) /\
  (match_param_decl line = None ->
   extract_parameter_line sanitize_units with_default line props
   = Err (OtherError "AttributeError")).
Proof.
  intros Hlen. unfold extract_parameter_line.
  destruct (assign_split line) as [|p [|p' ps]]; try discriminate Hlen. split.
  - intros name units Hm. rewrite Hm, (match_param_decl_units _ _ _ Hm). split.
    + intros Hn. rewrite bool_decide_eq_true_2; [done|].
      destruct Hn as [->| ->]; set_solver.
    + intros H1 H2. rewrite bool_decide_eq_false_2; [done|].
      rewrite !elem_of_cons, elem_of_nil. tauto.
  - intros Hm. by rewrite Hm.
Qed.

Lemma extract_parameter_line_no_default_witness :
  extract_parameter_line (fun u => u) (fun _ _ p => Ok p) "v (mV)" ∅ = Ok ∅ /\
  extract_parameter_line (fun u => u) (fun _ _ p => Ok p) "ena (mV)" ∅
    = Ok (<["ena" := (NaN, "mV")]> ∅).
Proof.
  split.
  - destruct (extract_parameter_line_no_default (fun u => u) (fun _ _ p => Ok p)
                "v (mV)" ∅) as [H _]; [reflexivity|].
    apply (proj1 (H "v" "mV" ltac:(vm_compute; reflexivity))). right. reflexivity.
  - destruct (extract_parameter_line_no_default (fun u => u) (fun _ _ p => Ok p)
                "ena (mV)" ∅) as [H _]; [reflexivity|].
    apply (proj2 (H "ena" "mV" ltac:(vm_compute; reflexivity))); discriminate.
Defined.

(* ================================================================== *)
(** * Further properties of the importer *)


Lemma paren_depth_cons c p :
  paren_depth (c :: p) = (paren_step c + paren_depth p)%Z.
Proof.
  unfold paren_depth, count_char, paren_step. cbn [List.filter].
  destruct (Ascii.eqb c "(") eqn:E1; destruct (Ascii.eqb c ")") eqn:E2;
  rewrite ?(Ascii.eqb_sym "(" c), ?(Ascii.eqb_sym ")" c), ?E1, ?E2; cbn [List.length];
  try (apply Ascii.eqb_eq in E1; apply Ascii.eqb_eq in E2; subst; discriminate); lia.
Qed.

Lemma last_cons_ne (c : ascii) p : p <> [] -> last (c :: p) = last p.
Proof. destruct p; [done|]. reflexivity. Qed.

Lemma min_close_cons d c p :
  p <> [] -> (c = ")"%char -> (d + paren_step c <> 0)%Z) ->
  min_close (d + paren_step c) p -> min_close d (c :: p).
Proof.
  intros Hne Hc (Hl & Hz & Hm). split; [by rewrite last_cons_ne|].
  split; [rewrite paren_depth_cons; lia|].
  intros p' q' Hpq Hq Hlp. destruct p' as [|c' p'']; [discriminate|].
  injection Hpq as <- Hpq. destruct p'' as [|c'' p3].
  - injection Hlp as ->. rewrite paren_depth_cons. unfold paren_depth at 1. cbn.
    specialize (Hc eq_refl). unfold paren_step in Hc; cbn in Hc. lia.
  - rewrite paren_depth_cons. specialize (Hm _ _ Hpq Hq).
    rewrite last_cons_ne in Hlp by done. specialize (Hm Hlp). lia.
Qed.

Lemma min_close_single d : (d - 1 = 0)%Z -> min_close d [")"%char].
Proof.
  intros Hd. split; [done|]. split; [unfold paren_depth; cbn; lia|].
  intros [|c p'] q' Hpq Hq Hl; [discriminate|].
  injection Hpq as _ Hpq. destruct p', q'; discriminate || done.
Qed.

Lemma matching_parentheses_go_some cs d acc out :
  matching_parentheses_go cs d acc = Some out ->
  exists p rest, cs = (p ++ rest)%list /\ out = (acc ++ p)%list /\ min_close d p.
Proof.
  revert d acc. induction cs as [|c cs IH]; intros d acc; [done|].
  cbn [matching_parentheses_go].
  assert (Hgen : forall d', d' = (d + paren_step c)%Z ->
            (c = ")"%char -> (d + paren_step c <> 0)%Z) ->
            matching_parentheses_go cs d' (acc ++ [c])%list = Some out ->
            exists p rest, c :: cs = (p ++ rest)%list /\ out = (acc ++ p)%list /\ min_close d p).
  { intros d' -> Hc H. destruct (IH _ _ H) as (p & rest & -> & -> & Hmc).
    assert (p <> []) by (intros ->; destruct Hmc; discriminate).
    exists (c :: p), rest. split; [done|]. split; [by rewrite <- app_assoc|].
    by apply min_close_cons. }
  destruct (Ascii.eqb c "(") eqn:E1.
  - apply Ascii.eqb_eq in E1. subst c. apply Hgen; [done|discriminate].
  - destruct (Ascii.eqb c ")") eqn:E2.
    + apply Ascii.eqb_eq in E2. subst c. unfold paren_step in Hgen. cbn in Hgen.
      destruct (Z.eqb (d - 1) 0) eqn:E3.
      * intros [= <-]. exists [")"%char], cs. split; [done|]. split; [done|].
        apply min_close_single. by apply Z.eqb_eq.
      * apply Hgen; [lia|]. intros _. apply Z.eqb_neq in E3. lia.
    + apply Hgen; [unfold paren_step; rewrite E1, E2; lia|].
      intros ->. discriminate.
Qed.

Lemma matching_parentheses_go_none cs d acc p rest :
  cs = (p ++ rest)%list -> last p = Some ")"%char -> (d + paren_depth p = 0)%Z ->
  matching_parentheses_go cs d acc <> None.
Proof.
  revert d acc p. induction cs as [|c cs IH]; intros d acc p Hcs Hl Hz.
  { destruct p; discriminate. }
  destruct p as [|c' p]; [discriminate|]. injection Hcs as <- Hcs.
  rewrite paren_depth_cons in Hz.
  cbn [matching_parentheses_go].
  assert (Hgen : forall d', d' = (d + paren_step c)%Z ->
            (p = [] -> False) ->
            matching_parentheses_go cs d' (acc ++ [c])%list <> None).
  { intros d' -> Hp. destruct p as [|c2 p]; [done|].
    eapply IH; [exact Hcs| |lia]. by rewrite <- last_cons_ne with (c := c). }
  destruct (Ascii.eqb c "(") eqn:E1.
  - apply Hgen; [by unfold paren_step; rewrite E1|].
    intros ->. apply Ascii.eqb_eq in E1. subst. discriminate.
  - destruct (Ascii.eqb c ")") eqn:E2.
    + destruct (Z.eqb (d - 1) 0) eqn:E3; [discriminate|].
      apply Hgen; [by unfold paren_step; rewrite E1, E2|].
      intros ->. unfold paren_step in Hz; rewrite E1, E2 in Hz.
      unfold paren_depth in Hz; cbn in Hz. apply Z.eqb_neq in E3. lia.
    + apply Hgen; [unfold paren_step; rewrite E1, E2; lia|].
      intros ->. injection Hl as ->. discriminate.
Qed.

Lemma list_ascii_of_string_app s t :
  list_ascii_of_string (s +:+ t) = (list_ascii_of_string s ++ list_ascii_of_string t)%list.
Proof. induction s as [|c s IH]; [done|]. simpl. f_equal. exact IH. Qed.

Lemma string_of_list_ascii_app p q :
  string_of_list_ascii (p ++ q)%list = string_of_list_ascii p +:+ string_of_list_ascii q.
Proof. induction p as [|c p IH]; [done|]. simpl. rewrite IH. reflexivity. Qed.

Lemma min_close_unique d p1 r1 p2 r2 :
  (p1 ++ r1 = p2 ++ r2)%list -> min_close d p1 -> min_close d p2 -> p1 = p2.
Proof.
  intros Heq H1 H2. apply app_eq_app in Heq as [k [[-> _]|[-> _]]].
  - destruct k as [|c k]; [by rewrite app_nil_r|].
    exfalso. destruct H1 as (_ & _ & Hm), H2 as (Hl & Hz & _).
    by apply (Hm p2 (c :: k)).
  - destruct k as [|c k]; [by rewrite app_nil_r|].
    exfalso. destruct H2 as (_ & _ & Hm), H1 as (Hl & Hz & _).
    by apply (Hm p1 (c :: k)).
Qed.

(** X1: _matching_parentheses(s) returns the shortest prefix of s that ends in ')' at which the count of '(' minus the count of ')' returns to zero (the rest of s is discarded). *)
Theorem matching_parentheses_ok s out :
  matching_parentheses s = Ok out <->
  exists rest, s = out +:+ rest /\ min_close 0 (list_ascii_of_string out).
Proof.
  unfold matching_parentheses. split.
  - destruct (matching_parentheses_go _ 0 []) as [o|] eqn:E; [|discriminate].
    intros [= <-]. apply matching_parentheses_go_some in E as (p & rest & Hs & -> & Hm).
    exists (string_of_list_ascii rest). cbn.
    rewrite list_ascii_of_string_of_list_ascii. split; [|done].
    rewrite <- string_of_list_ascii_app, <- Hs. by rewrite string_of_list_ascii_of_string.
  - intros (rest & -> & Hm).
    destruct (matching_parentheses_go _ 0 []) as [o|] eqn:E.
    + apply matching_parentheses_go_some in E as (p & rest' & Hs & -> & Hm').
      rewrite list_ascii_of_string_app in Hs.
      rewrite <- (min_close_unique 0 _ _ _ _ Hs Hm Hm'). cbn. by rewrite string_of_list_ascii_of_string.

    + exfalso. destruct Hm as (Hl & Hz & _).
      eapply matching_parentheses_go_none; [apply list_ascii_of_string_app|exact Hl|exact Hz|exact E].
Qed.

(** X2: _matching_parentheses(s) raises the ImportError "No matching ')' found for opening '(' in string '<s>'" exactly when no prefix of s ending in ')' has as many '(' as ')'. *)
Theorem matching_parentheses_err s e :
  matching_parentheses s = Err e <->
  e = ImportError ("No matching ')' found for opening '(' in string '" +:+ s +:+ "'") /\
  forall p rest, list_ascii_of_string s = (p ++ rest)%list ->
    last p = Some ")"%char -> paren_depth p <> 0%Z.
Proof.
  unfold matching_parentheses.
  destruct (matching_parentheses_go _ 0 []) as [o|] eqn:E.
  - split; [discriminate|]. intros [_ Hn]. exfalso.
    apply matching_parentheses_go_some in E as (p & rest & Hs & _ & (Hl & Hz & _)).
    by apply (Hn p rest).
  - split.
    + intros [= <-]. split; [done|]. intros p rest Hs Hl Hz.
      by apply (matching_parentheses_go_none _ 0 [] p rest Hs Hl).
    + intros [-> _]. done.
Qed.

Lemma pretty_N_go_digits (x : N) (s : string) :
  exists d, pretty_N_go x s = d +:+ s /\ str_forall is_digit d = true /\
            (x <> 0%N -> d <> "").
Proof.
  revert s. induction (N.lt_wf_0 x) as [x _ IH]; intros s.
  destruct (decide (x = 0%N)) as [->|Hx].
  - exists "". rewrite pretty_N_go_0. done.
  - rewrite pretty_N_go_step by lia.
    destruct (IH (x `div` 10)%N ltac:(apply N.div_lt; lia)
                 (String (pretty_N_char (x `mod` 10)) s)) as (d & -> & Hd & _).
    exists (d +:+ String (pretty_N_char (x `mod` 10)) "").
    split; [by rewrite <- str_app_assoc|]. split; [|by destruct d].
    clear IH. induction d as [|c d IHd].
    + cbn. unfold pretty_N_char. by repeat case_match.
    + rewrite str_app_cons. cbn [str_forall] in *.
      apply andb_prop in Hd as [-> Hd]. by apply IHd.
Qed.

Lemma pretty_nat_digits (n : nat) :
  str_forall is_digit (pretty n) = true /\ pretty n <> "".
Proof.
  unfold pretty, pretty_nat, pretty, pretty_N.
  case_decide as Hn; [done|].
  destruct (pretty_N_go_digits (N.of_nat n) "") as (d & -> & Hd & Hne).
  rewrite str_app_nil_r. split; [done|]. by apply Hne.
Qed.

Lemma span_digits d r :
  str_forall is_digit d = true -> is_digit (match r with String c _ => c | EmptyString => "a"%char end) = false ->
  span is_digit (d +:+ r) = (d, r).
Proof.
  intros Hd Hr. induction d as [|c d IH].
  - destruct r as [|a r]; [done|]. change (is_digit a = false) in Hr. change (span is_digit (String a r) = ("", String a r)). cbn [span]. by rewrite Hr.
  - rewrite str_app_cons. cbn [str_forall span] in *.
    apply andb_prop in Hd as [-> Hd]. by rewrite IH.
Qed.

Lemma py_drop_app s t : py_drop (String.length s) (s +:+ t) = t.
Proof. induction s; [done|]. exact IHs. Qed.

Lemma py_drop_len n s t : n = String.length s -> py_drop n (s +:+ t) = t.
Proof. intros ->. apply py_drop_app. Qed.

Lemma py_drop_add m n s : py_drop (m + n) s = py_drop n (py_drop m s).
Proof. revert s; induction m; intros s; [done|]. destruct s; cbn; [by destruct n|]. apply IHm. Qed.

(** X3: For every flag number and left-hand side, the prefix '__TRANSITION_<flag>_' that _extract_transition_block puts on a left-hand side is read back by _transition_flag as the flag's digits, and removing len('__TRANSITION__') + len(flag) leading characters, as the NET_RECEIVE code does, gives back the original left-hand side. *)
Theorem transition_flag_roundtrip (flag : nat) (lhs : string) :
  transition_flag (transition_prefix flag lhs) = Some (pretty flag) /\
  strip_transition_prefix (pretty flag) (transition_prefix flag lhs) = lhs.
Proof.
  destruct (pretty_nat_digits flag) as [Hd Hne].
  unfold transition_flag, strip_transition_prefix, transition_prefix.
  assert (Hs : forall t, starts_with "__TRANSITION_" ("__TRANSITION_" +:+ t) = true) by done.
  rewrite Hs. split.
  - change 13 with (String.length "__TRANSITION_"). rewrite py_drop_app.
    rewrite span_digits by done.
    by destruct (pretty flag).
  - replace (String.length "__TRANSITION__" + String.length (pretty flag))
      with (String.length "__TRANSITION_" + (String.length (pretty flag) + String.length "_")) by (cbn; lia).
    rewrite !py_drop_add, py_drop_app, py_drop_app. exact (py_drop_app "_" lhs).
Qed.

Lemma has_char_app x a b : has_char x (a +:+ b) = has_char x a || has_char x b.
Proof. induction a as [|c a IH]; [done|]. rewrite str_app_cons. cbn [has_char]. rewrite IH. by destruct (Ascii.eqb x c). Qed.

Lemma has_char_spaces x p : has_char x (p +:+ " ") = true -> has_char x p = true \/ x = " "%char.
Proof. rewrite has_char_app. cbn. rewrite orb_false_r. intros [H|H]%orb_prop; [by left|]. right. by apply Ascii.eqb_eq. Qed.

Section SubOp.
Variables (op : ascii) (rep : string).
Hypothesis Hop : op <> " "%char.

Lemma sub_op_go_chars x s pending skip :
  has_char x (sub_op_go op rep s pending skip) = true ->
  has_char x pending = true \/ has_char x rep = true \/ (x <> op /\ has_char x s = true).
Proof.
  revert pending skip. induction s as [|c s IH]; intros pending skip; cbn [sub_op_go].
  - destruct skip; [done|]. by left.
  - destruct (Ascii.eqb c " ") eqn:Esp.
    + apply Ascii.eqb_eq in Esp as ->. destruct skip.
      * intros [H|[H|[H1 H2]]]%IH; [done|by right;left|]. right; right. split; [done|]. cbn. by rewrite H2, orb_true_r.
      * intros [H|[H|[H1 H2]]]%IH.
        -- apply has_char_spaces in H as [H| ->]; [by left|]. right; right. split; [done|]. cbn. done.
        -- by right; left.
        -- right; right. split; [done|]. cbn. by rewrite H2, orb_true_r.
    + destruct (Ascii.eqb c op) eqn:Eop.
      * rewrite has_char_app. intros [H|[H|[H|[H1 H2]]]%IH]%orb_prop; [by right;left|done|by right;left|].
        right; right. split; [done|]. cbn. by rewrite H2, orb_true_r.
      * rewrite has_char_app. intros [H|H]%orb_prop; [by left|].
        cbn [has_char] in H. destruct (Ascii.eqb x c) eqn:Exc.
        -- apply Ascii.eqb_eq in Exc as ->. right; right. split.
           ++ intros ->. by rewrite Ascii.eqb_refl in Eop.
           ++ cbn. by rewrite Ascii.eqb_refl.
        -- apply IH in H as [H|[H|[H1 H2]]]; [done|by right;left|].
           right; right. split; [done|]. cbn. by rewrite H2, orb_true_r.
Qed.

Lemma sub_op_go_keep x s pending skip :
  x <> op -> x <> " "%char -> has_char x s = true ->
  has_char x (sub_op_go op rep s pending skip) = true.
Proof.
  intros Hxo Hxs. revert pending skip. induction s as [|c s IH]; intros pending skip; [done|].
  cbn [has_char sub_op_go]. intros Hin.
  destruct (Ascii.eqb x c) eqn:Exc.
  - apply Ascii.eqb_eq in Exc as <-.
    destruct (Ascii.eqb x " ") eqn:E1; [apply Ascii.eqb_eq in E1; done|].
    destruct (Ascii.eqb x op) eqn:E2; [apply Ascii.eqb_eq in E2; done|].
    rewrite has_char_app. cbn. rewrite Ascii.eqb_refl. by rewrite orb_true_r.
  - cbn in Hin. destruct (Ascii.eqb c " "); [by destruct skip; apply IH|].
    destruct (Ascii.eqb c op); rewrite has_char_app; [by rewrite IH, orb_true_r|].
    cbn. by rewrite IH, !orb_true_r.
Qed.

End SubOp.

Lemma sub_op_chars op rep x s :
  op <> " "%char -> has_char x (sub_op op rep s) = true ->
  has_char x rep = true \/ (x <> op /\ has_char x s = true).
Proof. intros Hop H. by destruct (sub_op_go_chars op rep Hop x s "" false H) as [H'|H']. Qed.

Lemma sub_op_keep op rep x s :
  op <> " "%char -> x <> op -> x <> " "%char -> has_char x s = true -> has_char x (sub_op op rep s) = true.
Proof. intros. by apply sub_op_go_keep. Qed.

Lemma elem_sub_fuel_id f s : elem_sub_fuel f s = s.
Proof.
  revert s. induction f as [|f IH]; intros s; [done|]. destruct s as [|c s]; [done|].
  cbn [elem_sub_fuel].
  replace (is_word c && Ascii.eqb c "[") with false.
  - by rewrite IH.
  - destruct (Ascii.eqb c "[") eqn:E; [|by rewrite andb_false_r].
    apply Ascii.eqb_eq in E as ->. reflexivity.
Qed.

Lemma elem_sub_id s : elem_sub s = s.
Proof. apply elem_sub_fuel_id. Qed.

Lemma has_char_map x f s :
  has_char x (string_of_list_ascii (map f (list_ascii_of_string s))) =
  existsb (fun c => Ascii.eqb x (f c)) (list_ascii_of_string s).
Proof. induction s as [|c s IH]; [done|]. cbn. by rewrite IH. Qed.

Lemma existsb_has_char x s : existsb (fun c => Ascii.eqb x c) (list_ascii_of_string s) = has_char x s.
Proof. induction s as [|c s IH]; [done|]. cbn. by rewrite IH. Qed.

Lemma dot_space_chars x s :
  x <> "_"%char ->
  has_char x (dot_space_to_underscore s) = has_char x s && negb (Ascii.eqb x "." || Ascii.eqb x " ").
Proof.
  intros Hx. unfold dot_space_to_underscore. rewrite has_char_map.
  induction s as [|c s IH]; [by cbn|]. cbn [list_ascii_of_string existsb has_char]. rewrite IH.
  clear IH. destruct (has_char x s);
  (destruct (Ascii.eqb_spec c "."); [subst c|destruct (Ascii.eqb_spec c " "); [subst c|]]); cbn [orb];
  repeat match goal with
  | |- context [Ascii.eqb ?a ?b] => destruct (Ascii.eqb_spec a b); try subst a; try subst b
  end; cbn; congruence.
Qed.

Lemma sub_op_absent op rep x s :
  op <> " "%char -> has_char x rep = false -> has_char x s = false \/ x = op ->
  has_char x (sub_op op rep s) = false.
Proof.
  intros Hop Hrep Hs. destruct (has_char x (sub_op op rep s)) eqn:E; [|done].
  apply (sub_op_chars op rep x s Hop) in E as [E|[E1 E2]]; [congruence|]. destruct Hs; congruence.
Qed.

Lemma sub_op_same op rep x s :
  op <> " "%char -> x <> op -> x <> " "%char -> has_char x rep = false ->
  has_char x (sub_op op rep s) = has_char x s.
Proof.
  intros Hop Hxo Hxs Hrep. destruct (has_char x s) eqn:Es.
  - by apply sub_op_keep.
  - apply sub_op_absent; [done|done|by left].
Qed.

Lemma arg_suffix_ops a x :
  x ∈ [" "; "."; "+"; "-"; "*"; "/"; "("; ")"]%char -> has_char x (arg_suffix a) = false.
Proof.
  intros Hx. unfold arg_suffix.
  repeat (apply elem_of_cons in Hx as [->|Hx]); [..|by apply elem_of_nil in Hx];
  rewrite dot_space_chars by discriminate; rewrite ?elem_sub_id;
  try (by rewrite andb_false_r);
  apply andb_false_intro1;
  repeat (apply sub_op_absent; [discriminate|reflexivity|first [right; reflexivity|left]]).
Qed.

Lemma arg_suffix_brackets a x :
  x = "["%char \/ x = "]"%char -> has_char x (arg_suffix a) = has_char x a.
Proof.
  intros Hx. unfold arg_suffix.
  rewrite dot_space_chars by (destruct Hx as [->| ->]; discriminate).
  rewrite elem_sub_id.
  destruct Hx as [->| ->];
  (rewrite !sub_op_same by (discriminate || reflexivity));
  cbn [negb orb Ascii.eqb Bool.eqb]; by rewrite andb_true_r.
Qed.

Lemma args_suffix_go_chars x l s0 :
  has_char x (fold_left (fun suffix a => suffix +:+ "_" +:+ arg_suffix a) l s0) =
  has_char x s0 || existsb (fun a => has_char x ("_" +:+ arg_suffix a)) l.
Proof.
  revert s0. induction l as [|a l IH]; intros s0; cbn [fold_left existsb].
  - by rewrite orb_false_r.
  - rewrite IH, has_char_app. by rewrite orb_assoc.
Qed.

(** X4: The suffix built by _args_suffix contains no space, '.', '+', '-', '*', '/', '(' or ')', and it contains '[' or ']' exactly when one of the argument strings does (the element substitution of the code never fires). *)
Theorem args_suffix_chars (arg_vals : list string) :
  (forall x, x ∈ [" "; "."; "+"; "-"; "*"; "/"; "("; ")"]%char ->
             has_char x (args_suffix arg_vals) = false) /\
  has_char "[" (args_suffix arg_vals) = existsb (has_char "[") arg_vals /\
  has_char "]" (args_suffix arg_vals) = existsb (has_char "]") arg_vals.
Proof.
  unfold args_suffix. rewrite !args_suffix_go_chars. cbn [has_char orb].
  split; [|split].
  - intros x Hx. rewrite args_suffix_go_chars. cbn [has_char orb].
    induction arg_vals as [|a l IH]; [done|]. cbn [existsb].
    rewrite IH, orb_false_r. change ("_" +:+ arg_suffix a) with (String "_" (arg_suffix a)).
    cbn [has_char]. rewrite arg_suffix_ops by done. rewrite orb_false_r.
    repeat (apply elem_of_cons in Hx as [->|Hx]); [..|by apply elem_of_nil in Hx]; reflexivity.
  - induction arg_vals as [|a l IH]; [done|]. cbn [existsb]. rewrite IH.
    change ("_" +:+ arg_suffix a) with (String "_" (arg_suffix a)).
    cbn [has_char]. rewrite arg_suffix_brackets by (by left). reflexivity.
  - induction arg_vals as [|a l IH]; [done|]. cbn [existsb]. rewrite IH.
    change ("_" +:+ arg_suffix a) with (String "_" (arg_suffix a)).
    cbn [has_char]. rewrite arg_suffix_brackets by (by right). reflexivity.
Qed.

Lemma span_fst_forall p s : str_forall p (fst (span p s)) = true.
Proof.
  induction s as [|c s IH]; [done|]. cbn [span].
  destruct (p c) eqn:E; [|done]. destruct (span p s) as [a b]. cbn in *. by rewrite E, IH.
Qed.

Lemma str_forall_has_char p x s : str_forall p s = true -> p x = false -> has_char x s = false.
Proof.
  induction s as [|c s IH]; [done|]. cbn. intros [Hc Hs]%andb_prop Hx.
  rewrite IH by done. destruct (Ascii.eqb_spec x c); [congruence|done].
Qed.

Lemma lstrip_head s c r : lstrip s = String c r -> is_ws c = false.
Proof.
  unfold lstrip. induction s as [|d s IH]; [done|]. cbn [span].
  destruct (is_ws d) eqn:E.
  - destruct (span is_ws s) as [a b] eqn:Es. cbn. cbn in IH. exact IH.
  - cbn. by intros [= <- _].
Qed.

Lemma lstrip_suffix (w : list ascii) :
  exists pre, w = (pre ++ list_ascii_of_string (lstrip (string_of_list_ascii w)))%list.
Proof.
  unfold lstrip. induction w as [|d w IH]; [by exists []|]. cbn [string_of_list_ascii span].
  destruct (is_ws d).
  - destruct IH as [pre Hpre]. destruct (span is_ws (string_of_list_ascii w)) as [a b] eqn:Es.
    exists (d :: pre). cbn in *. by rewrite Hpre at 1.
  - exists []. cbn. by rewrite list_ascii_of_string_of_list_ascii.
Qed.

Lemma strip_head s c r : strip s = String c r -> is_ws c = false.
Proof.
  unfold strip. intros H.
  destruct (lstrip_suffix (rev (list_ascii_of_string (lstrip s)))) as [pre Hpre].
  set (v := list_ascii_of_string (lstrip (string_of_list_ascii (rev (list_ascii_of_string (lstrip s)))))) in *.
  assert (Hu : list_ascii_of_string (lstrip s) = (rev v ++ rev pre)%list).
  { rewrite <- rev_app_distr, <- Hpre. by rewrite rev_involutive. }
  destruct (rev v) as [|c' r'] eqn:Ev; [discriminate|].
  cbn in H. injection H as -> _.
  apply (lstrip_head s c (string_of_list_ascii (r' ++ rev pre))).
  rewrite <- (string_of_list_ascii_of_string (lstrip s)), Hu. reflexivity.
Qed.

Lemma tab_to_space_has_char x s :
  x <> " "%char -> has_char x (tab_to_space s) = has_char x s && negb (Ascii.eqb x "009").
Proof.
  intros Hx. unfold tab_to_space. rewrite has_char_map.
  induction s as [|c s IH]; [by cbn|]. cbn [list_ascii_of_string existsb has_char]. rewrite IH.
  clear IH. destruct (has_char x s);
  (destruct (Ascii.eqb_spec c "009"); [subst c|]); cbn [orb];
  repeat match goal with
  | |- context [Ascii.eqb ?a ?b] => destruct (Ascii.eqb_spec a b); try subst a; try subst b
  end; cbn; congruence.
Qed.

(** X5: Every line yielded by _iterate_block is non-empty, contains no ':' and no tab, and does not start with whitespace. *)
Theorem iterate_block_lines (block : list string) (line : string) :
  line ∈ iterate_block block ->
  line <> "" /\ has_char ":" line = false /\ has_char "009" line = false /\
  (forall c r, line = String c r -> is_ws c = false).
Proof.
  unfold iterate_block. rewrite in_list_filter, in_list_map.
  intros [Hne (l & -> & _)]. split; [by destruct (tab_to_space _)|].
  split; [|split].
  - rewrite tab_to_space_has_char by discriminate.
    unfold before_colon. rewrite (str_forall_has_char _ ":" _ (span_fst_forall _ _)); done.
  - rewrite tab_to_space_has_char by discriminate. by rewrite andb_false_r.
  - intros c r. unfold tab_to_space, before_colon.
    destruct (strip l) as [|d t] eqn:Es; [done|].
    cbn [span]. destruct (negb (Ascii.eqb d ":")) eqn:Ed.
    + destruct (span _ t) as [a b]. cbn. intros [= <- _].
      apply strip_head in Es. destruct (Ascii.eqb_spec d "009"); [by subst d|done].
    + done.
Qed.

Lemma count_char_app x l1 l2 : count_char x (l1 ++ l2)%list = (count_char x l1 + count_char x l2)%nat.
Proof. unfold count_char. by rewrite List.filter_app, List.length_app. Qed.

Lemma count_char_cons x c l :
  count_char x (c :: l) = ((if Ascii.eqb x c then 1 else 0) + count_char x l)%nat.
Proof. unfold count_char. cbn. by destruct (Ascii.eqb x c). Qed.

Lemma count_char_rev x l : count_char x (rev l) = count_char x l.
Proof.
  induction l as [|c l IH]; [done|]. cbn [rev]. rewrite count_char_app, IH, count_char_cons.
  unfold count_char. cbn. destruct (Ascii.eqb x c); cbn; lia.
Qed.

Lemma has_char_count x s : has_char x s = negb (Nat.eqb (count_char x (list_ascii_of_string s)) 0).
Proof.
  induction s as [|c s IH]; [done|]. cbn [has_char list_ascii_of_string].
  rewrite count_char_cons, IH. by destruct (Ascii.eqb x c).
Qed.

Lemma lstrip_count x s : is_ws x = false ->
  count_char x (list_ascii_of_string (lstrip s)) = count_char x (list_ascii_of_string s).
Proof.
  intros Hx. unfold lstrip. induction s as [|d s IH]; [done|]. cbn [span].
  destruct (is_ws d) eqn:E.
  - destruct (span is_ws s) as [a b] eqn:Es. cbn [snd list_ascii_of_string] in *. rewrite count_char_cons, <- IH.
    destruct (Ascii.eqb_spec x d); [congruence|done].
  - done.
Qed.

Lemma strip_count x s : is_ws x = false ->
  count_char x (list_ascii_of_string (strip s)) = count_char x (list_ascii_of_string s).
Proof.
  intros Hx. unfold strip.
  rewrite list_ascii_of_string_of_list_ascii, count_char_rev, lstrip_count by done.
  rewrite list_ascii_of_string_of_list_ascii, count_char_rev, lstrip_count by done.
  done.
Qed.

Lemma caret_go_count x s b : x <> "^"%char ->
  count_char x (list_ascii_of_string (caret_go s b)) = count_char x (list_ascii_of_string s).
Proof.
  intros Hx. revert b. induction s as [|c s IH]; intros b; [done|]. cbn [caret_go].
  destruct (b && is_digit_or_dot c); [|destruct (is_alpha c && _)];
  cbn [list_ascii_of_string]; rewrite !count_char_cons, IH; [done| |done].
  destruct (Ascii.eqb_spec x "^"); [done|]. lia.
Qed.

Lemma split_on_go_length p cs cur :
  List.length (split_on_go p cs cur) = S (List.length (List.filter p cs)).
Proof.
  revert cur. induction cs as [|c cs IH]; intros cur; [done|]. cbn.
  destruct (p c); cbn; by rewrite IH.
Qed.

Lemma split_on_go_pieces p cs cur piece :
  forallb (fun c => negb (p c)) cur = true -> piece ∈ split_on_go p cs cur ->
  str_forall (fun c => negb (p c)) piece = true.
Proof.
  assert (Hsol : forall l, forallb (fun c => negb (p c)) l = true ->
                   str_forall (fun c => negb (p c)) (string_of_list_ascii l) = true).
  { induction l as [|c l IH]; [done|]. cbn. intros [-> H]%andb_prop. by apply IH. }
  revert cur. induction cs as [|c cs IH]; intros cur Hcur; cbn [split_on_go].
  - intros ->%list_elem_of_singleton. by apply Hsol.
  - destruct (p c) eqn:E.
    + intros [->|Hin]%elem_of_cons; [by apply Hsol|]. by apply (IH []).
    + apply IH. rewrite forallb_app, Hcur. cbn. by rewrite E.
Qed.

Lemma star_go_chars x s pd pending :
  has_char x (star_go s pd pending) = true ->
  has_char x s = true \/ x = "*"%char \/
  (exists p, pending = Some p /\ has_char x p = true).
Proof.
  revert pd pending. induction s as [|c s IH]; intros pd pending; cbn [star_go].
  - destruct pending as [p|]; [|done]. intros H. right; right. by exists p.
  - destruct (Ascii.eqb_spec c " ") as [->|Hc].
    + destruct pending as [p|]; [|destruct pd].
      * intros [H|[H|(p' & [= <-] & H)]]%IH.
        -- left. cbn [has_char]. by rewrite H, orb_true_r.
        -- by right; left.
        -- apply has_char_spaces in H as [H| ->].
           ++ right; right. by exists p.
           ++ left. cbn [has_char]. by rewrite Ascii.eqb_refl.
      * intros [H|[H|(p' & [= <-] & H)]]%IH.
        -- left. cbn [has_char]. by rewrite H, orb_true_r.
        -- by right; left.
        -- cbn [has_char] in H. rewrite orb_false_r in H. left. cbn [has_char]. by rewrite H.
      * cbn [has_char]. intros H. apply orb_prop in H as [H|H].
        -- left. cbn [has_char]. by rewrite H.
        -- apply IH in H as [H|[H|(p' & Hp & _)]];
             [left; cbn [has_char]; by rewrite H, orb_true_r|by right; left|done].
    + rewrite has_char_app. intros [H|H]%orb_prop.
      * destruct pending as [p|]; [|done].
        destruct (is_word c); [cbn in H; right; left|right; right; exists p; done].
        destruct (Ascii.eqb_spec x "*"); [done|discriminate].
      * cbn [has_char] in H. apply orb_prop in H as [H|H].
        -- left. cbn [has_char]. by rewrite H.
        -- apply IH in H as [H|[H|(p' & Hp & _)]]; [|by right;left|done].
           left. cbn [has_char]. by rewrite H, orb_true_r.
Qed.

(** The part of [_sanitize_units] before the split on ['-']. *)
Lemma sanitize_units_prefix_count u :
  let u1 := if String.eqb u "mv" then "mV" else u in
  let u2 := strip u1 in
  let u3 := if starts_with "/" u2 then "1" +:+ u2 else u2 in
  count_char "-" (list_ascii_of_string (caret_go u3 false)) =
  count_char "-" (list_ascii_of_string u).
Proof.
  cbv zeta. rewrite caret_go_count by discriminate.
  assert (Hu1 : count_char "-" (list_ascii_of_string (if String.eqb u "mv" then "mV" else u)) =
                count_char "-" (list_ascii_of_string u)).
  { destruct (String.eqb_spec u "mv") as [->|]; reflexivity. }
  destruct (starts_with "/" _).
  - change ("1" +:+ ?t) with (String "1" t). cbn [list_ascii_of_string].
    rewrite count_char_cons, strip_count by reflexivity. exact Hu1.
  - rewrite strip_count by reflexivity. exact Hu1.
Qed.

(** X6: _sanitize_units raises ValueError exactly when the unit string contains two or more '-' characters, and raises nothing else. *)
Theorem sanitize_units_err (units : string) (e : exn) :
  sanitize_units units = Err e <->
  e = ValueError /\ (2 <= count_char "-" (list_ascii_of_string units))%nat.
Proof.
  unfold sanitize_units.
  destruct (String.eqb_spec units "1") as [->|Hne].
  { split; [discriminate|]. intros [_ H]. cbv in H. lia. }
  pose proof (sanitize_units_prefix_count units) as Hc. cbv zeta in Hc.
  set (v := caret_go _ false) in *.
  rewrite has_char_count, Hc.
  destruct (Nat.eqb_spec (count_char "-" (list_ascii_of_string units)) 0) as [H0|H0]; cbn [negb].
  - split; [discriminate|]. lia.
  - pose proof (split_on_go_length (Ascii.eqb "-") (list_ascii_of_string v) []) as Hl.
    unfold split_on. fold (count_char "-" (list_ascii_of_string v)) in Hl. rewrite Hc in Hl.
    destruct (split_on_go _ _ _) as [|b [|e' [|x r]]] eqn:Es; cbn in Hl.
    + lia.
    + lia.
    + split; [discriminate|]. lia.
    + split; [by intros [= <-]; split; [|lia]|]. by intros [-> _].
Qed.

(** X7: A unit string returned by _sanitize_units contains no '-' character. *)
Theorem sanitize_units_no_dash (units v : string) :
  sanitize_units units = Ok v -> has_char "-" v = false.
Proof.
  unfold sanitize_units.
  destruct (String.eqb units "1"); [by intros [= <-]|].
  set (w := caret_go _ false).
  assert (Hstar : forall t, has_char "-" t = false -> has_char "-" (star_go t false None) = false).
  { intros t Ht. destruct (has_char "-" (star_go t false None)) eqn:E; [|done].
    apply star_go_chars in E as [E|[E|(p & [=] & _)]]; congruence. }
  destruct (has_char "-" w) eqn:Ew.
  - destruct (split_on (Ascii.eqb "-") w) as [|b [|e [|x r]]] eqn:Es; try discriminate.
    intros [= <-]. apply Hstar.
    assert (Hp : forall piece, piece ∈ [b; e] -> has_char "-" piece = false).
    { intros piece Hin. rewrite <- Es in Hin.
      apply split_on_go_pieces in Hin; [|done].
      apply (str_forall_has_char _ "-" _ Hin). by rewrite Ascii.eqb_refl. }
    rewrite !has_char_app, (Hp b), (Hp e) by set_solver. reflexivity.
  - intros [= <-]. by apply Hstar.
Qed.

Section SplitOn.
Variable p : ascii -> bool.

Local Abbreviation p_free := (forallb (fun c => negb (p c))).

Lemma split_on_go_free cs cur :
  p_free cs = true -> split_on_go p cs cur = [string_of_list_ascii (cur ++ cs)%list].
Proof.
  revert cur. induction cs as [|c cs IH]; intros cur; cbn.
  - by rewrite app_nil_r.
  - intros [Hc Hcs]%andb_prop. destruct (p c); [done|]. rewrite IH by done.
    by rewrite <- app_assoc.
Qed.

Lemma split_on_go_first l1 b l2 cur :
  p_free l1 = true -> p b = true ->
  split_on_go p (l1 ++ b :: l2)%list cur = string_of_list_ascii (cur ++ l1)%list :: split_on_go p l2 [].
Proof.
  revert cur. induction l1 as [|c l1 IH]; intros cur; cbn.
  - intros _ ->. by rewrite app_nil_r.
  - intros [Hc Hl1]%andb_prop Hb. destruct (p c); [done|]. rewrite IH by done.
    by rewrite <- app_assoc.
Qed.

Lemma p_free_or_split cs :
  p_free cs = true \/ exists l1 b l2, cs = (l1 ++ b :: l2)%list /\ p_free l1 = true /\ p b = true.
Proof.
  induction cs as [|c cs IH]; [by left|]. unfold p_free in *. cbn [forallb].
  destruct (p c) eqn:E.
  - right. by exists [], c, cs.
  - destruct IH as [H|(l1 & b & l2 & -> & H1 & H2)]; [left; by rewrite H|].
    right. exists (c :: l1), b, l2. cbn [forallb app]. by rewrite E, H1.
Qed.

Lemma p_free_str s : p_free (list_ascii_of_string s) = str_forall (fun c => negb (p c)) s.
Proof. unfold p_free. induction s as [|c s IH]; [done|]. cbn [forallb list_ascii_of_string str_forall]. by rewrite IH. Qed.

Lemma split_on_three s a i :
  split_on p s = [a; i; ""] <->
  exists b1 b2, s = a +:+ String b1 (i +:+ String b2 "") /\ p b1 = true /\ p b2 = true /\
    str_forall (fun c => negb (p c)) a = true /\ str_forall (fun c => negb (p c)) i = true.
Proof.
  unfold split_on. split.
  - destruct (p_free_or_split (list_ascii_of_string s)) as [H|(l1 & b1 & l2 & Hs & H1 & Hb1)].
    { rewrite split_on_go_free by done. discriminate. }
    rewrite Hs, split_on_go_first by done. intros [= Ha Hrest].
    destruct (p_free_or_split l2) as [H|(l3 & b2 & l4 & -> & H3 & Hb2)].
    { rewrite split_on_go_free in Hrest by done. discriminate. }
    rewrite split_on_go_first in Hrest by done. injection Hrest as Hi Hrest.
    destruct (p_free_or_split l4) as [H4|(l5 & b3 & l6 & -> & H5 & Hb3)].
    2:{ rewrite split_on_go_first in Hrest by done. apply (f_equal List.length) in Hrest.
        cbn [List.length] in Hrest. rewrite split_on_go_length in Hrest. discriminate. }
    rewrite split_on_go_free in Hrest by done. injection Hrest as Hl4.
    destruct l4; [|discriminate].
    exists b1, b2. subst a i. cbn [app].
    rewrite <- !p_free_str, !list_ascii_of_string_of_list_ascii.
    split; [|done].
    rewrite <- (string_of_list_ascii_of_string s), Hs.
    rewrite string_of_list_ascii_app. cbn. rewrite string_of_list_ascii_app. reflexivity.
  - intros (b1 & b2 & -> & Hb1 & Hb2 & Ha & Hi).
    rewrite !list_ascii_of_string_app. cbn [list_ascii_of_string].
    rewrite list_ascii_of_string_app. cbn [list_ascii_of_string].
    rewrite (split_on_go_first (list_ascii_of_string a) b1); [|by rewrite p_free_str|done].
    rewrite (split_on_go_first (list_ascii_of_string i) b2 []); [|by rewrite p_free_str|done].
    rewrite split_on_go_free by done. cbn.
    by rewrite !string_of_list_ascii_of_string.
Qed.

End SplitOn.

(** X8: For a left-hand side containing '[', the renaming step at the start of _get_alias (the split on square brackets, the assertion on the parts and the format) succeeds exactly when the string is a bracket-free name, a bracket, a bracket-free index and a final bracket ('[' or ']' in either position), and gives the name name + '__index_' + index + '__'; otherwise that assertion fails. This covers only the renaming: the later steps of _get_alias (_get_piecewise, the Alias constructor) are not covered and may still fail. *)
Theorem alias_lhs_indexed (lhs out : string) :
  has_char "[" lhs = true ->
  alias_lhs lhs = Ok out <->
  exists a i b1 b2, lhs = a +:+ String b1 (i +:+ String b2 "") /\
    is_bracket b1 = true /\ is_bracket b2 = true /\
    has_char "[" a = false /\ has_char "]" a = false /\
    has_char "[" i = false /\ has_char "]" i = false /\
    out = a +:+ "__index_" +:+ i +:+ "__".
Proof.
  intros Hb. unfold alias_lhs. rewrite Hb.
  assert (Hfree : forall t, str_forall (fun c => negb (is_bracket c)) t = true <->
                   has_char "[" t = false /\ has_char "]" t = false).
  { induction t as [|c t IH]; [done|]. cbn [str_forall has_char].
    rewrite andb_true_iff, IH, !orb_false_iff. unfold is_bracket.
    rewrite negb_true_iff, orb_false_iff, (Ascii.eqb_sym c), (Ascii.eqb_sym c). tauto. }
  split.
  - destruct (split_on is_bracket lhs) as [|a [|i [|[|c z] [|]]]] eqn:Es; try discriminate.
    intros [= <-]. apply split_on_three in Es as (b1 & b2 & -> & ? & ? & Ha & Hi).
    apply Hfree in Ha as [? ?], Hi as [? ?]. by exists a, i, b1, b2.
  - intros (a & i & b1 & b2 & -> & ? & ? & ? & ? & ? & ? & ->).
    rewrite (proj2 (split_on_three is_bracket _ a i)); [done|].
    exists b1, b2. rewrite !Hfree. done.
Qed.

Lemma starts_with_extend pre a b : starts_with pre a = true -> starts_with pre (a +:+ b) = true.
Proof.
  revert a. induction pre as [|c pre IH]; intros a; [done|].
  destruct a as [|d a]; [done|]. rewrite str_app_cons. cbn [starts_with].
  intros [-> H]%andb_prop. by rewrite IH.
Qed.

Lemma add_eq_minus s t eqs :
  eqs_minus eqs -> starts_with " - " t = true \/ is_Some (eqs !! s) -> eqs_minus (add_eq s t eqs).
Proof.
  unfold add_eq. intros Hm Ht k v. rewrite lookup_insert_Some.
  intros [[<- <-]|[_ Hk]]; [|by eapply Hm].
  destruct (eqs !! s) as [v0|] eqn:E; cbn [default].
  - apply starts_with_extend. by eapply Hm.
  - destruct Ht as [Ht|[? [=]]]. exact Ht.
Qed.

Lemma add_eq_dom s t eqs k : is_Some (add_eq s t eqs !! k) <-> k = s \/ is_Some (eqs !! k).
Proof.
  unfold add_eq. destruct (decide (k = s)) as [->|Hne].
  - rewrite lookup_insert_eq. split; [by left|done].
  - rewrite lookup_insert_ne by done. split; [by right|]. by intros [?|?].
Qed.

Lemma add_eq_pair_fold (f g : kin_state -> string) l eqs :
  (forall sp, starts_with " - " (f sp) = true) ->
  eqs_minus eqs ->
  eqs_minus (fold_left (fun eqs sp => add_eq (fst sp) (g sp) (add_eq (fst sp) (f sp) eqs)) l eqs) /\
  (forall k, is_Some (fold_left (fun eqs sp => add_eq (fst sp) (g sp) (add_eq (fst sp) (f sp) eqs)) l eqs !! k)
             <-> k ∈ map fst l \/ is_Some (eqs !! k)).
Proof.
  intros Hf. revert eqs. induction l as [|sp l IH]; intros eqs Hm; cbn [fold_left].
  - split; [done|]. intros k. split; [by right|]. intros [H|H]; [by apply elem_of_nil in H|done].
  - destruct (IH (add_eq (fst sp) (g sp) (add_eq (fst sp) (f sp) eqs))) as [IH1 IH2].
    { apply add_eq_minus; [apply add_eq_minus; [done|by left]|right].
      apply add_eq_dom. by left. }
    split; [done|]. intros k. rewrite IH2, !add_eq_dom. cbn [map]. rewrite elem_of_cons.
    tauto.
Qed.

Lemma reaction_eqs_spec eqs (r : reaction) :
  eqs_minus eqs ->
  eqs_minus (reaction_eqs eqs r) /\
  (forall k, is_Some (reaction_eqs eqs r !! k) <->
             k ∈ map fst r.1.1.1 \/ k ∈ map fst r.1.1.2 \/ is_Some (eqs !! k)).
Proof.
  destruct r as [[[lhs_states rhs_states] f_rate] b_rate]. cbn [reaction_eqs fst snd].
  intros Hm.
  set (lt := f_rate +:+ "*" +:+ expand_kinetics_term lhs_states).
  set (rt := b_rate +:+ "*" +:+ expand_kinetics_term rhs_states).
  destruct (add_eq_pair_fold (fun sp => " - " +:+ coef_str (snd sp) +:+ lt)
              (fun sp => " + " +:+ coef_str (snd sp) +:+ rt) lhs_states eqs)
    as [H1 H2]; [intros sp; reflexivity|exact Hm|].
  destruct (add_eq_pair_fold (fun sp => " - " +:+ coef_str (snd sp) +:+ rt)
              (fun sp => " + " +:+ coef_str (snd sp) +:+ lt) rhs_states
              (fold_left (fun eqs sp => add_eq (fst sp) (" + " +:+ coef_str (snd sp) +:+ rt)
                 (add_eq (fst sp) (" - " +:+ coef_str (snd sp) +:+ lt) eqs)) lhs_states eqs))
    as [H3 H4]; [intros sp; reflexivity|exact H1|].
  split; [exact H3|]. intros k. rewrite H4, H2. tauto.
Qed.

Lemma reactions_spec (bidirectional : list reaction) eqs :
  eqs_minus eqs ->
  eqs_minus (fold_left reaction_eqs bidirectional eqs) /\
  (forall k, is_Some (fold_left reaction_eqs bidirectional eqs !! k) <->
     (exists r, r ∈ bidirectional /\ (k ∈ map fst r.1.1.1 \/ k ∈ map fst r.1.1.2)) \/
     is_Some (eqs !! k)).
Proof.
  revert eqs. induction bidirectional as [|r b IH]; intros eqs Hm; cbn [fold_left].
  - split; [done|]. intros k. split; [by right|]. intros [(r & Hr & _)|H]; [by apply elem_of_nil in Hr|done].
  - destruct (reaction_eqs_spec eqs r Hm) as [H1 H2].
    destruct (IH _ H1) as [H3 H4]. split; [done|]. intros k. rewrite H4, H2. split.
    + intros [(r' & Hr' & Hk)|[Hk|[Hk|Hk]]].
      * left. exists r'. split; [by apply elem_of_cons; right|done].
      * left. exists r. split; [by apply elem_of_cons; left|by left].
      * left. exists r. split; [by apply elem_of_cons; left|by right].
      * by right.
    + intros [(r' & [->|Hr']%elem_of_cons & Hk)|Hk].
      * right. destruct Hk; tauto.
      * left. by exists r'.
      * by right; right; right.
Qed.

(** X9: _expand_kinetics produces an equation exactly for the states that appear on the left or the right side of some bidirectional reaction; states that occur only in incoming or outgoing fluxes get none. *)
Theorem expand_kinetics_states (bidirectional : list reaction)
  (incoming outgoing : list (string * string)) (state : string) :
  is_Some (expand_kinetics bidirectional incoming outgoing !! state) <->
  exists lhs_states rhs_states f_rate b_rate,
    (lhs_states, rhs_states, f_rate, b_rate) ∈ bidirectional /\
    (state ∈ map fst lhs_states \/ state ∈ map fst rhs_states).
Proof.
  unfold expand_kinetics. rewrite map_lookup_imap.
  destruct (reactions_spec bidirectional ∅ ltac:(intros k v; by rewrite lookup_empty)) as [_ H].
  transitivity (is_Some (fold_left reaction_eqs bidirectional ∅ !! state)).
  { destruct (fold_left reaction_eqs bidirectional ∅ !! state); cbn; split; intros [? ?]; by eauto. }
  rewrite H, lookup_empty. split.
  - intros [([[[l r] f] k] & Hr & Hk)|[? [=]]]. by exists l, r, f, k.
  - intros (l & r & f & k & Hr & Hk). left. by exists (l, r, f, k).
Qed.

(** X10: Every equation of _expand_kinetics is a string starting with ' - ' followed by the incoming terms ' + flux' and the outgoing terms ' - flux' of that state, so the code that removes a leading ' + ' never applies. *)
Theorem expand_kinetics_rhs (bidirectional : list reaction)
  (incoming outgoing : list (string * string)) (state rhs : string) :
  expand_kinetics bidirectional incoming outgoing !! state = Some rhs ->
  exists base, starts_with " - " base = true /\
    rhs = base +:+ flux_terms " + " state incoming +:+ flux_terms " - " state outgoing.
Proof.
  unfold expand_kinetics. rewrite map_lookup_imap.
  destruct (reactions_spec bidirectional ∅ ltac:(intros k v; by rewrite lookup_empty)) as [Hm _].
  destruct (fold_left reaction_eqs bidirectional ∅ !! state) as [base|] eqn:E; [|discriminate].
  change (Some base ≫= ?f) with (f base). cbv beta. pose proof (Hm _ _ E) as Hb.
  assert (Hp : starts_with " + " ((base +:+ flux_terms " + " state incoming) +:+ flux_terms " - " state outgoing) = false).
  { pose proof (starts_with_extend _ _ (flux_terms " - " state outgoing)
                 (starts_with_extend _ _ (flux_terms " + " state incoming) Hb)) as H.
    destruct (_ +:+ _) as [|c1 [|c2 t]]; [done|cbn in H; by rewrite andb_false_r in H|].
    cbn [starts_with] in H |- *. apply andb_prop in H as [H1 [H2 _]%andb_prop].
    apply Ascii.eqb_eq in H2. subst c2. by rewrite andb_false_r. }
  rewrite Hp. intros [= <-]. exists base. split; [done|]. by rewrite str_app_assoc.
Qed.

Lemma ion_element_spec dims c :
  ion_element dims c =
  if ion_ambiguous c then Err (ion_error c)
  else Ok (match ion_dimension c with Some d => <[c := d]> dims | None => dims end).
Proof.
  unfold ion_element, ion_ambiguous, ion_dimension.
  destruct (starts_with "i" c); cbn [andb]; [by destruct (_ || _)|].
  by destruct (_ || _).
Qed.

(** X11: The USEION element loop succeeds exactly when no element starts with 'i' and ends with 'i' or 'o'; then each listed element starting with 'i' gets dimension 'membrane_current', each other listed one ending with 'i' or 'o' gets 'concentration', and all other dimensions are unchanged. *)
Theorem ion_elements_ok (dims dims' : gmap string string) (cs : list string) :
  ion_elements dims cs = Ok dims' <->
  (forall c, c ∈ cs -> ion_ambiguous c = false) /\
  (forall k, dims' !! k =
     if bool_decide (k ∈ cs) then
       match ion_dimension k with Some d => Some d | None => dims !! k end
     else dims !! k).
Proof.
  assert (Hfw : forall cs dims dims', ion_elements dims cs = Ok dims' ->
            (forall c, c ∈ cs -> ion_ambiguous c = false) /\
            (forall k, dims' !! k = if bool_decide (k ∈ cs) then
               match ion_dimension k with Some d => Some d | None => dims !! k end
             else dims !! k)).
  { clear. induction cs as [|c cs IH]; intros dims dims'; cbn [ion_elements].
    - intros [= <-]. split; [intros c Hc; by apply elem_of_nil in Hc|]. intros k.
      by rewrite bool_decide_false by (by intros ?%elem_of_nil).
    - rewrite ion_element_spec. destruct (ion_ambiguous c) eqn:Ea; [discriminate|].
      intros (Hc & Hk)%IH. split.
      + intros c' [->|Hc']%elem_of_cons; [done|]. by apply Hc.
      + intros k. rewrite Hk. clear Hk.
        destruct (decide (k = c)) as [->|Hne].
        * rewrite (bool_decide_true (c ∈ c :: cs)) by (apply elem_of_cons; by left).
          destruct (bool_decide (c ∈ cs)); destruct (ion_dimension c) eqn:Ed;
            rewrite ?lookup_insert_eq; done.
        * assert (Hiff : k ∈ c :: cs <-> k ∈ cs) by (rewrite elem_of_cons; tauto).
          rewrite (bool_decide_ext _ _ Hiff).
          destruct (ion_dimension c); [rewrite lookup_insert_ne by congruence|]; done. }
  split; [apply Hfw|].
  intros [Ha Hk].
  assert (Hex : exists d, ion_elements dims cs = Ok d).
  { clear Hk Hfw. revert dims. induction cs as [|c cs IH]; intros dims; [by eexists|].
    cbn [ion_elements]. rewrite ion_element_spec, Ha by (apply elem_of_cons; by left).
    apply IH. intros c' Hc'. apply Ha, elem_of_cons. by right. }
  destruct Hex as [d Hd]. rewrite Hd. f_equal. apply map_eq. intros k.
  apply Hfw in Hd as [_ Hd]. by rewrite Hd, Hk.
Qed.

(** X12: The USEION element loop fails exactly at the first element that starts with 'i' and ends with 'i' or 'o', with the 'Amiguous usion element' ImportError for that element. *)
Theorem ion_elements_err (dims : gmap string string) (cs : list string) (e : exn) :
  ion_elements dims cs = Err e <->
  exists pre c post, cs = (pre ++ c :: post)%list /\
    (forall x, x ∈ pre -> ion_ambiguous x = false) /\
    ion_ambiguous c = true /\ e = ion_error c.
Proof.
  revert dims. induction cs as [|c cs IH]; intros dims; cbn [ion_elements].
  { split; [discriminate|]. intros ([|? ?] & ? & ? & [=] & _). }
  rewrite ion_element_spec. destruct (ion_ambiguous c) eqn:Ea.
  - split.
    + intros [= <-]. exists [], c, cs. split; [done|]. split; [|done].
      intros x Hx. by apply elem_of_nil in Hx.
    + intros ([|x pre] & c' & post & [= <- Hcs] & Hpre & Ha & ->); [done|].
      exfalso. rewrite Hpre in Ea; [done|]. apply elem_of_cons. by left.
  - rewrite IH. split.
    + intros (pre & c' & post & -> & Hpre & Ha & ->). exists (c :: pre), c', post.
      split; [done|]. split; [|done]. intros x [->|Hx]%elem_of_cons; [done|]. by apply Hpre.
    + intros ([|x pre] & c' & post & Hcs & Hpre & Ha & ->).
      * injection Hcs as <- _. congruence.
      * injection Hcs as <- ->. exists pre, c', post. split; [done|]. split; [|done].
        intros y Hy. apply Hpre, elem_of_cons. by right.
Qed.

Section SolveFacts.
Context {X : Type} (parse : string -> option (string * X)).

Lemma reduce_solves_ok lines methods red ms :
  reduce_solves parse lines methods = Ok (red, ms) ->
  red = List.filter (fun l => negb (starts_with "SOLVE" l)) lines /\
  forall n m, ms !! n = Some m ->
    methods !! n = Some m \/
    exists l, l ∈ lines /\ starts_with "SOLVE" l = true /\ parse l = Some (n, m).
Proof.
  revert methods red. induction lines as [|l lines IH]; intros methods red; cbn [reduce_solves].
  { intros [= <- <-]. split; [done|]. intros n m H. by left. }
  destruct (starts_with "SOLVE" l) eqn:Es.
  - destruct (parse l) as [[n0 m0]|] eqn:Ep; [|discriminate].
    intros (-> & Hm)%IH. split; [cbn [List.filter]; by rewrite Es|].
    intros n m [Hm' | (l' & Hl' & Hs' & Hp')]%Hm.
    + apply lookup_insert_Some in Hm' as [[<- <-]|[_ Hm']]; [|by left].
      right. exists l. split; [apply elem_of_cons; by left|done].
    + right. exists l'. split; [apply elem_of_cons; by right|done].
  - destruct (reduce_solves parse lines methods) as [[red' ms']|e] eqn:Er; [|discriminate].
    intros [= <- <-]. apply IH in Er as [-> Hm]. split; [cbn [List.filter]; by rewrite Es|].
    intros n m [Hm' | (l' & Hl' & Hs' & Hp')]%Hm; [by left|].
    right. exists l'. split; [apply elem_of_cons; by right|done].
Qed.

Lemma reduce_solves_err lines methods e :
  reduce_solves parse lines methods = Err e <->
  exists pre l post, lines = (pre ++ l :: post)%list /\
    (forall x, x ∈ pre -> starts_with "SOLVE" x = true -> is_Some (parse x)) /\
    starts_with "SOLVE" l = true /\ parse l = None /\
    e = ImportError ("Could not read solve statement '" +:+ l +:+ "'").
Proof.
  revert methods. induction lines as [|l lines IH]; intros methods; cbn [reduce_solves].
  { split; [discriminate|]. intros ([|? ?] & ? & ? & [=] & _). }
  destruct (starts_with "SOLVE" l) eqn:Es.
  - destruct (parse l) as [[n0 m0]|] eqn:Ep.
    + rewrite IH. split.
      * intros (pre & l' & post & -> & Hpre & H). exists (l :: pre), l', post.
        split; [done|]. split; [|done]. intros x [->|Hx]%elem_of_cons; [by rewrite Ep|]. by apply Hpre.
      * intros ([|x pre] & l' & post & Hcs & Hpre & Hs & Hp & ->).
        -- injection Hcs as <- _. congruence.
        -- injection Hcs as <- ->. exists pre, l', post. split; [done|]. split; [|done].
           intros y Hy. apply Hpre, elem_of_cons. by right.
    + split.
      * intros [= <-]. exists [], l, lines. split; [done|]. split; [|done].
        intros x Hx. by apply elem_of_nil in Hx.
      * intros ([|x pre] & l' & post & Hcs & Hpre & Hs & Hp & ->).
        -- by injection Hcs as <- _.
        -- injection Hcs as <- _. exfalso. destruct (Hpre l) as [? H]; [by apply elem_of_cons; left|done|].
           congruence.
  - assert (Hiff : reduce_solves parse lines methods = Err e <->
                   (match reduce_solves parse lines methods with
                    | Ok (reduced, ms) => Ok (l :: reduced, ms) | Err e => Err e end) = Err e).
    { destruct (reduce_solves parse lines methods) as [[? ?]|?]; split; congruence. }
    rewrite <- Hiff, IH. split.
    + intros (pre & l' & post & -> & Hpre & H). exists (l :: pre), l', post.
      split; [done|]. split; [|done]. intros x [->|Hx]%elem_of_cons; [congruence|]. by apply Hpre.
    + intros ([|x pre] & l' & post & Hcs & Hpre & Hs & Hp & ->).
      * injection Hcs as <- _. congruence.
      * injection Hcs as <- ->. exists pre, l', post. split; [done|]. split; [|done].
        intros y Hy. apply Hpre, elem_of_cons. by right.
Qed.

End SolveFacts.

Lemma starts_with_spec pre s : starts_with pre s = true <-> exists r, s = pre +:+ r.
Proof.
  revert s. induction pre as [|c pre IH]; intros s; [split; [by exists s|done]|].
  destruct s as [|d s]; cbn [starts_with].
  - split; [done|]. by intros [r [=]].
  - rewrite andb_true_iff, IH. split.
    + intros [->%Ascii.eqb_eq [r ->]]. by exists r.
    + intros [r [= -> ->]]. split; [apply Ascii.eqb_refl|]. by exists r.
Qed.

Lemma span_spec p s a r :
  span p s = (a, r) <-> s = a +:+ r /\ str_forall p a = true /\ head_not p r = true.
Proof.
  revert a r. induction s as [|c s IH]; intros a r; cbn [span].
  - split; [intros [= <- <-]; done|]. intros (Hs & _ & _).
    destruct a; [|discriminate]. by destruct r.
  - destruct (p c) eqn:E.
    + destruct (span p s) as [a' r'] eqn:Es. split.
      * intros [= <- <-]. destruct (proj1 (IH a' r') eq_refl) as (-> & Ha & Hr).
        rewrite str_app_cons. cbn [str_forall]. by rewrite E, Ha.
      * intros (Hs & Ha & Hr). destruct a as [|c' a].
        -- change ("" +:+ r) with r in Hs. subst r. cbn in Hr. by rewrite E in Hr.
        -- rewrite str_app_cons in Hs. injection Hs as <- Hs. cbn in Ha. apply andb_prop in Ha as [_ Ha].
           assert ((a', r') = (a, r)) as Hs' by (apply IH; done). by injection Hs' as -> ->.
    + split.
      * intros [= <- <-]. cbn. by rewrite E.
      * intros (Hs & Ha & Hr). destruct a as [|c' a].
        -- change ("" +:+ r) with r in Hs. by subst r.
        -- rewrite str_app_cons in Hs. injection Hs as <- _. cbn in Ha. by rewrite E in Ha.
Qed.

Lemma str_forall_nonempty_head p a r :
  str_forall p a = true -> a <> "" -> exists c t, a +:+ r = String c t /\ p c = true.
Proof. destruct a as [|c a]; [done|]. cbn. intros [H _]%andb_prop _. by exists c, (a +:+ r). Qed.

Lemma match_solve_method_iff (line n m : string) :
  match_solve_method line = Some (n, m) <->
  exists rest, line = "SOLVE " +:+ n +:+ " METHOD " +:+ m +:+ rest /\
    n <> "" /\ str_forall is_word n = true /\
    m <> "" /\ str_forall is_word m = true /\ head_not is_word rest = true.
Proof.
  unfold match_solve_method. split.
  - destruct (starts_with "SOLVE " line) eqn:E1; [|discriminate].
    apply starts_with_spec in E1 as [r1 ->].
    rewrite (py_drop_len 6 "SOLVE ") by done.
    destruct (span is_word r1) as [n' r2] eqn:E2.
    apply span_spec in E2 as (-> & Hn & Hr2).
    destruct (is_empty n') eqn:En; [discriminate|].
    destruct (starts_with " METHOD " r2) eqn:E3; [|discriminate].
    apply starts_with_spec in E3 as [r3 ->].
    rewrite (py_drop_len 8 " METHOD ") by done.
    destruct (span is_word r3) as [m' rest] eqn:E4.
    apply span_spec in E4 as (-> & Hm & Hrest).
    destruct (is_empty m') eqn:Em; [discriminate|].
    intros [= <- <-]. exists rest. split; [done|]. split; [by destruct n'|]. split; [done|].
    split; [by destruct m'|]. done.
  - intros (rest & -> & Hn0 & Hn & Hm0 & Hm & Hrest).
    assert (Hs : forall t, starts_with "SOLVE " ("SOLVE " +:+ t) = true) by (intros; apply starts_with_spec; by eexists).
    rewrite Hs. rewrite (py_drop_len 6 "SOLVE ") by done.
    rewrite (proj2 (span_spec is_word _ n (" METHOD " +:+ m +:+ rest))) by done.
    destruct n; [done|]. cbn [is_empty].
    assert (Hs2 : forall t, starts_with " METHOD " (" METHOD " +:+ t) = true) by (intros; apply starts_with_spec; by eexists).
    rewrite Hs2. rewrite (py_drop_len 8 " METHOD ") by done.
    rewrite (proj2 (span_spec is_word _ m rest)) by done.
    by destruct m.
Qed.

Lemma match_solve_steadystate_iff (line : string) :
  is_Some (match_solve_steadystate line) <->
  exists c r, line = "SOLVE " +:+ String c r /\ is_word c = true.
Proof.
  unfold match_solve_steadystate. split.
  - destruct (starts_with "SOLVE " line) eqn:E1; [|by intros [? ?]].
    apply starts_with_spec in E1 as [r1 ->].
    rewrite (py_drop_len 6 "SOLVE ") by done.
    destruct (span is_word r1) as [n' r2] eqn:E2.
    apply span_spec in E2 as (-> & Hn & Hr2).
    destruct n' as [|c n']; [by intros [? ?]|].
    intros _. exists c, (n' +:+ r2). cbn in Hn. apply andb_prop in Hn as [Hc _]. done.
  - intros (c & r & -> & Hc).
    assert (Hs : forall t, starts_with "SOLVE " ("SOLVE " +:+ t) = true) by (intros; apply starts_with_spec; by eexists).
    rewrite Hs. rewrite (py_drop_len 6 "SOLVE ") by done.
    cbn [span]. rewrite Hc. destruct (span is_word r) as [a b]. cbn [is_empty].
    destruct (starts_with _ _); [destruct (span _ _); by eexists|by eexists].
Qed.

(** X15: When the SOLVE pass of _extract_breakpoint_block succeeds, the block keeps exactly the lines of _iterate_block that do not start with 'SOLVE', in order, and every recorded (name, method) pair either was already there or comes from a line 'SOLVE name METHOD method ...' of the block. *)
Theorem breakpoint_solves_ok (block : list string) (methods : gmap string string) red ms :
  breakpoint_solves block methods = Ok (red, ms) ->
  red = List.filter (fun l => negb (starts_with "SOLVE" l)) (iterate_block block) /\
  forall n m, ms !! n = Some m ->
    methods !! n = Some m \/
    exists rest, "SOLVE " +:+ n +:+ " METHOD " +:+ m +:+ rest ∈ iterate_block block.
Proof.
  unfold breakpoint_solves. intros (-> & Hm)%reduce_solves_ok. split; [done|].
  intros n m [H|(l & Hl & _ & Hp)]%Hm; [by left|].
  apply match_solve_method_iff in Hp as (rest & -> & _). right. by exists rest.
Qed.

(** X17: The SOLVE pass of _extract_initial_block fails exactly at the first line that starts with 'SOLVE' but not with 'SOLVE ' followed by a word character, with the ImportError "Could not read solve statement '<line>'". *)
Theorem initial_solves_err (block : list string) (methods : gmap string (option string)) e :
  initial_solves block methods = Err e <->
  exists pre l post, iterate_block block = (pre ++ l :: post)%list /\
    (forall x, x ∈ pre -> starts_with "SOLVE" x = true ->
       exists c r, x = "SOLVE " +:+ String c r /\ is_word c = true) /\
    starts_with "SOLVE" l = true /\
    ~ (exists c r, l = "SOLVE " +:+ String c r /\ is_word c = true) /\
    e = ImportError ("Could not read solve statement '" +:+ l +:+ "'").
Proof.
  unfold initial_solves. rewrite reduce_solves_err.
  split; intros (pre & l & post & Hb & Hpre & Hs & Hp & He); exists pre, l, post;
    (split; [done|]); (split; [|split; [done|split; [|done]]]).
  - intros x Hx Hsx. apply match_solve_steadystate_iff. by apply Hpre.
  - rewrite <- match_solve_steadystate_iff, Hp. by intros [? ?].
  - intros x Hx Hsx. apply match_solve_steadystate_iff. by apply Hpre.
  - destruct (match_solve_steadystate l) eqn:E; [|done]. exfalso. apply Hp.
    apply match_solve_steadystate_iff. rewrite E. by eexists.
Qed.

(** X16: The SOLVE pass of _extract_breakpoint_block fails exactly at the first line starting with 'SOLVE' that the 'SOLVE (\w+) METHOD (\w+)' regex does not match, with the ImportError "Could not read solve statement '<line>'". *)
Theorem breakpoint_solves_err (block : list string) (methods : gmap string string) e :
  breakpoint_solves block methods = Err e <->
  exists pre l post, iterate_block block = (pre ++ l :: post)%list /\
    (forall x, x ∈ pre -> starts_with "SOLVE" x = true -> is_Some (match_solve_method x)) /\
    starts_with "SOLVE" l = true /\ match_solve_method l = None /\
    e = ImportError ("Could not read solve statement '" +:+ l +:+ "'").
Proof. unfold breakpoint_solves. apply reduce_solves_err. Qed.

(** X18: In the INITIAL block, a line 'SOLVE n METHOD m' (n a non-empty word) is read as solving n with no steady-state method: the METHOD part is ignored. *)
Lemma match_solve_steadystate_method (n m : string) :
  n <> "" -> str_forall is_word n = true ->
  match_solve_steadystate ("SOLVE " +:+ n +:+ " METHOD " +:+ m) = Some (n, None).
Proof.
  intros Hn0 Hn. unfold match_solve_steadystate.
  assert (Hs : forall t, starts_with "SOLVE " ("SOLVE " +:+ t) = true) by (intros; apply starts_with_spec; by eexists).
  rewrite Hs, (py_drop_len 6 "SOLVE ") by done.
  rewrite (proj2 (span_spec is_word _ n (" METHOD " +:+ m))) by done.
  by destruct n.
Qed.

(** X13: The BREAKPOINT regex 'SOLVE (\w+) METHOD (\w+)' matches a line with groups (n, m) exactly when the line is 'SOLVE ' + n + ' METHOD ' + m followed by a rest not starting with a word character, with n and m non-empty words. *)
Theorem match_solve_method_spec (line n m : string) :
  match_solve_method line = Some (n, m) <->
  exists rest, line = "SOLVE " +:+ n +:+ " METHOD " +:+ m +:+ rest /\
    n <> "" /\ str_forall is_word n = true /\
    m <> "" /\ str_forall is_word m = true /\ head_not is_word rest = true.
Proof. apply match_solve_method_iff. Qed.

(** X14: The INITIAL block regex 'SOLVE (\w+) *(?:STEADYSTATE (\w+))?' matches a line exactly when it starts with 'SOLVE ' followed by a word character. *)
Theorem match_solve_steadystate_spec (line : string) :
  is_Some (match_solve_steadystate line) <->
  exists c r, line = "SOLVE " +:+ String c r /\ is_word c = true.
Proof. apply match_solve_steadystate_iff. Qed.


Section CleanInitFacts.
Context {P V U C : Type} (parse_units : string -> res U) (Constant : string -> V -> U -> C).

Lemma clean_init_go_ok names (rhs : gset string) (params p' : gmap string P)
  (props pr' : gmap string (V * string)) (init i' : gmap string C) :
  NoDup names ->
  clean_init_go parse_units Constant names rhs params props init = Ok (p', pr', i') ->
  (forall k, p' !! k = if bool_decide (k ∈ names /\ k ∉ rhs) then None else params !! k) /\
  (forall k, pr' !! k = if bool_decide (k ∈ names /\ k ∉ rhs) then None else props !! k) /\
  (forall k, k ∈ names -> k ∉ rhs -> exists v u us, props !! k = Some (v, u) /\
      parse_units u = Ok us /\ i' !! k = Some (Constant k v us)) /\
  (forall k, ~ (k ∈ names /\ k ∉ rhs) -> i' !! k = init !! k).
Proof.
  revert params props init.
  induction names as [|n names IH]; intros params props init Hnd H; cbn in H.
  - injection H as <- <- <-.
    split; [|split; [|split]]; intros k; try (intros Hk; set_solver);
      rewrite bool_decide_false by set_solver; reflexivity.
  - apply NoDup_cons in Hnd as [Hn Hnd].
    case_bool_decide as Hr.
    + destruct (IH _ _ _ Hnd H) as (H1 & H2 & H3 & H4).
      split; [|split; [|split]].
      * intros k; rewrite H1. repeat case_bool_decide; (reflexivity || (exfalso; set_solver)).
      * intros k; rewrite H2. repeat case_bool_decide; (reflexivity || (exfalso; set_solver)).
      * intros k Hk Hkr. apply H3; set_solver.
      * intros k Hk. apply H4; set_solver.
    + destruct (props !! n) as [[v u]|] eqn:Hp; [|discriminate].
      destruct (parse_units u) as [us|e] eqn:Hu; [|discriminate].
      destruct (IH _ _ _ Hnd H) as (H1 & H2 & H3 & H4).
      split; [|split; [|split]].
      * intros k; rewrite H1.
        destruct (decide (k = n)) as [->|Hkn].
        -- rewrite bool_decide_false by set_solver.
           rewrite bool_decide_true by set_solver. apply lookup_delete_eq.
        -- rewrite lookup_delete_ne by congruence.
           repeat case_bool_decide; (reflexivity || (exfalso; set_solver)).
      * intros k; rewrite H2.
        destruct (decide (k = n)) as [->|Hkn].
        -- rewrite bool_decide_false by set_solver.
           rewrite bool_decide_true by set_solver. apply lookup_delete_eq.
        -- rewrite lookup_delete_ne by congruence.
           repeat case_bool_decide; (reflexivity || (exfalso; set_solver)).
      * intros k Hk Hkr.
        destruct (decide (k = n)) as [->|Hkn].
        -- exists v, u, us. split; [done|split; [done|]].
           rewrite H4 by set_solver. apply lookup_insert_eq.
        -- destruct (H3 k ltac:(set_solver) Hkr) as (v' & u' & us' & E1 & E2 & E3).
           exists v', u', us'. rewrite lookup_delete_ne in E1 by congruence. auto.
      * intros k Hk. rewrite H4 by set_solver.
        rewrite lookup_insert_ne; [done|]. intros ->. apply Hk. set_solver.
Qed.

Lemma clean_init_go_err names (rhs : gset string) (params : gmap string P)
  (props : gmap string (V * string)) (init : gmap string C) e :
  NoDup names ->
  clean_init_go parse_units Constant names rhs params props init = Err e ->
  exists k, k ∈ names /\ (k ∉ rhs) /\
    ((props !! k = None /\ e = KeyError) \/
     (exists v u, props !! k = Some (v, u) /\ parse_units u = Err e)).
Proof.
  revert params props init.
  induction names as [|n names IH]; intros params props init Hnd H; cbn in H.
  - discriminate.
  - apply NoDup_cons in Hnd as [Hn Hnd].
    case_bool_decide as Hr.
    + destruct (IH _ _ _ Hnd H) as (k & Hk & Hkr & Hcase).
      exists k. split; [set_solver|]. auto.
    + destruct (props !! n) as [[v u]|] eqn:Hp.
      * destruct (parse_units u) as [us|e'] eqn:Hu.
        -- destruct (IH _ _ _ Hnd H) as (k & Hk & Hkr & Hcase).
           exists k. split; [set_solver|]. split; [done|].
           assert (k <> n) by (intros ->; contradiction).
           rewrite lookup_delete_ne in Hcase by congruence. exact Hcase.
        -- injection H as <-. exists n. split; [set_solver|]. split; [done|].
           right. eauto.
      * injection H as <-. exists n. split; [set_solver|]. auto.
Qed.

Lemma clean_init_keys (params : gmap string P) k :
  k ∈ (map_to_list params).*1 <-> is_Some (params !! k).
Proof.
  rewrite list_elem_of_fmap. split.
  - intros ([k' x] & -> & Hin). apply elem_of_map_to_list in Hin. eauto.
  - intros [x Hx]. exists (k, x). split; [done|]. by apply elem_of_map_to_list.
Qed.

(** X19: When _clean_init_parameters succeeds, the parameters kept are exactly those used in a right-hand side; each removed parameter has its property removed and becomes the initial statement Constant(name, value, units) built from that property; all other properties and initial statements are unchanged. *)
Theorem clean_init_parameters_ok (rhs : gset string) (params p' : gmap string P)
  (props pr' : gmap string (V * string)) (init i' : gmap string C) :
  clean_init_parameters parse_units Constant rhs params props init = Ok (p', pr', i') ->
  (forall k, p' !! k = if bool_decide (k ∈ rhs) then params !! k else None) /\
  (forall k, pr' !! k =
     if bool_decide (is_Some (params !! k) /\ k ∉ rhs) then None else props !! k) /\
  (forall k, is_Some (params !! k) -> k ∉ rhs -> exists v u us,
      props !! k = Some (v, u) /\ parse_units u = Ok us /\
      i' !! k = Some (Constant k v us)) /\
  (forall k, params !! k = None \/ k ∈ rhs -> i' !! k = init !! k).
Proof.
  unfold clean_init_parameters. intros H.
  destruct (clean_init_go_ok _ _ _ _ _ _ _ _ (NoDup_fst_map_to_list params) H)
    as (H1 & H2 & H3 & H4).
  split; [|split; [|split]].
  - intros k. rewrite H1.
    destruct (params !! k) eqn:E.
    + assert (k ∈ (map_to_list params).*1) by (apply clean_init_keys; eauto).
      case_bool_decide; case_bool_decide; tauto.
    + assert (k ∉ (map_to_list params).*1)
        by (rewrite clean_init_keys, E; apply is_Some_None).
      rewrite bool_decide_false by tauto. by case_bool_decide.
  - intros k. rewrite H2. pose proof (clean_init_keys params k).
    repeat case_bool_decide; (reflexivity || (exfalso; tauto)).
  - intros k Hk Hr. apply H3; [by apply clean_init_keys|done].
  - intros k Hk. apply H4. rewrite clean_init_keys.
    destruct Hk as [Hk|Hk]; [rewrite Hk; intros [[x ?] _]; discriminate|tauto].
Qed.

(** X20: _clean_init_parameters fails exactly when some parameter not used in a right-hand side has no property (KeyError) or a unit string that cannot be parsed, and any error it raises is one of these. *)
Theorem clean_init_parameters_err (rhs : gset string) (params : gmap string P)
  (props : gmap string (V * string)) (init : gmap string C) :
  (forall e, clean_init_parameters parse_units Constant rhs params props init = Err e ->
     exists k, is_Some (params !! k) /\ (k ∉ rhs) /\
       ((props !! k = None /\ e = KeyError) \/
        (exists v u, props !! k = Some (v, u) /\ parse_units u = Err e))) /\
  ((exists k, is_Some (params !! k) /\ (k ∉ rhs) /\
      (props !! k = None \/ exists v u e, props !! k = Some (v, u) /\ parse_units u = Err e)) ->
   exists e, clean_init_parameters parse_units Constant rhs params props init = Err e).
Proof.
  split.
  - intros e H.
    destruct (clean_init_go_err _ _ _ _ _ _ (NoDup_fst_map_to_list params) H)
      as (k & Hk & Hr & Hc).
    exists k. rewrite <- clean_init_keys. auto.
  - intros (k & Hk & Hr & Hc).
    destruct (clean_init_parameters parse_units Constant rhs params props init)
      as [[[p' pr'] i']|e] eqn:E; [|eauto].
    destruct (clean_init_go_ok _ _ _ _ _ _ _ _ (NoDup_fst_map_to_list params) E)
      as (_ & _ & H3 & _).
    destruct (H3 k (proj2 (clean_init_keys params k) Hk) Hr) as (v & u & us & E1 & E2 & _).
    rewrite E1 in Hc. destruct Hc as [Hc|(v' & u' & e' & Hc & He)]; [discriminate|].
    injection Hc as <- <-. congruence.
Qed.
End CleanInitFacts.

(* ------------------------------------------------------------------ *)
(** ** Instances of the properties above on concrete inputs *)

(** X5 on a line with leading spaces and a comment after ':'. *)
Lemma iterate_block_lines_witness :
  "x = 1 " ∈ iterate_block ["  x = 1 : comment"; ""] /\
  ("x = 1 " <> "" /\ has_char ":" "x = 1 " = false /\ has_char "009" "x = 1 " = false /\
   (forall c r, "x = 1 " = String c r -> is_ws c = false)).
Proof.
  assert (H : "x = 1 " ∈ iterate_block ["  x = 1 : comment"; ""])
    by (apply (bool_decide_eq_true_1 _); vm_compute; reflexivity).
  split; [exact H|exact (iterate_block_lines _ _ H)].
Defined.

(** X7 on the unit string 'mol-cm3'. *)
Lemma sanitize_units_no_dash_witness :
  sanitize_units "mol-cm3" = Ok "(mol)/cm^3" /\ has_char "-" "(mol)/cm^3" = false.
Proof.
  assert (H : sanitize_units "mol-cm3" = Ok "(mol)/cm^3") by (vm_compute; reflexivity).
  split; [exact H|exact (sanitize_units_no_dash _ _ H)].
Defined.

(** X8 on the indexed left-hand side 'a[i]'. *)
Lemma alias_lhs_indexed_witness :
  has_char "[" "a[i]" = true /\
  (alias_lhs "a[i]" = Ok "a__index_i__" <->
   exists a i b1 b2, "a[i]" = a +:+ String b1 (i +:+ String b2 "") /\
     is_bracket b1 = true /\ is_bracket b2 = true /\
     has_char "[" a = false /\ has_char "]" a = false /\
     has_char "[" i = false /\ has_char "]" i = false /\
     "a__index_i__" = a +:+ "__index_" +:+ i +:+ "__").
Proof.
  assert (H : has_char "[" "a[i]" = true) by (vm_compute; reflexivity).
  split; [exact H|exact (alias_lhs_indexed _ _ H)].
Defined.

(** X10 on the reaction A <-> 2 B with an incoming current on A. *)
Lemma expand_kinetics_rhs_witness :
  expand_kinetics [([("A", None)], [("B", Some "2")], "kf", "kb")] [("A", "ina")] [] !! "A"
    = Some " - kf*A + kb*B^2 + ina" /\
  exists base, starts_with " - " base = true /\
    " - kf*A + kb*B^2 + ina" = base +:+ flux_terms " + " "A" [("A", "ina")]
                                     +:+ flux_terms " - " "A" [].
Proof.
  assert (H : expand_kinetics [([("A", None)], [("B", Some "2")], "kf", "kb")]
                [("A", "ina")] [] !! "A" = Some " - kf*A + kb*B^2 + ina")
    by (vm_compute; reflexivity).
  split; [exact H|exact (expand_kinetics_rhs _ _ _ _ _ H)].
Defined.

(** X15 on a BREAKPOINT block with one SOLVE line. *)
Lemma breakpoint_solves_ok_witness :
  breakpoint_solves ["SOLVE states METHOD cnexp"; "x = 1"] ∅
    = Ok (["x = 1"], <["states" := "cnexp"]> ∅) /\
  (["x = 1"] = List.filter (fun l => negb (starts_with "SOLVE" l))
                 (iterate_block ["SOLVE states METHOD cnexp"; "x = 1"]) /\
   forall n m, (<["states" := "cnexp"]> ∅ : gmap string string) !! n = Some m ->
     (∅ : gmap string string) !! n = Some m \/
     exists rest, "SOLVE " +:+ n +:+ " METHOD " +:+ m +:+ rest
                    ∈ iterate_block ["SOLVE states METHOD cnexp"; "x = 1"]).
Proof.
  assert (H : breakpoint_solves ["SOLVE states METHOD cnexp"; "x = 1"] ∅
                = Ok (["x = 1"], <["states" := "cnexp"]> ∅))
    by (vm_compute; reflexivity).
  split; [exact H|exact (breakpoint_solves_ok _ _ _ _ H)].
Defined.

(** X18 on the INITIAL line 'SOLVE states METHOD cnexp'. *)
Lemma match_solve_steadystate_method_witness :
  "states" <> "" /\ str_forall is_word "states" = true /\
  match_solve_steadystate ("SOLVE " +:+ "states" +:+ " METHOD " +:+ "cnexp")
    = Some ("states", None).
Proof.
  assert (H1 : "states" <> "") by discriminate.
  assert (H2 : str_forall is_word "states" = true) by (vm_compute; reflexivity).
  split; [exact H1|split; [exact H2|exact (match_solve_steadystate_method _ "cnexp" H1 H2)]].
Defined.

(** X19 with two parameters, of which only 'a' is used; units are kept
    as strings and a constant is the triple (name, value, units). *)
Lemma clean_init_parameters_ok_witness :
  let parse := (fun u : string => Ok u : res string) in
  let const := (fun n (v : nat) u => (n, v, u)) in
  let params := <["a" := tt]> (<["b" := tt]> ∅) : gmap string unit in
  let props := <["a" := (1, "mV")]> (<["b" := (2, "ms")]> ∅) in
  let rhs := {["a"]} : gset string in
  clean_init_parameters parse const rhs params props ∅
    = Ok (<["a" := tt]> ∅, <["a" := (1, "mV")]> ∅, <["b" := ("b", 2, "ms")]> ∅) /\
  ((forall k, (<["a" := tt]> ∅ : gmap string unit) !! k =
      if bool_decide (k ∈ rhs) then params !! k else None) /\
   (forall k, (<["a" := (1, "mV")]> ∅ : gmap string (nat * string)) !! k =
      if bool_decide (is_Some (params !! k) /\ (k ∉ rhs)) then None else props !! k) /\
   (forall k, is_Some (params !! k) -> k ∉ rhs -> exists v u us,
      props !! k = Some (v, u) /\ parse u = Ok us /\
      (<["b" := ("b", 2, "ms")]> ∅ : gmap string (string * nat * string)) !! k
        = Some (const k v us)) /\
   (forall k, params !! k = None \/ k ∈ rhs ->
      (<["b" := ("b", 2, "ms")]> ∅ : gmap string (string * nat * string)) !! k
        = (∅ : gmap string (string * nat * string)) !! k)).
Proof.
  intros parse const params props rhs.
  assert (H : clean_init_parameters parse const rhs params props ∅
    = Ok (<["a" := tt]> ∅, <["a" := (1, "mV")]> ∅, <["b" := ("b", 2, "ms")]> ∅))
    by (vm_compute; reflexivity).
  split; [exact H|exact (clean_init_parameters_ok _ _ _ _ _ _ _ _ _ H)].
Defined.
